(** * SRAM PUF analysis scripts: decoding, statistics, distances, debiasing

    A shallow embedding of the bit-processing core of the SRAM PUF lab
    scripts ([puf_fingerprint_generation.py], [puf_intra_HD.py],
    [puf_inter_HD.py], [puf_unstable_bits.py], [puf_flip_rate.py],
    [puf_xor_debias_HW_and_intra.py], [puf_xor_debias_inter.py]).

    Conventions.
    - A numpy [uint8] array is a [list Z]; a decoded sample holds only the
      values 0 and 1 ([is_bit]).
    - A Python [str] is a [list ascii]: the text is taken over the code
      points 0..255.
    - A finite double is a rational ([Q]) and every float operation
      rounds its exact result ([rnd]); a division by zero yields [NaN] or
      [Inf] as numpy does (numpy warns, it does not raise).
    - numpy's global random generator is explicit state ([RandomState]).
    - Python exceptions are values of [result]. *)

From Stdlib Require Import ZArith QArith Qround Qpower String Ascii List Bool Lia.
From Stdlib Require Import Setoid Morphisms.
From Stdlib Require Import Permutation FinFun.
Import ListNotations.
Local Open Scope Z_scope.

(** ** Exceptions and numpy scalars *)

Inductive exn : Type := ValueError | TypeError | OverflowError.

Inductive result (A : Type) : Type :=
| Ok (a : A)
| Raise (e : exn).
Arguments Ok {A} a.
Arguments Raise {A} e.

Definition bind {A B} (r : result A) (k : A -> result B) : result B :=
  match r with
  | Ok a => k a
  | Raise e => Raise e
  end.

Notation "x <- r ;; k" := (bind r (fun x => k))
  (at level 61, r at next level, right associativity).

(** The value of a numpy true division. *)
Inductive npfloat : Type :=
| Num (q : Q)
| Inf
| NaN.

Definition is_bit (b : Z) : Prop := b = 0 \/ b = 1.

(** ** BitDecoder: [load_sram_file] *)

Module Decoder.

(** [s.replace(c, '')] for a one-character [c]. *)
Definition replace (c : ascii) (s : list ascii) : list ascii :=
  filter (fun x => negb (Ascii.eqb x c)) s.

Definition SP : ascii := ascii_of_nat 32.
Definition CR : ascii := ascii_of_nat 13.
Definition LF : ascii := ascii_of_nat 10.
Definition DOT : ascii := ascii_of_nat 46.

(** [content.replace(' ', '').replace('\r', '').replace('\n', '').replace('.', '')] *)
Definition hex_str (content : list ascii) : list ascii :=
  replace DOT (replace LF (replace CR (replace SP content))).

(** *** Python's [int(s, 16)] *)

(** Characters that [int] strips at both ends: the ASCII white space
    9..13 and 32, and the two other space characters below 256. *)
Definition is_space (c : ascii) : bool :=
  let n := nat_of_ascii c in
  (((9 <=? n) && (n <=? 13)) || (n =? 32) || (n =? 133) || (n =? 160))%nat.

Definition digit16 (c : ascii) : option Z :=
  let n := Z.of_nat (nat_of_ascii c) in
  if (48 <=? n) && (n <=? 57) then Some (n - 48)
  else if (65 <=? n) && (n <=? 70) then Some (n - 55)
  else if (97 <=? n) && (n <=? 102) then Some (n - 87)
  else None.

Fixpoint lstrip (s : list ascii) : list ascii :=
  match s with
  | c :: r => if is_space c then lstrip r else s
  | [] => []
  end.

Definition strip (s : list ascii) : list ascii :=
  rev (lstrip (rev (lstrip s))).

Definition is_char (n : nat) (c : ascii) : bool := Nat.eqb (nat_of_ascii c) n.

(** Digits, with single underscores allowed between two digits.
    [prev] tells whether the previous character was a digit. *)
Fixpoint digits16 (acc : Z) (prev : bool) (s : list ascii) : option Z :=
  match s with
  | [] => if prev then Some acc else None
  | c :: r =>
      if is_char 95 c then (if prev then digits16 acc false r else None)
      else match digit16 c with
           | Some d => digits16 (16 * acc + d) true r
           | None => None
           end
  end.

(** After the sign: an optional [0x]/[0X] prefix, which may be followed by
    one underscore, then the digits. *)
Definition unsigned16 (s : list ascii) : option Z :=
  match s with
  | z :: x :: r =>
      if is_char 48 z && (is_char 120 x || is_char 88 x) then
        match r with
        | u :: r' => if is_char 95 u then digits16 0 false r' else digits16 0 false r
        | [] => None
        end
      else digits16 0 false s
  | _ => digits16 0 false s
  end.

(** [int(s, 16)]; [None] stands for [ValueError]. *)
Definition int16 (s : list ascii) : option Z :=
  match strip s with
  | c :: r =>
      if is_char 43 c then unsigned16 r
      else if is_char 45 c then option_map Z.opp (unsigned16 r)
      else unsigned16 (c :: r)
  | [] => None
  end.

(** [range(start, stop, step)] for a positive [step]. *)
Definition py_range (start stop step : Z) : list Z :=
  map (fun k => start + Z.of_nat k * step)
      (seq 0 (Z.to_nat ((stop - start + step - 1) / step))).

(** [s[i:j]] for [0 <= i <= j]. *)
Definition slice (s : list ascii) (i j : Z) : list ascii :=
  firstn (Z.to_nat (j - i)) (skipn (Z.to_nat i) s).

(** The first loop of [load_sram_file]: a slice that does not parse is
    skipped ([except ValueError: continue]). *)
Definition bytes_list (hs : list ascii) : list Z :=
  flat_map (fun i => match int16 (slice hs i (i + 2)) with
                     | Some byte => [byte]
                     | None => []
                     end)
           (py_range 0 (Z.of_nat (length hs) - 1) 2).

(** [for i in range(7, -1, -1): bits.append((byte >> i) & 1)] *)
Definition byte_bits (byte : Z) : list Z :=
  map (fun i => Z.land (Z.shiftr byte i) 1) [7; 6; 5; 4; 3; 2; 1; 0].

Definition load_sram_file (content : string) : list Z :=
  flat_map byte_bits (bytes_list (hex_str (list_ascii_of_string content))).

(** *** Captures

    A capture of the bytes [bs], as the cleaning step leaves it: for every
    byte two hexadecimal digits, high nibble first, in either case, with
    any number of the four separators [hex_str] removes before, between and
    after the bytes. *)

Definition is_sep (c : ascii) : bool :=
  Ascii.eqb c SP || Ascii.eqb c CR || Ascii.eqb c LF || Ascii.eqb c DOT.

Inductive hex_capture : list Z -> list ascii -> Prop :=
| hc_end : hex_capture [] []
| hc_sep c bs t :
    is_sep c = true -> hex_capture bs t -> hex_capture bs (c :: t)
| hc_byte hi lo b bs t :
    0 <= b < 256 ->
    digit16 hi = Some (b / 16) -> digit16 lo = Some (b mod 16) ->
    hex_capture bs t -> hex_capture (b :: bs) (hi :: lo :: t).

End Decoder.

(** ** FingerprintSynthesizer: [np.packbits] as [fingerprint_hash] uses it *)

Module Fingerprint.

(** [np.packbits] reads every non-zero element as the bit 1. *)
Definition bit_of (b : Z) : Z := if b =? 0 then 0 else 1.

Definition pack8 (bs : list Z) : Z :=
  fold_left (fun acc b => 2 * acc + bit_of b) bs 0.

(** Most significant bit first; the last group is padded with zeros. *)
Fixpoint packbits (bits : list Z) : list Z :=
  match bits with
  | [] => []
  | b7 :: b6 :: b5 :: b4 :: b3 :: b2 :: b1 :: b0 :: rest =>
      pack8 [b7; b6; b5; b4; b3; b2; b1; b0] :: packbits rest
  | _ => [pack8 (bits ++ repeat 0 (8 - length bits)%nat)]
  end.

(** [f"{byte:02X} "] for a byte below 256, as [fingerprint_to_hex] writes
    each byte of its preview. *)
Definition hex_char (d : Z) : ascii :=
  ascii_of_nat (Z.to_nat (if d <? 10 then 48 + d else 55 + d)).

Definition format_02X (byte : Z) : list ascii :=
  [hex_char (byte / 16); hex_char (byte mod 16)].

Definition hex_dump (bs : list Z) : list ascii :=
  flat_map (fun byte => format_02X byte ++ [Decoder.SP]) bs.

End Fingerprint.

(** ** Double precision

    numpy computes means and distances in double precision. A finite
    double is a rational, and every operation returns the rounding of its
    exact result: [rnd]. Integers (counts and lengths) are exact, which
    they are below 2^53. [fsum] is the sum of a float array
    ([np.add.reduce]), which fixes an order for the additions. *)

Class Rounding : Type := {
  rnd : Q -> Q;
  fsum : list Q -> Q
}.

(** What the properties below need of rounding to nearest: it keeps the
    order, and 0, 1/2 and the double just below 1/2 are doubles. *)
Record rounding_law (F : Rounding) : Prop := {
  rnd_monotone : forall x y : Q, (x <= y)%Q -> (rnd x <= rnd y)%Q;
  rnd_0 : (rnd 0 == 0)%Q;
  rnd_half : (rnd (1 # 2) == 1 # 2)%Q;
  rnd_below_half : (rnd ((1 # 2) - (1 # 2 ^ 54)) == (1 # 2) - (1 # 2 ^ 54))%Q
}.

(** ** StatisticsEngine *)

Module Stats.

Definition np_sum (l : list Z) : Z := fold_right Z.add 0 l.

(** [x < y] on floats. *)
Definition Qltb (x y : Q) : bool := negb (Qle_bool y x).

(** [int(x)]: truncation toward zero; [nan] and [inf] raise. *)
Definition py_int (x : npfloat) : result Z :=
  match x with
  | Num q => Ok (Z.quot (Qnum q) (Zpos (Qden q)))
  | Inf => Raise OverflowError
  | NaN => Raise ValueError
  end.

(** What [np.mean(np.array(samples), axis=0)] is:
    - [Ragged]: the rows differ in length and [np.array] raises;
    - [Mean0]: [samples] is empty, the array has one axis of length 0 and
      its mean is the scalar [nan];
    - [Mean1 m]: the rows have one common length and [m] holds the mean of
      every column. *)
Inductive axis0_mean : Type :=
| Ragged
| Mean0
| Mean1 (m : list Q).

(** A [uint8] result: a 0-dimensional value or a one-dimensional array. *)
Inductive u8array : Type :=
| Arr0 (v : Z)
| Arr1 (a : list Z).

Definition column (samples : list (list Z)) (i : nat) : list Z :=
  map (fun s => nth i s 0) samples.

(** [(per_bit_mean >= 0.5).astype(np.uint8)], element by element. *)
Definition ge_half (m : Q) : Z := if Qle_bool (1 # 2) m then 1 else 0.

Section Float.

Context {F : Rounding}.

(** numpy's true division of a sum by a length: no exception on a zero
    length. *)
Definition np_divide (s : Q) (n : nat) : npfloat :=
  match n with
  | O => if Qeq_bool s 0 then NaN else Inf
  | _ => Num (rnd (s / inject_Z (Z.of_nat n)))
  end.

(** [c - x] and [x * n] for a float [x], a constant [c] and a length [n]. *)
Definition np_rsub (c : Q) (x : npfloat) : npfloat :=
  match x with
  | Num q => Num (rnd (c - q))
  | Inf => Inf
  | NaN => NaN
  end.

Definition np_mul (x : npfloat) (n : nat) : npfloat :=
  match x with
  | Num q => Num (rnd (q * inject_Z (Z.of_nat n)))
  | Inf => match n with O => NaN | _ => Inf end
  | NaN => NaN
  end.

Definition mean_axis0 (samples : list (list Z)) : axis0_mean :=
  match samples with
  | [] => Mean0
  | s :: rest =>
      if forallb (fun r => Nat.eqb (length r) (length s)) rest then
        Mean1 (map (fun i => rnd (inject_Z (np_sum (column samples i))
                                  / inject_Z (Z.of_nat (length samples))))
                   (seq 0 (length s)))
      else Ragged
  end.

(** [np.mean] of a one-dimensional float array. *)
Definition np_mean (m : list Q) : npfloat := np_divide (fsum m) (length m).

(** [compute_fingerprint] of [puf_fingerprint_generation.py]; the same two
    lines give [majority_value] in [analyze_flip_rate].  On an empty list
    the mean is [nan], [nan >= 0.5] is false and the result is the
    0-dimensional 0. *)
Definition compute_fingerprint (samples : list (list Z)) : result u8array :=
  match mean_axis0 samples with
  | Ragged => Raise ValueError
  | Mean0 => Ok (Arr0 0)
  | Mean1 per_bit_mean => Ok (Arr1 (map ge_half per_bit_mean))
  end.

End Float.

End Stats.

(** ** DistanceEngine *)

Module Distance.

Definition neq (p : Z * Z) : Z := if fst p =? snd p then 0 else 1.

(** [np.sum(a != b)] for two arrays of one length. *)
Definition count_neq (a b : list Z) : Z := Stats.np_sum (map neq (combine a b)).

(** [itertools.combinations(l, 2)] *)
Fixpoint combinations2 {A : Type} (l : list A) : list (A * A) :=
  match l with
  | [] => []
  | x :: r => map (pair x) r ++ combinations2 r
  end.

Section Float.

Context {F : Rounding}.

(** [hamming_distance] of [puf_intra_HD.py], [puf_inter_HD.py] and the two
    XOR scripts: no guard, the division is numpy's. *)
Definition hamming_distance (bits1 bits2 : list Z) : npfloat :=
  let min_len := Nat.min (length bits1) (length bits2) in
  Stats.np_divide (inject_Z (count_neq (firstn min_len bits1) (firstn min_len bits2)))
                  min_len.

Definition compute_intra_hd (samples : list (list Z)) : list npfloat :=
  map (fun ij => hamming_distance (nth (fst ij) samples []) (nth (snd ij) samples []))
      (combinations2 (seq 0 (length samples))).

Definition compute_inter_hd (samples1 samples2 : list (list Z)) : list npfloat :=
  flat_map (fun s1 => map (fun s2 => hamming_distance s1 s2) samples2) samples1.

End Float.

End Distance.

(** [puf_unstable_bits.py] has its own [hamming_distance], with a guard. *)
Module UnstableBits.

Definition hamming_distance {F : Rounding} (bits1 bits2 : list Z) : npfloat :=
  let min_len := Nat.min (length bits1) (length bits2) in
  if Nat.eqb min_len 0 then Num 0
  else Stats.np_divide
         (inject_Z (Distance.count_neq (firstn min_len bits1) (firstn min_len bits2)))
         min_len.

End UnstableBits.

(** ** DebiasEngine: [create_xor_mask] and [apply_xor_mask]

    The two XOR scripts hold the same two functions, line for line. *)

Module Debias.

(** numpy's global random generator, of which the scripts use two calls.
    [seed s] is the state that [np.random.seed(s)] installs. [permutation n]
    is [np.random.permutation(n)]: it reads the state and leaves a new one. *)
Class RandomState : Type := {
  rng : Type;
  seed : Z -> rng;
  permutation : nat -> rng -> list nat * rng
}.

(** What numpy documents of [permutation]: a rearrangement of [range(n)]. *)
Definition permutation_law (R : RandomState) : Prop :=
  forall n g, Permutation (fst (permutation n g)) (seq 0 n).

(** [np.where(m)[0]] *)
Definition where_true (m : list bool) : list nat :=
  filter (fun i => nth i m false) (seq 0 (length m)).

(** [mask[i] = v]; every index the scripts use is below [len(mask)]. *)
Fixpoint set_at (i : nat) (v : Z) (mask : list Z) : list Z :=
  match mask, i with
  | [], _ => []
  | _ :: r, O => v :: r
  | x :: r, S i' => x :: set_at i' v r
  end.

(** [mask[idx] = v] for an index array [idx]. *)
Definition assign (idx : list nat) (v : Z) (mask : list Z) : list Z :=
  fold_left (fun m i => set_at i v m) idx mask.

(** [np.bitwise_xor(a, b)] on one-dimensional arrays: equal lengths, or one
    of the two of length 1 and stretched; any other pair raises. *)
Definition bitwise_xor (a b : list Z) : result (list Z) :=
  if Nat.eqb (length a) (length b) then
    Ok (map (fun p => Z.lxor (fst p) (snd p)) (combine a b))
  else if Nat.eqb (length b) 1 then Ok (map (fun x => Z.lxor x (hd 0 b)) a)
  else if Nat.eqb (length a) 1 then Ok (map (fun y => Z.lxor (hd 0 a) y) b)
  else Raise ValueError.

(** A list comprehension whose body may raise. *)
Fixpoint mapM {A B : Type} (f : A -> result B) (l : list A) : result (list B) :=
  match l with
  | [] => Ok []
  | x :: r => y <- f x ;; ys <- mapM f r ;; Ok (y :: ys)
  end.

(** [[np.bitwise_xor(s, mask[:len(s)]) for s in samples]] *)
Definition apply_xor_mask (samples : list (list Z)) (mask : list Z)
  : result (list (list Z)) :=
  mapM (fun s => bitwise_xor s (firstn (length s) mask)) samples.

Section Mask.

Context {R : RandomState} {F : Rounding}.

(** [np.random.choice(a, size=size, replace=False)]: the first [size]
    entries of a permutation of the positions of [a]. A negative [size], or
    one above [len(a)], raises. *)
Definition choice (a : list nat) (size : Z) (g : rng) : result (list nat) * rng :=
  if (Z.of_nat (length a) <? size) || (size <? 0) then (Raise ValueError, g)
  else
    let (p, g') := permutation (length a) g in
    (Ok (map (fun i => nth i a O) (firstn (Z.to_nat size) p)), g').

(** [mean_per_bit < 0.05]; the literal is the double nearest to 5/100. *)
Definition stable_zero_positions (mean_per_bit : list Q) : list bool :=
  map (fun m => Stats.Qltb m (rnd (5 # 100))) mean_per_bit.

(** [int(target_flip_ratio * len(mean_per_bit))] *)
Definition flip_budget (mean_per_bit : list Q) : result Z :=
  let current_hw := Stats.np_mean mean_per_bit in
  let target_flip_ratio := Stats.np_rsub (1 # 2) current_hw in
  Stats.py_int (Stats.np_mul target_flip_ratio (length mean_per_bit)).

(** [create_xor_mask], with the state of the global generator passed in
    and out. *)
Definition create_xor_mask (samples : list (list Z)) (g : rng)
  : result (list Z) * rng :=
  match Stats.mean_axis0 samples with
  | Stats.Ragged => (Raise ValueError, g)
  | Stats.Mean0 => (Raise TypeError, g)
  | Stats.Mean1 mean_per_bit =>
      let mask := repeat 0 (length mean_per_bit) in
      let stable_indices := where_true (stable_zero_positions mean_per_bit) in
      match flip_budget mean_per_bit with
      | Raise e => (Raise e, g)
      | Ok num_to_flip =>
          let num_to_flip := Z.min num_to_flip (Z.of_nat (length stable_indices)) in
          let g := seed 42 in
          match choice stable_indices num_to_flip g with
          | (Raise e, g) => (Raise e, g)
          | (Ok flip_indices, g) => (Ok (assign flip_indices 1 mask), g)
          end
      end
  end.

End Mask.

(** Number of set bits of a mask. *)
Definition popcount (mask : list Z) : nat :=
  length (filter (fun b => b =? 1) mask).

End Debias.

(** ** The generator behind [np.random.seed] and [np.random.permutation]

    numpy's global generator is the Mersenne Twister MT19937: an integer
    seed fills the 624 words of the key, a permutation is an in-place
    shuffle of [arange(n)] from the last position down, and each position
    to swap with is searched by masking 32-bit outputs. The search loop has
    no bound in numpy; here it gives up after [max_tries] outputs. *)

Module MT19937.

Record rk_state : Type := { key : list Z; pos : nat }.

Fixpoint list_set {A : Type} (i : nat) (v : A) (l : list A) : list A :=
  match l, i with
  | [], _ => []
  | _ :: r, O => v :: r
  | x :: r, S i' => x :: list_set i' v r
  end.

Fixpoint seed_keys (n : nat) (pos seed : Z) : list Z :=
  match n with
  | O => []
  | S n' =>
      seed :: seed_keys n' (pos + 1)
                (Z.land (1812433253 * Z.lxor seed (Z.shiftr seed 30) + pos + 1)
                        0xffffffff)
  end.

Definition mt19937_seed (seed : Z) : rk_state :=
  {| key := seed_keys 624 0 (Z.land seed 0xffffffff); pos := 624 |}.

Definition gen_step (key : list Z) (i : nat) : list Z :=
  let y := Z.lor (Z.land (nth i key 0) 0x80000000)
                 (Z.land (nth ((i + 1) mod 624) key 0) 0x7fffffff) in
  list_set i
    (Z.lxor (Z.lxor (nth ((i + 397) mod 624) key 0) (Z.shiftr y 1))
            (if Z.testbit y 0 then 0x9908b0df else 0))
    key.

Definition mt19937_gen (key : list Z) : list Z :=
  fold_left gen_step (seq 0 624) key.

(** One 32-bit output. *)
Definition rk_random (st : rk_state) : Z * rk_state :=
  let st := if Nat.eqb (pos st) 624
            then {| key := mt19937_gen (key st); pos := 0 |} else st in
  let y := nth (pos st) (key st) 0 in
  let y := Z.lxor y (Z.shiftr y 11) in
  let y := Z.lxor y (Z.land (Z.shiftl y 7) 0x9d2c5680) in
  let y := Z.lxor y (Z.land (Z.shiftl y 15) 0xefc60000) in
  let y := Z.lxor y (Z.shiftr y 18) in
  (y, {| key := key st; pos := S (pos st) |}).

(** The smallest mask of ones that covers [max]. *)
Definition bit_mask (max : Z) : Z :=
  fold_left (fun m s => Z.lor m (Z.shiftr m s)) [1; 2; 4; 8; 16; 32] max.

Definition max_tries : nat := 4096.

Fixpoint search (tries : nat) (mask max : Z) (st : rk_state) : Z * rk_state :=
  match tries with
  | O => (0, st)
  | S t =>
      let (r, st') := rk_random st in
      let value := Z.land r mask in
      if max <? value then search t mask max st' else (value, st')
  end.

(** A value in [0..max]. *)
Definition rk_interval (max : Z) (st : rk_state) : Z * rk_state :=
  if max =? 0 then (0, st) else search max_tries (bit_mask max) max st.

Definition swap (i j : nat) (x : list nat) : list nat :=
  list_set i (nth j x O) (list_set j (nth i x O) x).

(** [for i in reversed(range(1, n)): j = rk_interval(i); x[i], x[j] = x[j], x[i]] *)
Fixpoint shuffle (i : nat) (x : list nat) (st : rk_state) : list nat * rk_state :=
  match i with
  | O => (x, st)
  | S i' =>
      let (j, st') := rk_interval (Z.of_nat i) st in
      shuffle i' (swap i (Z.to_nat j) x) st'
  end.

Definition rk_permutation (n : nat) (st : rk_state) : list nat * rk_state :=
  shuffle (n - 1) (seq 0 n) st.

#[global] Instance mt19937 : Debias.RandomState := {|
  Debias.rng := rk_state;
  Debias.seed := mt19937_seed;
  Debias.permutation := rk_permutation
|}.

End MT19937.

(** ** The two arithmetics

    [exact] does not round: the means are the rationals themselves.
    [binary64] rounds to the nearest double, ties to even, with the
    subnormal range and without overflow (no quantity of the scripts comes
    near 2^1024), and adds as numpy does: pairwise, in blocks of at most 128
    elements held in eight running sums. *)

Module Exact.

Definition Qsum (l : list Q) : Q := fold_right Qplus 0%Q l.

Definition exact : Rounding := {| rnd := fun x => x; fsum := Qsum |}.

End Exact.

Module Binary64.

(** The integer nearest to [a / b], the even one on a tie
    ([0 <= a], [0 < b]). *)
Definition round_even (a b : Z) : Z :=
  let f := a / b in
  match 2 * (a mod b) ?= b with
  | Lt => f
  | Gt => f + 1
  | Eq => if Z.even f then f else f + 1
  end.

Definition pow2 (z : Z) : Q := (2 ^ z)%Q.

Definition nearest (y : Q) : Z := round_even (Qnum y) (Zpos (Qden y)).

(** The multiple of [2 ^ u] nearest to [x]. *)
Definition on_grid (u : Z) (x : Q) : Q := (inject_Z (nearest (x / pow2 u)) * pow2 u)%Q.

(** [floor (log2 x)] for a positive [x]. *)
Definition ilog2 (x : Q) : Z :=
  let l := Z.log2 (Qnum x) - Z.log2 (Zpos (Qden x)) in
  if Qle_bool (pow2 l) x then l else l - 1.

(** The exponent of the last place of a double of magnitude [x]: 53
    significant bits, and no exponent below -1074. *)
Definition ulp_exp (x : Q) : Z := Z.max (ilog2 x - 52) (-1074).

Definition round_mag (x : Q) : Q := on_grid (ulp_exp x) x.

Definition round64 (x : Q) : Q :=
  match Qnum x with
  | Z0 => 0%Q
  | Zpos _ => round_mag x
  | Zneg _ => Qopp (round_mag (Qopp x))
  end.

Definition fadd (x y : Q) : Q := round64 (x + y).

(** [r[j] += a[j]] for the eight running sums. *)
Fixpoint add_block (r a : list Q) : list Q :=
  match r, a with
  | x :: r', y :: a' => fadd x y :: add_block r' a'
  | _, _ => r
  end.

(** The loop [for (i = 8; i < n - n % 8; i += 8)] over what follows the
    first eight elements: [blocks] blocks of eight are added to the running
    sums, the rest is returned. *)
Fixpoint unrolled (blocks : nat) (r a : list Q) : list Q * list Q :=
  match blocks with
  | O => (r, a)
  | S k => unrolled k (add_block r (firstn 8 a)) (skipn 8 a)
  end.

Definition tree8 (r : list Q) : Q :=
  let x i := nth i r 0%Q in
  fadd (fadd (fadd (x 0%nat) (x 1%nat)) (fadd (x 2%nat) (x 3%nat)))
       (fadd (fadd (x 4%nat) (x 5%nat)) (fadd (x 6%nat) (x 7%nat))).

(** numpy's [pairwise_sum]; [fuel] bounds the depth of the halving. *)
Fixpoint pairwise_sum (fuel : nat) (a : list Q) : Q :=
  let n := length a in
  if (n <? 8)%nat then fold_left fadd a 0%Q
  else if (n <=? 128)%nat then
    let (r, rest) := unrolled ((n - n mod 8 - 8) / 8) (firstn 8 a) (skipn 8 a) in
    fold_left fadd rest (tree8 r)
  else
    match fuel with
    | O => fold_left fadd a 0%Q
    | S fuel' =>
        let n2 := (n / 2 - (n / 2) mod 8)%nat in
        fadd (pairwise_sum fuel' (firstn n2 a)) (pairwise_sum fuel' (skipn n2 a))
    end.

Definition binary64 : Rounding :=
  {| rnd := round64; fsum := fun a => fadd 0 (pairwise_sum (length a) a) |}.

End Binary64.

(** ** Hamming weight *)

Module Weight.

(** [hamming_weight] of [puf_hamming_weight.py] and of
    [puf_xor_debias_HW_and_intra.py]. *)
Definition hamming_weight {F : Rounding} (bits : list Z) : npfloat :=
  Stats.np_divide (inject_Z (Stats.np_sum bits)) (length bits).

(** [hamming_weight] of [puf_unstable_bits.py]:
    [np.sum(bits) / len(bits) if len(bits) > 0 else 0]. *)
Definition hamming_weight_guarded {F : Rounding} (bits : list Z) : npfloat :=
  if Nat.ltb 0 (length bits)
  then Stats.np_divide (inject_Z (Stats.np_sum bits)) (length bits)
  else Num 0.

End Weight.

(** ** The common length of two cohorts

    Every script starts with
    [min_len = min(min(len(s) for s in card1), min(len(s) for s in card2))]
    and cuts every sample to [s[:min_len]]. *)

Module Cohort.

(** [min] of a sequence: it raises on an empty one. *)
Definition py_min (l : list nat) : result nat :=
  match l with
  | [] => Raise ValueError
  | x :: r => Ok (fold_left Nat.min r x)
  end.

Definition normalize (card1 card2 : list (list Z))
  : result (list (list Z) * list (list Z)) :=
  m1 <- py_min (map (@length Z) card1) ;;
  m2 <- py_min (map (@length Z) card2) ;;
  let min_len := Nat.min m1 m2 in
  Ok (map (firstn min_len) card1, map (firstn min_len) card2).

End Cohort.

(** ** Flip rate: [analyze_flip_rate] of [puf_flip_rate.py] *)

Module FlipRate.

Record flip_stats : Type := {
  flip_rate : list Q;
  stable_mask : list bool;
  majority_value : list Z;
  perfectly_stable : nat;
  very_stable : nat;
  stable : nat;
  unstable : nat
}.

(** [np.sum] of an array of booleans. *)
Definition count_true (l : list bool) : nat := length (filter (fun b => b) l).

(** [flip_count += (sample != majority_value)] *)
Definition add_flips (flip_count sample majority : list Z) : list Z :=
  map (fun p => fst p + snd p)
      (combine flip_count (map Distance.neq (combine sample majority))).

(** The statistics that [analyze_flip_rate] returns. An empty list has a
    shape of one number, which cannot be unpacked into two; and with samples
    of no bits [np.max(flip_rate)] has nothing to reduce. Both raise
    [ValueError]. *)
Definition analyze_flip_rate {F : Rounding} (samples : list (list Z))
  : result flip_stats :=
  match Stats.mean_axis0 samples with
  | Stats.Ragged => Raise ValueError
  | Stats.Mean0 => Raise ValueError
  | Stats.Mean1 per_bit_mean =>
      let num_samples := length samples in
      let num_bits := length per_bit_mean in
      let majority := map Stats.ge_half per_bit_mean in
      let flip_count :=
        fold_left (fun fc sample => add_flips fc sample majority) samples
                  (repeat 0 num_bits) in
      let rate :=
        map (fun c => rnd (inject_Z c / inject_Z (Z.of_nat num_samples))) flip_count in
      if Nat.eqb num_bits 0 then Raise ValueError
      else
        Ok {| flip_rate := rate;
              stable_mask := map (fun r => Stats.Qltb r (rnd (1 # 10))) rate;
              majority_value := majority;
              perfectly_stable := count_true (map (fun r => Qeq_bool r 0) rate);
              very_stable := count_true (map (fun r => Stats.Qltb r (rnd (5 # 100))) rate);
              stable := count_true (map (fun r => Stats.Qltb r (rnd (1 # 10))) rate);
              unstable := count_true (map (fun r => Qle_bool (rnd (1 # 10)) r) rate) |}
  end.

End FlipRate.

(** ** Bit balance: [analyze_bit_balance] of [puf_bit_balance.py] *)

Module BitBalance.

Record balance : Type := {
  global_1_rate : npfloat;
  per_bit_1_rate : list Q;
  bits_always_0 : nat;
  bits_always_1 : nat;
  bits_balanced : nat
}.

(** As for the flip rate, an empty list and samples of no bits raise
    [ValueError] (the second in [np.min(per_bit_1_rate)]). *)
Definition analyze_bit_balance {F : Rounding} (samples : list (list Z))
  : result balance :=
  match Stats.mean_axis0 samples with
  | Stats.Ragged => Raise ValueError
  | Stats.Mean0 => Raise ValueError
  | Stats.Mean1 rate =>
      let num_samples := length samples in
      let num_bits := length rate in
      if Nat.eqb num_bits 0 then Raise ValueError
      else
        Ok {| global_1_rate :=
                Stats.np_divide (inject_Z (Stats.np_sum (map Stats.np_sum samples)))
                                (num_samples * num_bits);
              per_bit_1_rate := rate;
              bits_always_0 := FlipRate.count_true (map (fun r => Qeq_bool r 0) rate);
              bits_always_1 := FlipRate.count_true (map (fun r => Qeq_bool r 1) rate);
              bits_balanced :=
                FlipRate.count_true
                  (map (fun r => Stats.Qltb (rnd (4 # 10)) r && Stats.Qltb r (rnd (6 # 10)))
                       rate) |}
  end.

End BitBalance.

(** ** Unstable bits: [find_unstable_bits] and [extract_unstable_bits] *)

Module Unstable.

(** [threshold] is a double; [1 - threshold] is computed. On an empty
    list the mean is a scalar, of which [np.where] refuses to list the
    indices (numpy 2.1 on). *)
Definition find_unstable_bits {F : Rounding} (samples : list (list Z)) (threshold : Q)
  : result (list nat * list Q) :=
  match Stats.mean_axis0 samples with
  | Stats.Ragged => Raise ValueError
  | Stats.Mean0 => Raise ValueError
  | Stats.Mean1 mean_per_bit =>
      let unstable_mask :=
        map (fun r => Stats.Qltb threshold r && Stats.Qltb r (rnd (1 - threshold)))
            mean_per_bit in
      Ok (Debias.where_true unstable_mask, mean_per_bit)
  end.

(** [s[unstable_indices]]; [None] stands for [IndexError], raised by an
    index that is not below [len(s)]. *)
Definition take (s : list Z) (idx : list nat) : option (list Z) :=
  if forallb (fun i => Nat.ltb i (length s)) idx
  then Some (map (fun i => nth i s 0) idx)
  else None.

Fixpoint map_option {A B : Type} (f : A -> option B) (l : list A) : option (list B) :=
  match l with
  | [] => Some []
  | x :: r =>
      match f x, map_option f r with
      | Some y, Some ys => Some (y :: ys)
      | _, _ => None
      end
  end.

Definition extract_unstable_bits (samples : list (list Z)) (unstable_indices : list nat)
  : option (list (list Z)) :=
  map_option (fun s => take s unstable_indices) samples.

(** [compute_intra_hd] of [puf_unstable_bits.py], over the guarded
    distance of that file. *)
Definition compute_intra_hd {F : Rounding} (samples : list (list Z)) : list npfloat :=
  map (fun ij => UnstableBits.hamming_distance (nth (fst ij) samples [])
                                               (nth (snd ij) samples []))
      (Distance.combinations2 (seq 0 (length samples))).

End Unstable.

(** ** Cleaning a capture: [clean_file] of [clean_sram_files.py]

    [text] is the decoded content of the file, here with characters below
    256; the pattern knows the ASCII digits and letters only, so that any
    other character is one that matches nothing. *)

Module Cleaning.

Definition is_hex (c : ascii) : bool :=
  match Decoder.digit16 c with Some _ => true | None => false end.

Definition is_sp (c : ascii) : bool := Ascii.eqb c Decoder.SP.

(** The pattern [[0-9A-Fa-f]{2} [0-9A-Fa-f]{2} [0-9A-Fa-f]{2} [0-9A-Fa-f]{2}]
    at the start of [t]. *)
Definition matches_at (t : list ascii) : bool :=
  match t with
  | a1 :: a2 :: s1 :: b1 :: b2 :: s2 :: c1 :: c2 :: s3 :: d1 :: d2 :: _ =>
      is_hex a1 && is_hex a2 && is_sp s1 && is_hex b1 && is_hex b2 && is_sp s2
      && is_hex c1 && is_hex c2 && is_sp s3 && is_hex d1 && is_hex d2
  | _ => false
  end.

(** [re.search]: the start of the leftmost match. *)
Fixpoint search (t : list ascii) : option nat :=
  if matches_at t then Some O
  else match t with
       | [] => None
       | _ :: r => option_map S (search r)
       end.

(** The new content of the file; [None] when nothing matches: the file is
    left as it is and [clean_file] returns [False]. *)
Definition clean_file (text : list ascii) : option (list ascii) :=
  option_map (fun start_pos => skipn start_pos text) (search text).

End Cleaning.

(** ** The preview of a fingerprint: [fingerprint_to_hex] *)

Module Preview.

(** [str.strip()] removes the characters that [str.isspace] accepts:
    below 256 these are 9..13, 28..32, 133 and 160. *)
Definition is_py_space (c : ascii) : bool :=
  let n := nat_of_ascii c in
  (((9 <=? n) && (n <=? 13)) || ((28 <=? n) && (n <=? 32)) || (n =? 133) || (n =? 160))%nat.

Fixpoint py_lstrip (s : list ascii) : list ascii :=
  match s with
  | c :: r => if is_py_space c then py_lstrip r else s
  | [] => []
  end.

Definition py_strip (s : list ascii) : list ascii :=
  rev (py_lstrip (rev (py_lstrip s))).

(** [(byte << 1) | fingerprint[i + j]] on [uint8] values: the shift wraps
    at 256 (numpy 2; it never does for a fingerprint of bits). *)
Definition shift_or (byte bit : Z) : Z := Z.lor (Z.shiftl byte 1 mod 256) bit.

(** The inner loop: the bits [i .. i+7] that exist, most significant
    first. *)
Definition group_byte (fingerprint : list Z) (i : nat) : Z :=
  fold_left (fun byte j =>
               if Nat.ltb (i + j) (length fingerprint)
               then shift_or byte (nth (i + j) fingerprint 0)
               else byte)
            (seq 0 8) 0.

Definition fingerprint_to_hex (fingerprint : list Z) (num_bytes : Z) : list ascii :=
  py_strip
    (flat_map (fun i =>
                 Fingerprint.format_02X (group_byte fingerprint (Z.to_nat i))
                 ++ [Decoder.SP]
                 ++ (if (i / 8 + 1) mod 16 =? 0 then [Decoder.LF] else []))
              (Decoder.py_range 0 (Z.min (Z.of_nat (length fingerprint)) (num_bytes * 8)) 8)).

End Preview.

(** * Properties *)

(** ** BitDecoder *)

Lemma flat_map_map {A B C : Type} (f : B -> list C) (g : A -> B) (l : list A) :
  flat_map f (map g l) = flat_map (fun x => f (g x)) l.
Proof.
  induction l as [|x l IH]; simpl; [reflexivity|]. now rewrite IH.
Qed.

Lemma byte_bits_length byte : length (Decoder.byte_bits byte) = 8%nat.
Proof. reflexivity. Qed.

Lemma flat_map_byte_bits_length (l : list Z) :
  length (flat_map Decoder.byte_bits l) = (8 * length l)%nat.
Proof.
  induction l as [|b l IH]; [reflexivity|].
  cbn [flat_map]. rewrite length_app, byte_bits_length, IH. simpl length. lia.
Qed.

Lemma byte_bits_is_bit byte : Forall is_bit (Decoder.byte_bits byte).
Proof.
  unfold Decoder.byte_bits. apply Forall_forall. intros x Hx.
  apply in_map_iff in Hx. destruct Hx as [i [<- _]].
  unfold is_bit.
  assert (H : Z.land (Z.shiftr byte i) 1 = Z.shiftr byte i mod 2)
    by exact (Z.land_ones (Z.shiftr byte i) 1 ltac:(lia)).
  rewrite H. pose proof (Z.mod_pos_bound (Z.shiftr byte i) 2 ltac:(lia)). lia.
Qed.

(** The loop over [range(0, len(hex_str) - 1, 2)] reads the text two
    characters at a time and leaves a last odd character unread. *)
Lemma py_range_step (n : nat) :
  Decoder.py_range 0 (Z.of_nat (S (S n)) - 1) 2
  = 0 :: map (fun i => i + 2) (Decoder.py_range 0 (Z.of_nat n - 1) 2).
Proof.
  unfold Decoder.py_range.
  replace (Z.of_nat (S (S n)) - 1 - 0 + 2 - 1) with (Z.of_nat n * 1 + 1 * 2) by lia.
  replace (Z.of_nat n - 1 - 0 + 2 - 1) with (Z.of_nat n) by lia.
  rewrite Z.mul_1_r, Z.div_add by lia.
  pose proof (Z.div_pos (Z.of_nat n) 2 ltac:(lia) ltac:(lia)).
  rewrite Z2Nat.inj_add by lia. rewrite Nat.add_comm. simpl seq. simpl map.
  f_equal. rewrite <- seq_shift, !map_map. apply map_ext. intros k. lia.
Qed.

Lemma bytes_list_nil : Decoder.bytes_list [] = [].
Proof. reflexivity. Qed.

Lemma bytes_list_one c : Decoder.bytes_list [c] = [].
Proof. reflexivity. Qed.

Lemma flat_map_ext_In {A B : Type} (f g : A -> list B) (l : list A) :
  (forall x, In x l -> f x = g x) -> flat_map f l = flat_map g l.
Proof.
  induction l as [|x l IH]; intros H; simpl; [reflexivity|].
  rewrite (H x (or_introl eq_refl)), IH; [reflexivity|].
  intros y Hy. apply H. now right.
Qed.

Lemma py_range_nonneg stop i : In i (Decoder.py_range 0 stop 2) -> 0 <= i.
Proof.
  unfold Decoder.py_range. intros H. apply in_map_iff in H.
  destruct H as [k [<- _]]. lia.
Qed.

Lemma slice_skip2 c1 c2 rest i :
  0 <= i ->
  Decoder.slice (c1 :: c2 :: rest) (i + 2) (i + 2 + 2) = Decoder.slice rest i (i + 2).
Proof.
  intros Hi. unfold Decoder.slice.
  replace (i + 2 + 2 - (i + 2)) with (i + 2 - i) by lia.
  replace (Z.to_nat (i + 2)) with (S (S (Z.to_nat i))) by lia.
  reflexivity.
Qed.

Lemma bytes_list_pair c1 c2 rest :
  Decoder.bytes_list (c1 :: c2 :: rest)
  = match Decoder.int16 [c1; c2] with Some byte => [byte] | None => [] end
    ++ Decoder.bytes_list rest.
Proof.
  unfold Decoder.bytes_list. cbn [length]. rewrite py_range_step.
  cbn [flat_map]. f_equal. rewrite flat_map_map.
  apply flat_map_ext_In. intros i Hi.
  rewrite slice_skip2; [reflexivity|]. exact (py_range_nonneg _ _ Hi).
Qed.

(** Every slice that parses gives one byte, and every byte eight bits. *)
Lemma load_sram_file_length content :
  length (Decoder.load_sram_file content)
  = (8 * length (Decoder.bytes_list
                   (Decoder.hex_str (list_ascii_of_string content))))%nat.
Proof. unfold Decoder.load_sram_file. apply flat_map_byte_bits_length. Qed.

Lemma load_sram_file_bits content : Forall is_bit (Decoder.load_sram_file content).
Proof.
  unfold Decoder.load_sram_file. apply Forall_flat_map.
  apply Forall_forall. intros b _. apply byte_bits_is_bit.
Qed.

Lemma py_range_bound (len : nat) i :
  In i (Decoder.py_range 0 (Z.of_nat len - 1) 2) ->
  0 <= i /\ i + 2 <= Z.of_nat len /\ i mod 2 = 0.
Proof.
  unfold Decoder.py_range. intros H. apply in_map_iff in H.
  destruct H as [k [<- Hk]]. apply in_seq in Hk.
  replace (Z.of_nat len - 1 - 0 + 2 - 1) with (Z.of_nat len) in Hk by lia.
  pose proof (Z.div_pos (Z.of_nat len) 2 ltac:(lia) ltac:(lia)).
  pose proof (Z.mul_div_le (Z.of_nat len) 2 ltac:(lia)).
  rewrite Z.add_0_l, Z.mod_mul by lia. lia.
Qed.

Lemma slice_length s i j :
  0 <= i -> i <= j -> j <= Z.of_nat (length s) ->
  length (Decoder.slice s i j) = Z.to_nat (j - i).
Proof.
  intros Hi Hij Hj. unfold Decoder.slice.
  rewrite length_firstn, length_skipn. lia.
Qed.

(** C9: whatever the text, the decoder emits eight bits for every
    two-character slice that parses as a hexadecimal number and nothing
    else, so the length of its result is a multiple of 8 and no bit comes
    from a partial byte. *)
Theorem load_sram_file_whole_bytes (content : string) :
  let hs := Decoder.hex_str (list_ascii_of_string content) in
  let bits := Decoder.load_sram_file content in
  (length bits mod 8 = 0)%nat
  /\ length bits = (8 * length (Decoder.bytes_list hs))%nat
  /\ bits = flat_map Decoder.byte_bits (Decoder.bytes_list hs)
  /\ Forall is_bit bits
  /\ Forall (fun byte =>
               exists i, 0 <= i /\ i + 2 <= Z.of_nat (length hs)
                         /\ length (Decoder.slice hs i (i + 2)) = 2%nat
                         /\ Decoder.int16 (Decoder.slice hs i (i + 2)) = Some byte)
            (Decoder.bytes_list hs).
Proof.
  intros hs bits. subst bits.
  rewrite load_sram_file_length. fold hs.
  split; [rewrite Nat.mul_comm; apply Nat.Div0.mod_mul|].
  split; [reflexivity|]. split; [reflexivity|].
  split; [apply load_sram_file_bits|].
  apply Forall_forall. intros byte Hb. unfold Decoder.bytes_list in Hb.
  apply in_flat_map in Hb. destruct Hb as [i [Hi Hb]].
  apply py_range_bound in Hi. destruct Hi as [H0 [H2 _]].
  exists i. split; [exact H0|]. split; [exact H2|].
  split; [rewrite slice_length by lia; lia|].
  destruct (Decoder.int16 (Decoder.slice hs i (i + 2))) as [b|]; simpl in Hb.
  - destruct Hb as [<-|[]]. reflexivity.
  - destruct Hb.
Qed.

(** C4: the text [AA BB] decodes to the sixteen bits 10101010 10111011,
    and [AA B] to the eight bits 10101010: the odd last character is
    dropped. *)
Theorem load_sram_file_scenarios :
  Decoder.load_sram_file "AA BB" = [1;0;1;0;1;0;1;0; 1;0;1;1;1;0;1;1]
  /\ Decoder.load_sram_file "AA B" = [1;0;1;0;1;0;1;0].
Proof. split; vm_compute; reflexivity. Qed.

(** ** Round trip through a capture *)

(** A hexadecimal digit is none of the characters [int] treats in a
    special way, and none of the separators. *)
Lemma digit16_plain c d :
  Decoder.digit16 c = Some d ->
  0 <= d < 16
  /\ Decoder.is_space c = false
  /\ Decoder.is_char 43 c = false /\ Decoder.is_char 45 c = false
  /\ Decoder.is_char 95 c = false
  /\ Decoder.is_char 120 c = false /\ Decoder.is_char 88 c = false
  /\ Decoder.is_sep c = false.
Proof.
  destruct c as [[] [] [] [] [] [] [] []]; vm_compute; intros H;
    try discriminate H; injection H as <-; repeat split; discriminate.
Qed.

Lemma int16_two_digits hi lo x y :
  Decoder.digit16 hi = Some x -> Decoder.digit16 lo = Some y ->
  Decoder.int16 [hi; lo] = Some (16 * x + y).
Proof.
  intros Hx Hy.
  destruct (digit16_plain _ _ Hx) as (_ & Hs1 & Hp1 & Hm1 & Hu1 & _ & _ & _).
  destruct (digit16_plain _ _ Hy) as (_ & Hs2 & _ & _ & Hu2 & Hx2 & HX2 & _).
  unfold Decoder.int16, Decoder.strip. cbn [Decoder.lstrip]. rewrite Hs1.
  cbn [rev app Decoder.lstrip]. rewrite Hs2. cbn [rev app].
  rewrite Hp1, Hm1. unfold Decoder.unsigned16. rewrite Hx2, HX2.
  rewrite andb_false_r. cbn [Decoder.digits16]. rewrite Hu1, Hx, Hu2, Hy.
  reflexivity.
Qed.

Lemma replace_drop c x s :
  Ascii.eqb x c = true -> Decoder.replace c (x :: s) = Decoder.replace c s.
Proof. intros H. unfold Decoder.replace. cbn [filter]. now rewrite H. Qed.

Lemma replace_keep c x s :
  Ascii.eqb x c = false -> Decoder.replace c (x :: s) = x :: Decoder.replace c s.
Proof. intros H. unfold Decoder.replace. cbn [filter]. now rewrite H. Qed.

Lemma hex_str_sep c s :
  Decoder.is_sep c = true -> Decoder.hex_str (c :: s) = Decoder.hex_str s.
Proof.
  unfold Decoder.is_sep, Decoder.hex_str. intros H.
  destruct (Ascii.eqb c Decoder.SP) eqn:E1; [now rewrite replace_drop|].
  rewrite (replace_keep _ _ _ E1).
  destruct (Ascii.eqb c Decoder.CR) eqn:E2; [now rewrite replace_drop|].
  rewrite (replace_keep _ _ _ E2).
  destruct (Ascii.eqb c Decoder.LF) eqn:E3; [now rewrite replace_drop|].
  rewrite (replace_keep _ _ _ E3).
  destruct (Ascii.eqb c Decoder.DOT) eqn:E4; [now rewrite replace_drop|].
  discriminate H.
Qed.

Lemma hex_str_keep c s :
  Decoder.is_sep c = false -> Decoder.hex_str (c :: s) = c :: Decoder.hex_str s.
Proof.
  unfold Decoder.is_sep, Decoder.hex_str. intros H.
  apply orb_false_elim in H. destruct H as [H E4].
  apply orb_false_elim in H. destruct H as [H E3].
  apply orb_false_elim in H. destruct H as [E1 E2].
  now rewrite (replace_keep _ _ _ E1), (replace_keep _ _ _ E2),
    (replace_keep _ _ _ E3), (replace_keep _ _ _ E4).
Qed.

(** Packing the eight bits of a byte gives the byte back. *)
Lemma pack8_byte_bits_all :
  forallb (fun n => Fingerprint.pack8 (Decoder.byte_bits (Z.of_nat n)) =? Z.of_nat n)
          (seq 0 256) = true.
Proof. vm_compute. reflexivity. Qed.

Lemma pack8_byte_bits b :
  0 <= b < 256 -> Fingerprint.pack8 (Decoder.byte_bits b) = b.
Proof.
  intros Hb. pose proof pack8_byte_bits_all as H.
  rewrite forallb_forall in H. specialize (H (Z.to_nat b)).
  rewrite Z2Nat.id in H by lia. apply Z.eqb_eq, H, in_seq. lia.
Qed.

Lemma packbits_byte_bits b rest :
  Fingerprint.packbits (Decoder.byte_bits b ++ rest)
  = Fingerprint.pack8 (Decoder.byte_bits b) :: Fingerprint.packbits rest.
Proof. reflexivity. Qed.

Lemma hex_capture_bits bs t :
  Decoder.hex_capture bs t ->
  Decoder.bytes_list (Decoder.hex_str t) = bs.
Proof.
  induction 1 as [|c bs t Hc _ IH|hi lo b bs t Hb Hhi Hlo _ IH].
  - reflexivity.
  - now rewrite hex_str_sep.
  - destruct (digit16_plain _ _ Hhi) as (_ & _ & _ & _ & _ & _ & _ & S1).
    destruct (digit16_plain _ _ Hlo) as (_ & _ & _ & _ & _ & _ & _ & S2).
    rewrite (hex_str_keep _ _ S1), (hex_str_keep _ _ S2), bytes_list_pair.
    rewrite (int16_two_digits _ _ _ _ Hhi Hlo), IH. cbn [app]. f_equal.
    pose proof (Z.div_mod b 16 ltac:(lia)). lia.
Qed.

Lemma packbits_flat_map_byte_bits bs :
  Forall (fun b => 0 <= b < 256) bs ->
  Fingerprint.packbits (flat_map Decoder.byte_bits bs) = bs.
Proof.
  induction 1 as [|b bs Hb _ IH]; [reflexivity|].
  cbn [flat_map]. rewrite packbits_byte_bits, pack8_byte_bits, IH by exact Hb.
  reflexivity.
Qed.

Lemma hex_capture_range bs t :
  Decoder.hex_capture bs t -> Forall (fun b => 0 <= b < 256) bs.
Proof. induction 1; auto. Qed.

(** C5: for every byte array, any capture of it decodes to the bits of
    its bytes, most significant first, and packing those bits gives the
    bytes back exactly; the decoded length is a multiple of 8, so no padding
    takes part. *)
Theorem capture_round_trip (bs : list Z) (content : string) :
  Decoder.hex_capture bs (list_ascii_of_string content) ->
  Decoder.load_sram_file content = flat_map Decoder.byte_bits bs
  /\ Fingerprint.packbits (Decoder.load_sram_file content) = bs.
Proof.
  intros H. unfold Decoder.load_sram_file.
  rewrite (hex_capture_bits _ _ H). split; [reflexivity|].
  apply packbits_flat_map_byte_bits. exact (hex_capture_range _ _ H).
Qed.

Lemma digit16_hex_char d :
  0 <= d < 16 -> Decoder.digit16 (Fingerprint.hex_char d) = Some d.
Proof.
  intros H.
  assert (E : In d (map Z.of_nat (seq 0 16))).
  { apply in_map_iff. exists (Z.to_nat d). split; [lia|]. apply in_seq. lia. }
  cbn in E.
  repeat (destruct E as [<-|E]; [reflexivity|]). destruct E.
Qed.

(** The preview format is a capture. *)
Lemma hex_dump_capture bs :
  Forall (fun b => 0 <= b < 256) bs ->
  Decoder.hex_capture bs (Fingerprint.hex_dump bs).
Proof.
  induction 1 as [|b bs Hb _ IH]; [constructor|].
  unfold Fingerprint.hex_dump. cbn [flat_map Fingerprint.format_02X app].
  apply Decoder.hc_byte; [exact Hb| | |].
  - apply digit16_hex_char.
    split; [apply Z.div_pos; lia|apply Z.div_lt_upper_bound; lia].
  - apply digit16_hex_char. apply Z.mod_pos_bound. lia.
  - apply Decoder.hc_sep; [reflexivity|exact IH].
Qed.

Lemma capture_round_trip_witness :
  Decoder.hex_capture [170; 187] (list_ascii_of_string "AA BB")
  /\ Decoder.load_sram_file "AA BB" = flat_map Decoder.byte_bits [170; 187]
  /\ Fingerprint.packbits (Decoder.load_sram_file "AA BB") = [170; 187].
Proof.
  assert (H : Decoder.hex_capture [170; 187] (list_ascii_of_string "AA BB")).
  { cbn [list_ascii_of_string].
    apply Decoder.hc_byte; [lia|reflexivity|reflexivity|].
    apply Decoder.hc_sep; [reflexivity|].
    apply Decoder.hc_byte; [lia|reflexivity|reflexivity|].
    apply Decoder.hc_end. }
  split; [exact H|]. exact (capture_round_trip _ _ H).
Defined.

(** ** Rounding *)

Lemma exact_law : rounding_law Exact.exact.
Proof.
  split; cbn [rnd Exact.exact].
  - intros x y H. exact H.
  - reflexivity.
  - reflexivity.
  - reflexivity.
Qed.

(** *** Rounding to the nearest double keeps the order *)

Lemma div_le_cross (a b a' b' : Z) :
  0 < b -> 0 < b' -> a * b' <= a' * b -> a / b <= a' / b'.
Proof.
  intros Hb Hb' H.
  apply Z.div_le_lower_bound; [exact Hb'|].
  (* b' * (a / b) <= a' *)
  pose proof (Z.mul_div_le a b Hb) as H1.
  assert (H2 : b * (b' * (a / b)) <= b * a') by nia.
  nia.
Qed.

Lemma round_even_mono (a b a' b' : Z) :
  0 < b -> 0 < b' -> a * b' <= a' * b ->
  Binary64.round_even a b <= Binary64.round_even a' b'.
Proof.
  intros Hb Hb' H. unfold Binary64.round_even.
  pose proof (div_le_cross a b a' b' Hb Hb' H) as Hf.
  pose proof (Z.div_mod a b ltac:(lia)) as E.
  pose proof (Z.mod_pos_bound a b Hb) as R.
  pose proof (Z.div_mod a' b' ltac:(lia)) as E'.
  pose proof (Z.mod_pos_bound a' b' Hb') as R'.
  set (f := a / b) in *. set (r := a mod b) in *.
  set (f' := a' / b') in *. set (r' := a' mod b') in *.
  destruct (Z.eq_dec f f') as [Heq|Hne].
  - rewrite <- Heq in *. clear Hf.
    assert (Hr : r * b' <= r' * b) by nia.
    destruct (Z.even f);
    destruct (Z.compare_spec (2 * r) b), (Z.compare_spec (2 * r') b'); try lia; nia.
  - destruct (Z.even f), (Z.even f');
    destruct (Z.compare_spec (2 * r) b), (Z.compare_spec (2 * r') b'); lia.
Qed.

Lemma nearest_mono (x y : Q) : (x <= y)%Q -> Binary64.nearest x <= Binary64.nearest y.
Proof.
  intros H. unfold Binary64.nearest. apply round_even_mono; try reflexivity.
  exact H.
Qed.

#[local] Instance nearest_proper : Proper (Qeq ==> eq) Binary64.nearest.
Proof.
  intros x y H. apply Z.le_antisymm; apply nearest_mono; rewrite H; apply Qle_refl.
Qed.

Lemma nearest_inject_Z (k : Z) : Binary64.nearest (inject_Z k) = k.
Proof.
  unfold Binary64.nearest, Binary64.round_even, inject_Z. cbn [Qnum Qden].
  rewrite Z.div_1_r, Z.mod_1_r. reflexivity.
Qed.

Lemma pow2_pos (z : Z) : (0 < Binary64.pow2 z)%Q.
Proof. apply Qpower_0_lt. reflexivity. Qed.

Lemma pow2_add (a b : Z) : (Binary64.pow2 (a + b) == Binary64.pow2 a * Binary64.pow2 b)%Q.
Proof. apply Qpower_plus. discriminate. Qed.

Lemma pow2_le (a b : Z) : a <= b -> (Binary64.pow2 a <= Binary64.pow2 b)%Q.
Proof. intros H. apply Qpower_le_compat_l; [exact H|discriminate]. Qed.

Lemma pow2_lt_inv (a b : Z) : (Binary64.pow2 a < Binary64.pow2 b)%Q -> a < b.
Proof. intros H. apply (Qpower_lt_compat_l_inv 2); [exact H|reflexivity]. Qed.

Lemma pow2_inject (n : Z) : 0 <= n -> (inject_Z (2 ^ n) == Binary64.pow2 n)%Q.
Proof. intros H. apply (Zpower_Qpower 2 n H). Qed.

Lemma on_grid_mono (u : Z) (x y : Q) :
  (x <= y)%Q -> (Binary64.on_grid u x <= Binary64.on_grid u y)%Q.
Proof.
  intros H. unfold Binary64.on_grid.
  apply Qmult_le_compat_r; [|apply Qlt_le_weak, pow2_pos].
  rewrite <- Zle_Qle. apply nearest_mono.
  unfold Qdiv. apply Qmult_le_compat_r; [exact H|].
  apply Qlt_le_weak, Qinv_lt_0_compat, pow2_pos.
Qed.

Lemma on_grid_pow2 (u e : Z) :
  u <= e -> (Binary64.on_grid u (Binary64.pow2 e) == Binary64.pow2 e)%Q.
Proof.
  intros H. unfold Binary64.on_grid.
  assert (E : (Binary64.pow2 e / Binary64.pow2 u == inject_Z (2 ^ (e - u)))%Q).
  { rewrite pow2_inject by lia.
    replace e with ((e - u) + u) at 1 by lia. rewrite pow2_add.
    field. apply Qnot_eq_sym, Qlt_not_eq, pow2_pos. }
  rewrite E, nearest_inject_Z, pow2_inject by lia.
  rewrite <- pow2_add. replace (e - u + u) with e by lia. reflexivity.
Qed.

Lemma on_grid_nonneg (u : Z) (x : Q) : (0 <= x)%Q -> (0 <= Binary64.on_grid u x)%Q.
Proof.
  intros H. unfold Binary64.on_grid.
  apply Qmult_le_0_compat; [|apply Qlt_le_weak, pow2_pos].
  change 0%Q with (inject_Z 0). rewrite <- Zle_Qle.
  rewrite <- (nearest_inject_Z 0). apply nearest_mono.
  unfold Qdiv. apply Qmult_le_0_compat; [exact H|].
  apply Qlt_le_weak, Qinv_lt_0_compat, pow2_pos.
Qed.

Lemma log2_bounds (p : Z) :
  0 < p ->
  (Binary64.pow2 (Z.log2 p) <= inject_Z p)%Q
  /\ (inject_Z p < Binary64.pow2 (Z.log2 p + 1))%Q.
Proof.
  intros Hp. pose proof (Z.log2_spec p Hp) as [H1 H2].
  pose proof (Z.log2_nonneg p) as H0.
  rewrite <- !pow2_inject by lia. rewrite <- Zle_Qle, <- Zlt_Qlt.
  split; [exact H1|]. replace (Z.log2 p + 1) with (Z.succ (Z.log2 p)) by lia. exact H2.
Qed.

Lemma ilog2_spec (x : Q) :
  (0 < x)%Q ->
  (Binary64.pow2 (Binary64.ilog2 x) <= x)%Q
  /\ (x < Binary64.pow2 (Binary64.ilog2 x + 1))%Q.
Proof.
  intros Hx.
  assert (Hp : 0 < Qnum x).
  { unfold Qlt in Hx. cbn in Hx. lia. }
  destruct (log2_bounds (Qnum x) Hp) as [P1 P2].
  destruct (log2_bounds (Zpos (Qden x)) ltac:(lia)) as [Q1 Q2].
  assert (Hq : (0 < inject_Z (Zpos (Qden x)))%Q) by reflexivity.
  assert (Ex : (x == inject_Z (Qnum x) / inject_Z (Zpos (Qden x)))%Q).
  { destruct x as [n d]. apply Qmake_Qdiv. }
  set (lp := Z.log2 (Qnum x)) in *. set (lq := Z.log2 (Zpos (Qden x))) in *.
  assert (Up : (x < Binary64.pow2 (lp - lq + 1))%Q).
  { rewrite Ex. apply Qlt_shift_div_r; [exact Hq|].
    apply Qlt_le_trans with (y := Binary64.pow2 (lp + 1)); [exact P2|].
    replace (lp + 1) with ((lp - lq + 1) + lq) by lia. rewrite pow2_add.
    apply Qmult_le_l; [apply pow2_pos|exact Q1]. }
  assert (Lo : (Binary64.pow2 (lp - lq - 1) < x)%Q).
  { rewrite Ex. apply Qlt_shift_div_l; [exact Hq|].
    apply Qlt_le_trans with (y := Binary64.pow2 lp); [|exact P1].
    replace lp with ((lp - lq - 1) + (lq + 1)) at 2 by lia. rewrite pow2_add.
    apply Qmult_lt_l; [apply pow2_pos|exact Q2]. }
  unfold Binary64.ilog2. fold lp. fold lq.
  destruct (Qle_bool (Binary64.pow2 (lp - lq)) x) eqn:E.
  - apply Qle_bool_iff in E. split; [exact E|exact Up].
  - split; [apply Qlt_le_weak, Lo|].
    replace (lp - lq - 1 + 1) with (lp - lq) by lia.
    apply Qnot_le_lt. intros H. apply Qle_bool_iff in H. congruence.
Qed.

Lemma ilog2_mono (x y : Q) :
  (0 < x)%Q -> (x <= y)%Q -> Binary64.ilog2 x <= Binary64.ilog2 y.
Proof.
  intros Hx Hxy.
  destruct (ilog2_spec x Hx) as [Lx _].
  destruct (ilog2_spec y (Qlt_le_trans _ _ _ Hx Hxy)) as [_ Uy].
  assert (H : (Binary64.pow2 (Binary64.ilog2 x) < Binary64.pow2 (Binary64.ilog2 y + 1))%Q).
  { apply Qle_lt_trans with (y := x); [exact Lx|].
    apply Qle_lt_trans with (y := y); assumption. }
  apply pow2_lt_inv in H. lia.
Qed.

Lemma round_mag_mono (x y : Q) :
  (0 < x)%Q -> (x <= y)%Q -> (Binary64.round_mag x <= Binary64.round_mag y)%Q.
Proof.
  intros Hx Hxy. unfold Binary64.round_mag, Binary64.ulp_exp.
  pose proof (ilog2_mono x y Hx Hxy) as He.
  assert (Hy : (0 < y)%Q) by exact (Qlt_le_trans _ _ _ Hx Hxy).
  destruct (ilog2_spec x Hx) as [_ Ux].
  destruct (ilog2_spec y Hy) as [Ly _].
  set (ex := Binary64.ilog2 x) in *. set (ey := Binary64.ilog2 y) in *.
  destruct (Z.eq_dec (Z.max (ex - 52) (-1074)) (Z.max (ey - 52) (-1074))) as [E|Hne].
  - rewrite E. apply on_grid_mono, Hxy.
  - assert (Hlt : ex < ey) by lia.
    assert (Huy : Z.max (ey - 52) (-1074) = ey - 52) by lia.
    rewrite Huy. 
    apply Qle_trans with (y := Binary64.pow2 ey).
    + rewrite <- (on_grid_pow2 (Z.max (ex - 52) (-1074)) ey) by lia.
      apply on_grid_mono. apply Qle_trans with (y := Binary64.pow2 (ex + 1)).
      * apply Qlt_le_weak, Ux.
      * apply pow2_le. lia.
    + rewrite <- (on_grid_pow2 (ey - 52) ey) at 1 by lia.
      apply on_grid_mono, Ly.
Qed.

Lemma round_mag_nonneg (x : Q) : (0 <= x)%Q -> (0 <= Binary64.round_mag x)%Q.
Proof. intros H. apply on_grid_nonneg, H. Qed.

Lemma Qnum_pos (x : Q) (p : positive) : Qnum x = Zpos p -> (0 < x)%Q.
Proof. intros H. unfold Qlt. cbn. lia. Qed.

Lemma Qnum_neg (x : Q) (p : positive) : Qnum x = Zneg p -> (0 < - x)%Q.
Proof. intros H. unfold Qlt, Qopp. cbn. lia. Qed.

Lemma round64_pos (x : Q) :
  (0 < x)%Q -> Binary64.round64 x = Binary64.round_mag x.
Proof.
  intros H. unfold Binary64.round64. unfold Qlt in H. cbn in H.
  destruct (Qnum x); try lia. reflexivity.
Qed.

Lemma round64_neg (x : Q) :
  (x < 0)%Q -> Binary64.round64 x = Qopp (Binary64.round_mag (Qopp x)).
Proof.
  intros H. unfold Binary64.round64. unfold Qlt in H. cbn in H.
  destruct (Qnum x); try lia. reflexivity.
Qed.

Lemma round64_zero (x : Q) : (x == 0)%Q -> Binary64.round64 x = 0%Q.
Proof.
  intros H. unfold Binary64.round64. unfold Qeq in H. cbn in H.
  destruct (Qnum x); try lia. reflexivity.
Qed.

Lemma round64_sign (x : Q) :
  ((0 <= x)%Q -> (0 <= Binary64.round64 x)%Q)
  /\ ((x <= 0)%Q -> (Binary64.round64 x <= 0)%Q).
Proof.
  destruct (Q_dec x 0) as [[Hn|Hp]|Hz].
  - rewrite (round64_neg x Hn). split.
    + intros H. exfalso. exact (Qlt_not_le _ _ Hn H).
    + intros _. change 0%Q with (Qopp 0). apply Qopp_le_compat.
      apply round_mag_nonneg. change 0%Q with (Qopp 0). apply Qopp_le_compat.
      apply Qlt_le_weak, Hn.
  - rewrite (round64_pos x Hp). split.
    + intros _. apply round_mag_nonneg, Qlt_le_weak, Hp.
    + intros H. exfalso. exact (Qlt_not_le _ _ Hp H).
  - rewrite (round64_zero x Hz). split; intros _; apply Qle_refl.
Qed.

Lemma round64_mono (x y : Q) : (x <= y)%Q -> (Binary64.round64 x <= Binary64.round64 y)%Q.
Proof.
  intros H.
  destruct (Qlt_le_dec 0 x) as [Hx|Hx].
  - rewrite (round64_pos x Hx), (round64_pos y (Qlt_le_trans _ _ _ Hx H)).
    apply round_mag_mono; assumption.
  - destruct (Qlt_le_dec y 0) as [Hy|Hy].
    + rewrite (round64_neg y Hy), (round64_neg x (Qle_lt_trans _ _ _ H Hy)).
      apply Qopp_le_compat, round_mag_mono.
      * change 0%Q with (Qopp 0). apply Qopp_lt_compat, Hy.
      * apply Qopp_le_compat, H.
    + apply Qle_trans with (y := 0%Q).
      * apply (proj2 (round64_sign x)), Hx.
      * apply (proj1 (round64_sign y)), Hy.
Qed.

Lemma binary64_law : rounding_law Binary64.binary64.
Proof.
  split; cbn [rnd Binary64.binary64].
  - exact round64_mono.
  - reflexivity.
  - vm_compute. reflexivity.
  - vm_compute. reflexivity.
Qed.

(** The doubles nearest to 1/10, to 5/100 and to 1/3, and a tie that goes
    to the even neighbour. *)
Example round64_values :
  (Binary64.round64 (1 # 10) == 3602879701896397 # 36028797018963968)%Q
  /\ (Binary64.round64 (5 # 100) == 3602879701896397 # 72057594037927936)%Q
  /\ (Binary64.round64 (1 # 3) == 6004799503160661 # 18014398509481984)%Q
  /\ (Binary64.round64 (inject_Z (2 ^ 53 + 1)) == inject_Z (2 ^ 53))%Q.
Proof. repeat split; vm_compute; reflexivity. Qed.

Section RoundingFacts.

Context (F : Rounding) (law : rounding_law F).

Lemma rnd_nonneg (x : Q) : (0 <= x)%Q -> (0 <= rnd x)%Q.
Proof.
  intros H. rewrite <- (rnd_0 F law). apply (rnd_monotone F law), H.
Qed.

Lemma rnd_ge_half (x : Q) : ((1 # 2) <= x)%Q -> ((1 # 2) <= rnd x)%Q.
Proof.
  intros H. rewrite <- (rnd_half F law) at 1. apply (rnd_monotone F law), H.
Qed.

Lemma rnd_lt_half (x : Q) :
  (x <= (1 # 2) - (1 # 2 ^ 54))%Q -> (rnd x < 1 # 2)%Q.
Proof.
  intros H. apply Qle_lt_trans with (y := ((1 # 2) - (1 # 2 ^ 54))%Q).
  - rewrite <- (rnd_below_half F law). apply (rnd_monotone F law), H.
  - reflexivity.
Qed.

End RoundingFacts.

(** ** StatisticsEngine: the majority vector *)

Lemma nth_map_seq {A : Type} (f : nat -> A) (L i : nat) (d : A) :
  (i < L)%nat -> nth i (map f (seq 0 L)) d = f i.
Proof.
  intros H. rewrite (nth_indep _ d (f O)) by (rewrite length_map, length_seq; exact H).
  rewrite (map_nth f (seq 0 L) O i), seq_nth by exact H. reflexivity.
Qed.

Lemma forallb_length_eq (rest : list (list Z)) (L : nat) :
  Forall (fun s => length s = L) rest ->
  forallb (fun r => Nat.eqb (length r) L) rest = true.
Proof.
  intros H. apply forallb_forall. intros r Hr.
  rewrite Forall_forall in H. apply Nat.eqb_eq. exact (H r Hr).
Qed.

(** On a non-empty cohort of rows of one length, the mean along axis 0 is
    the vector of the column sums over the number of rows. *)
Lemma mean_axis0_rect (F : Rounding) (samples : list (list Z)) (L : nat) :
  samples <> [] -> Forall (fun s => length s = L) samples ->
  Stats.mean_axis0 samples
  = Stats.Mean1 (map (fun i => rnd (inject_Z (Stats.np_sum (Stats.column samples i))
                                    / inject_Z (Z.of_nat (length samples))))
                     (seq 0 L)).
Proof.
  intros Hne Hall. destruct samples as [|s rest]; [contradiction|].
  inversion Hall as [|? ? Hs Hrest]; subst.
  unfold Stats.mean_axis0. now rewrite forallb_length_eq.
Qed.

Lemma half_le_div (s : Z) (n : nat) :
  (0 < n)%nat ->
  ((1 # 2) <= inject_Z s / inject_Z (Z.of_nat n))%Q <-> Z.of_nat n <= 2 * s.
Proof.
  intros Hn. destruct n as [|n]; [lia|].
  unfold Qle, Qdiv, Qmult, Qinv, inject_Z. cbn [Qnum Qden Z.of_nat].
  rewrite !Z.mul_1_r. cbn [Qnum Qden]. lia.
Qed.

(** Below one half, a ratio of fewer than 2^53 parts is below the last
    double before one half. *)
Lemma below_half_div (s : Z) (n : nat) :
  (0 < n)%nat -> Z.of_nat n <= 2 ^ 53 -> 2 * s < Z.of_nat n ->
  (inject_Z s / inject_Z (Z.of_nat n) <= (1 # 2) - (1 # 2 ^ 54))%Q.
Proof.
  intros Hn Hb Hs. destruct n as [|n]; [lia|].
  unfold Qle, Qdiv, Qmult, Qinv, Qminus, Qplus, Qopp, inject_Z.
  cbn [Qnum Qden Z.of_nat]. rewrite !Z.mul_1_r. cbn [Qnum Qden].
  assert (Hn' : Z.of_nat (S n) = Z.pos (Pos.of_succ_nat n)) by reflexivity.
  rewrite Hn' in *. rewrite !Pos2Z.inj_mul. cbn [Z.pow_pos] in *.
  change (Z.pos (2 ^ 54)) with (2 ^ 54).
  change (Z.pos 2) with 2. lia.
Qed.

Lemma ge_half_1 (m : Q) : Stats.ge_half m = 1 <-> ((1 # 2) <= m)%Q.
Proof.
  unfold Stats.ge_half. rewrite <- Qle_bool_iff.
  destruct (Qle_bool (1 # 2) m); split; intros H; try reflexivity; discriminate H.
Qed.

Lemma ge_half_bit (m : Q) : is_bit (Stats.ge_half m).
Proof. unfold Stats.ge_half, is_bit. destruct (Qle_bool (1 # 2) m); auto. Qed.

(** C3: on a non-empty cohort of sequences of one length [L], the
    fingerprint (the majority vector) has length [L] and its bit at position
    [i] is 1 exactly when the 1-rate of column [i] is at least 1/2; a rate
    of exactly 1/2 gives the bit 1. The rate is the double nearest to the
    share of the members that hold a 1: the bit is 1 when at least half of
    them do, and, for fewer than 2^53 members, only then. *)
Theorem compute_fingerprint_majority (F : Rounding) (law : rounding_law F)
    (samples : list (list Z)) (L : nat) :
  samples <> [] -> Forall (fun s => length s = L) samples ->
  exists per_bit_mean fingerprint,
    Stats.mean_axis0 samples = Stats.Mean1 per_bit_mean
    /\ Stats.compute_fingerprint samples = Ok (Stats.Arr1 fingerprint)
    /\ length per_bit_mean = L /\ length fingerprint = L
    /\ forall i, (i < L)%nat ->
         let ones := Stats.np_sum (Stats.column samples i) in
         let n := Z.of_nat (length samples) in
         nth i per_bit_mean 0%Q = rnd (inject_Z ones / inject_Z n)
         /\ is_bit (nth i fingerprint 0)
         /\ (nth i fingerprint 0 = 1 <-> ((1 # 2) <= nth i per_bit_mean 0%Q)%Q)
         /\ ((nth i per_bit_mean 0%Q == 1 # 2)%Q -> nth i fingerprint 0 = 1)
         /\ (n <= 2 * ones -> nth i fingerprint 0 = 1)
         /\ (n <= 2 ^ 53 -> nth i fingerprint 0 = 1 -> n <= 2 * ones).
Proof.
  intros Hne Hall.
  pose proof (mean_axis0_rect F samples L Hne Hall) as Hm.
  eexists. eexists. split; [exact Hm|].
  unfold Stats.compute_fingerprint. rewrite Hm.
  split; [reflexivity|].
  split; [now rewrite length_map, length_seq|].
  split; [now rewrite !length_map, length_seq|].
  intros i Hi. cbv zeta.
  set (ones := Stats.np_sum (Stats.column samples i)).
  set (n := Z.of_nat (length samples)).
  match goal with |- context [nth i (map Stats.ge_half ?r) 0] =>
    assert (E : nth i (map Stats.ge_half r) 0 = Stats.ge_half (nth i r 0%Q))
      by exact (map_nth Stats.ge_half r 0%Q i)
  end.
  rewrite E. rewrite nth_map_seq by exact Hi. fold ones. fold n.
  assert (Hn : (0 < length samples)%nat)
    by (destruct samples; [contradiction|simpl; lia]).
  split; [reflexivity|]. split; [apply ge_half_bit|].
  split; [apply ge_half_1|].
  split; [intros Heq; apply ge_half_1; rewrite Heq; apply Qle_refl|].
  split.
  - intros H. apply ge_half_1, (rnd_ge_half F law), half_le_div; assumption.
  - intros Hb H1. apply ge_half_1 in H1.
    destruct (Z.le_gt_cases n (2 * ones)) as [Hle|Hgt]; [exact Hle|].
    exfalso. apply (Qlt_not_le _ _ (rnd_lt_half F law _
      (below_half_div ones (length samples) Hn Hb Hgt))). exact H1.
Qed.

Lemma compute_fingerprint_majority_witness :
  exists per_bit_mean fingerprint,
    Stats.mean_axis0 (F := Binary64.binary64) [[1; 0]; [0; 0]] = Stats.Mean1 per_bit_mean
    /\ Stats.compute_fingerprint (F := Binary64.binary64) [[1; 0]; [0; 0]]
       = Ok (Stats.Arr1 fingerprint)
    /\ length per_bit_mean = 2%nat /\ length fingerprint = 2%nat
    /\ forall i, (i < 2)%nat ->
         let ones := Stats.np_sum (Stats.column [[1; 0]; [0; 0]] i) in
         let n := Z.of_nat (length [[1; 0]; [0; 0]]) in
         nth i per_bit_mean 0%Q = Binary64.round64 (inject_Z ones / inject_Z n)
         /\ is_bit (nth i fingerprint 0)
         /\ (nth i fingerprint 0 = 1 <-> ((1 # 2) <= nth i per_bit_mean 0%Q)%Q)
         /\ ((nth i per_bit_mean 0%Q == 1 # 2)%Q -> nth i fingerprint 0 = 1)
         /\ (n <= 2 * ones -> nth i fingerprint 0 = 1)
         /\ (n <= 2 ^ 53 -> nth i fingerprint 0 = 1 -> n <= 2 * ones).
Proof.
  apply (compute_fingerprint_majority Binary64.binary64 binary64_law
           [[1; 0]; [0; 0]] 2).
  - discriminate.
  - repeat constructor.
Defined.

(** A tie: two members, one holding 1 and one holding 0. *)
Example compute_fingerprint_tie :
  Stats.compute_fingerprint (F := Binary64.binary64) [[1; 0]; [0; 0]]
  = Ok (Stats.Arr1 [1; 0]).
Proof. vm_compute. reflexivity. Qed.

(** ** DistanceEngine *)

Lemma neq_sym x y : Distance.neq (x, y) = Distance.neq (y, x).
Proof. unfold Distance.neq. cbn [fst snd]. now rewrite Z.eqb_sym. Qed.

Lemma count_neq_comm (a b : list Z) : Distance.count_neq a b = Distance.count_neq b a.
Proof.
  unfold Distance.count_neq. revert b.
  induction a as [|x a IH]; intros [|y b]; try reflexivity.
  cbn [combine map Stats.np_sum fold_right].
  fold (Stats.np_sum (map Distance.neq (combine a b))).
  fold (Stats.np_sum (map Distance.neq (combine b a))).
  now rewrite neq_sym, IH.
Qed.

Lemma hamming_distance_comm (F : Rounding) (a b : list Z) :
  Distance.hamming_distance a b = Distance.hamming_distance b a.
Proof.
  unfold Distance.hamming_distance.
  now rewrite Nat.min_comm, count_neq_comm.
Qed.

Lemma guarded_hamming_distance_comm (F : Rounding) (a b : list Z) :
  UnstableBits.hamming_distance a b = UnstableBits.hamming_distance b a.
Proof.
  unfold UnstableBits.hamming_distance.
  now rewrite Nat.min_comm, count_neq_comm.
Qed.

Lemma np_divide_pos (F : Rounding) (s : Q) (n : nat) :
  (0 < n)%nat -> Stats.np_divide s n = Num (rnd (s / inject_Z (Z.of_nat n))).
Proof. destruct n; [lia|reflexivity]. Qed.

(** C8: for two non-empty bit sequences of one length, the distance from
    [a] to [b] is a number, the double nearest to the count of differing
    positions over the length, and it is the distance from [b] to [a]. *)
Theorem hamming_distance_symmetric (F : Rounding) (a b : list Z) :
  length a = length b -> a <> [] ->
  Distance.hamming_distance a b = Distance.hamming_distance b a
  /\ Distance.hamming_distance a b
     = Num (rnd (inject_Z (Distance.count_neq a b) / inject_Z (Z.of_nat (length a)))).
Proof.
  intros Hlen Hne. split; [apply hamming_distance_comm|].
  unfold Distance.hamming_distance. rewrite <- Hlen, Nat.min_id.
  rewrite firstn_all. rewrite Hlen at 1. rewrite firstn_all.
  apply np_divide_pos. destruct a; [contradiction|simpl; lia].
Qed.

Lemma hamming_distance_symmetric_witness :
  Distance.hamming_distance (F := Binary64.binary64) [1; 0; 1; 1] [0; 0; 1; 0]
  = Distance.hamming_distance (F := Binary64.binary64) [0; 0; 1; 0] [1; 0; 1; 1]
  /\ Distance.hamming_distance (F := Binary64.binary64) [1; 0; 1; 1] [0; 0; 1; 0]
     = Num (Binary64.round64
              (inject_Z (Distance.count_neq [1; 0; 1; 1] [0; 0; 1; 0])
               / inject_Z (Z.of_nat (length [1; 0; 1; 1]%Z)))).
Proof.
  apply (hamming_distance_symmetric Binary64.binary64 [1; 0; 1; 1] [0; 0; 1; 0]).
  - reflexivity.
  - discriminate.
Defined.

(** C2, counterexample: that the distance of two empty sequences is never
    0 fails on the guarded [hamming_distance], which returns the number 0. *)
Lemma guarded_hamming_distance_empty_is_zero :
  UnstableBits.hamming_distance (F := Binary64.binary64) [] [] = Num 0
  /\ UnstableBits.hamming_distance (F := Binary64.binary64) [] [] <> NaN
  /\ UnstableBits.hamming_distance (F := Binary64.binary64) [] [] <> Inf.
Proof. repeat split; discriminate. Qed.

(** C2, as the code has it: when one of the two sequences is empty (and so
    when both are) nothing is raised; the guarded [hamming_distance] of
    [puf_unstable_bits.py] returns 0 and the unguarded one of the other
    scripts returns [nan], the value of numpy's 0/0, which is not 0. *)
Theorem hamming_distance_empty (F : Rounding) (b : list Z) :
  UnstableBits.hamming_distance [] b = Num 0
  /\ UnstableBits.hamming_distance b [] = Num 0
  /\ Distance.hamming_distance [] b = NaN
  /\ Distance.hamming_distance b [] = NaN.
Proof.
  assert (G : UnstableBits.hamming_distance [] b = Num 0) by reflexivity.
  assert (D : Distance.hamming_distance [] b = NaN) by reflexivity.
  split; [exact G|].
  split; [rewrite guarded_hamming_distance_comm; exact G|].
  split; [exact D|].
  rewrite hamming_distance_comm. exact D.
Qed.

(** *** Pairs *)

Lemma combinations2_length_twice {A : Type} (l : list A) :
  (2 * length (Distance.combinations2 l) = length l * (length l - 1))%nat.
Proof.
  induction l as [|x r IH]; [reflexivity|].
  cbn [Distance.combinations2 length]. rewrite length_app, length_map.
  destruct r as [|y r]; [reflexivity|]. cbn [length] in *. nia.
Qed.

Lemma combinations2_length {A : Type} (l : list A) :
  length (Distance.combinations2 l) = (length l * (length l - 1) / 2)%nat.
Proof.
  rewrite <- combinations2_length_twice, Nat.mul_comm. symmetry.
  apply Nat.div_mul. discriminate.
Qed.

Lemma combinations2_In {A : Type} (l : list A) (x y : A) :
  In (x, y) (Distance.combinations2 l) -> In x l /\ In y l.
Proof.
  induction l as [|z r IH]; [intros []|].
  cbn [Distance.combinations2]. intros H. apply in_app_or in H.
  destruct H as [H|H].
  - apply in_map_iff in H. destruct H as [w [E Hw]]. injection E as <- <-.
    split; [now left|now right].
  - destruct (IH H). split; now right.
Qed.

Lemma combinations2_NoDup {A : Type} (l : list A) :
  NoDup l -> NoDup (Distance.combinations2 l).
Proof.
  induction 1 as [|x r Hx Hr IH]; [constructor|].
  cbn [Distance.combinations2]. apply NoDup_app.
  - apply Injective_map_NoDup; [|exact Hr].
    intros a b E. now injection E.
  - exact IH.
  - intros [a b] Hin Hin'. apply in_map_iff in Hin.
    destruct Hin as [w [E _]]. injection E as <- <-.
    apply combinations2_In in Hin'. now destruct Hin'.
Qed.

Lemma combinations2_seq (a n i j : nat) :
  In (i, j) (Distance.combinations2 (seq a n)) <-> (a <= i /\ i < j /\ j < a + n)%nat.
Proof.
  revert a. induction n as [|n IH]; intros a.
  - cbn. lia.
  - cbn [seq Distance.combinations2]. rewrite in_app_iff, IH, in_map_iff.
    split.
    + intros [[w [E Hw]]|H]; [|lia].
      injection E as <- <-. apply in_seq in Hw. lia.
    + intros H. destruct (Nat.eq_dec i a) as [->|Hne]; [|right; lia].
      left. exists j. split; [reflexivity|]. apply in_seq. lia.
Qed.

Lemma compute_inter_hd_length (F : Rounding) (samples1 samples2 : list (list Z)) :
  length (Distance.compute_inter_hd samples1 samples2)
  = (length samples1 * length samples2)%nat.
Proof.
  unfold Distance.compute_inter_hd.
  induction samples1 as [|s r IH]; [reflexivity|].
  cbn [flat_map length]. now rewrite length_app, length_map, IH.
Qed.

(** C6: on a cohort of [n] members [compute_intra_hd] returns
    [n (n - 1) / 2] distances, one for every pair of positions [i < j < n],
    each pair once; on cohorts of [m] and [n] members [compute_inter_hd]
    returns [m * n] distances, the one of the [k]-th member of the first
    and the [l]-th member of the second at position [k * n + l]. *)
Theorem distance_counts (F : Rounding) (samples samples1 samples2 : list (list Z)) :
  let pairs := Distance.combinations2 (seq 0 (length samples)) in
  length (Distance.compute_intra_hd samples)
  = (length samples * (length samples - 1) / 2)%nat
  /\ Distance.compute_intra_hd samples
     = map (fun ij => Distance.hamming_distance (nth (fst ij) samples [])
                                                (nth (snd ij) samples [])) pairs
  /\ NoDup pairs
  /\ (forall i j, In (i, j) pairs <-> (i < j /\ j < length samples)%nat)
  /\ length (Distance.compute_inter_hd samples1 samples2)
     = (length samples1 * length samples2)%nat
  /\ (forall k l, (k < length samples1)%nat -> (l < length samples2)%nat ->
        nth (k * length samples2 + l) (Distance.compute_inter_hd samples1 samples2) NaN
        = Distance.hamming_distance (nth k samples1 []) (nth l samples2 [])).
Proof.
  intros pairs. subst pairs. unfold Distance.compute_intra_hd.
  split; [now rewrite length_map, combinations2_length, length_seq|].
  split; [reflexivity|].
  split; [apply combinations2_NoDup, seq_NoDup|].
  split; [intros i j; rewrite combinations2_seq; lia|].
  split; [apply compute_inter_hd_length|].
  unfold Distance.compute_inter_hd.
  induction samples1 as [|s r IH]; intros k l Hk Hl; [cbn in Hk; lia|].
  cbn [flat_map]. destruct k as [|k].
  - cbn [Nat.mul Nat.add nth]. rewrite app_nth1 by (now rewrite length_map).
    rewrite (nth_indep _ NaN (Distance.hamming_distance s []))
      by (now rewrite length_map).
    apply (map_nth (fun s2 => Distance.hamming_distance s s2)).
  - rewrite app_nth2 by (rewrite length_map; cbn; lia).
    rewrite length_map. cbn [nth].
    replace (S k * length samples2 + l - length samples2)%nat
      with (k * length samples2 + l)%nat by (cbn; lia).
    apply IH; [cbn in Hk; lia|exact Hl].
Qed.

(** ** DebiasEngine: applying the mask *)

Lemma mapM_total {A B : Type} (f : A -> result B) (g : A -> B) (l : list A) :
  Forall (fun x => f x = Ok (g x)) l -> Debias.mapM f l = Ok (map g l).
Proof.
  induction 1 as [|x r Hx _ IH]; [reflexivity|].
  cbn [Debias.mapM map]. rewrite Hx, IH. reflexivity.
Qed.

Lemma nth_xor_combine (a b : list Z) (i : nat) :
  (i < length a)%nat -> (i < length b)%nat ->
  nth i (map (fun p => Z.lxor (fst p) (snd p)) (combine a b)) 0
  = Z.lxor (nth i a 0) (nth i b 0).
Proof.
  revert b i. induction a as [|x a IH]; intros [|y b] [|i] Ha Hb;
    cbn in Ha, Hb; try lia; cbn [combine map nth fst snd]; [reflexivity|].
  apply IH; lia.
Qed.

(** One sample, no longer than the mask: the slice of the mask has the
    length of the sample and the XOR is taken element by element. *)
Lemma bitwise_xor_slice (s mask : list Z) :
  (length s <= length mask)%nat ->
  Debias.bitwise_xor s (firstn (length s) mask)
  = Ok (map (fun p => Z.lxor (fst p) (snd p)) (combine s (firstn (length s) mask))).
Proof.
  intros H. unfold Debias.bitwise_xor.
  rewrite length_firstn, Nat.min_l by exact H. now rewrite Nat.eqb_refl.
Qed.

(** C10: when no sample is longer than the mask, [apply_xor_mask] returns
    one sequence for every sample, of the length of the sample, equal to the
    sample wherever the mask holds 0 and holding the other bit wherever the
    mask holds 1. *)
Theorem apply_xor_mask_frame (samples : list (list Z)) (mask : list Z) :
  Forall (fun s => (length s <= length mask)%nat) samples ->
  exists debiased,
    Debias.apply_xor_mask samples mask = Ok debiased
    /\ length debiased = length samples
    /\ forall k, (k < length samples)%nat ->
         let s := nth k samples [] in
         let out := nth k debiased [] in
         length out = length s
         /\ forall i, (i < length s)%nat ->
              nth i out 0 = Z.lxor (nth i s 0) (nth i mask 0)
              /\ (nth i mask 0 = 0 -> nth i out 0 = nth i s 0)
              /\ (nth i mask 0 = 1 -> is_bit (nth i s 0) ->
                  nth i out 0 = 1 - nth i s 0).
Proof.
  intros Hall.
  set (xor_row := fun s : list Z =>
         map (fun p => Z.lxor (fst p) (snd p)) (combine s (firstn (length s) mask))).
  exists (map xor_row samples).
  split.
  { unfold Debias.apply_xor_mask. apply mapM_total.
    apply Forall_forall. intros s Hs. rewrite Forall_forall in Hall.
    apply bitwise_xor_slice, Hall, Hs. }
  split; [apply length_map|].
  intros k Hk s out.
  assert (Hout : out = xor_row s).
  { subst out s. rewrite (nth_indep _ [] (xor_row [])) by (now rewrite length_map).
    apply (map_nth xor_row). }
  assert (Hs : (length s <= length mask)%nat).
  { rewrite Forall_forall in Hall. apply Hall. subst s. now apply nth_In. }
  rewrite Hout. unfold xor_row.
  split.
  { rewrite length_map, length_combine, length_firstn. lia. }
  intros i Hi.
  assert (E : nth i (map (fun p => Z.lxor (fst p) (snd p))
                         (combine s (firstn (length s) mask))) 0
              = Z.lxor (nth i s 0) (nth i mask 0)).
  { rewrite nth_xor_combine by (rewrite ?length_firstn; lia).
    rewrite nth_firstn. apply Nat.ltb_lt in Hi. now rewrite Hi. }
  rewrite E. split; [reflexivity|]. split.
  - intros ->. apply Z.lxor_0_r.
  - intros -> [->| ->]; reflexivity.
Qed.

Lemma apply_xor_mask_frame_witness :
  exists debiased,
    Debias.apply_xor_mask [[1; 0; 1]; [0; 0]] [0; 1; 1; 0] = Ok debiased
    /\ length debiased = length [[1; 0; 1]; [0; 0]]
    /\ forall k, (k < length [[1; 0; 1]; [0; 0]])%nat ->
         let s := nth k [[1; 0; 1]; [0; 0]] [] in
         let out := nth k debiased [] in
         length out = length s
         /\ forall i, (i < length s)%nat ->
              nth i out 0 = Z.lxor (nth i s 0) (nth i [0; 1; 1; 0] 0)
              /\ (nth i [0; 1; 1; 0] 0 = 0 -> nth i out 0 = nth i s 0)
              /\ (nth i [0; 1; 1; 0] 0 = 1 -> is_bit (nth i s 0) ->
                  nth i out 0 = 1 - nth i s 0).
Proof.
  apply (apply_xor_mask_frame [[1; 0; 1]; [0; 0]] [0; 1; 1; 0]).
  repeat constructor.
Defined.

Example apply_xor_mask_run :
  Debias.apply_xor_mask [[1; 0; 1]; [0; 0]] [0; 1; 1; 0] = Ok [[1; 1; 0]; [0; 1]].
Proof. reflexivity. Qed.


(** ** DebiasEngine: building the mask *)

(** C7: [create_xor_mask] returns the same result, mask or exception,
    whatever the state of the global generator when it is called: the
    positions are drawn after [np.random.seed(42)], from the state that this
    seed fixes and from the cohort alone; when a mask is returned the
    generator is also left in the same state. *)
Theorem create_xor_mask_deterministic (R : Debias.RandomState) (F : Rounding)
    (samples : list (list Z)) (g1 g2 : Debias.rng) :
  fst (Debias.create_xor_mask samples g1) = fst (Debias.create_xor_mask samples g2)
  /\ (forall mask, fst (Debias.create_xor_mask samples g1) = Ok mask ->
        Debias.create_xor_mask samples g1 = Debias.create_xor_mask samples g2).
Proof.
  unfold Debias.create_xor_mask.
  destruct (Stats.mean_axis0 samples) as [| |m]; cbn [fst];
    [split; [reflexivity|discriminate] ..|].
  destruct (Debias.flip_budget m) as [b|e]; cbn [fst];
    [|split; [reflexivity|discriminate]].
  destruct (Debias.choice _ _ (Debias.seed 42)) as [[idx|e] g']; cbn [fst];
    split; reflexivity || discriminate || auto.
Qed.

Lemma Qltb_lt (x y : Q) : Stats.Qltb x y = true <-> (x < y)%Q.
Proof.
  unfold Stats.Qltb. rewrite negb_true_iff. split.
  - intros H. apply Qnot_le_lt. intros Hle.
    apply Qle_bool_iff in Hle. congruence.
  - intros H. destruct (Qle_bool y x) eqn:E; [|reflexivity].
    apply Qle_bool_iff in E. exfalso. exact (Qlt_not_le _ _ H E).
Qed.

Lemma where_true_In (m : list bool) (i : nat) :
  In i (Debias.where_true m) <-> (i < length m)%nat /\ nth i m false = true.
Proof.
  unfold Debias.where_true. rewrite filter_In, in_seq. intuition lia.
Qed.

Lemma where_true_NoDup (m : list bool) : NoDup (Debias.where_true m).
Proof. apply NoDup_filter, seq_NoDup. Qed.

Lemma stable_zero_In (F : Rounding) (rates : list Q) (i : nat) :
  In i (Debias.where_true (Debias.stable_zero_positions rates))
  <-> (i < length rates)%nat /\ (nth i rates 0 < rnd (5 # 100))%Q.
Proof.
  rewrite where_true_In. unfold Debias.stable_zero_positions.
  rewrite length_map. split; intros [Hi H]; (split; [exact Hi|]).
  - apply Qltb_lt. rewrite <- H.
    rewrite (nth_indep _ false (Stats.Qltb 0 (rnd (5 # 100)))) by (now rewrite length_map).
    symmetry. apply (map_nth (fun m => Stats.Qltb m (rnd (5 # 100)))).
  - rewrite (nth_indep _ false (Stats.Qltb 0 (rnd (5 # 100)))) by (now rewrite length_map).
    rewrite (map_nth (fun m => Stats.Qltb m (rnd (5 # 100)))). now apply Qltb_lt.
Qed.

(** *** Indexed assignment *)

Lemma set_at_length i v m : length (Debias.set_at i v m) = length m.
Proof.
  revert i. induction m as [|x m IH]; intros [|i]; cbn; try reflexivity.
  now rewrite IH.
Qed.

Lemma set_at_nth i v m j :
  nth j (Debias.set_at i v m) 0
  = if Nat.eqb j i && Nat.ltb i (length m) then v else nth j m 0.
Proof.
  revert i j. induction m as [|x m IH]; intros [|i] [|j];
    cbn [Debias.set_at nth length]; try reflexivity.
  - destruct (Nat.eqb (S j) (S i)); reflexivity.
  - rewrite IH. reflexivity.
Qed.

Lemma assign_length idx v m : length (Debias.assign idx v m) = length m.
Proof.
  unfold Debias.assign. revert m.
  induction idx as [|i idx IH]; intros m; [reflexivity|].
  cbn [fold_left]. now rewrite IH, set_at_length.
Qed.

Lemma assign_nth_in idx m j :
  In j idx -> (j < length m)%nat -> nth j (Debias.assign idx 1 m) 0 = 1.
Proof.
  unfold Debias.assign. revert m.
  induction idx as [|i idx IH]; intros m Hin Hj; [destruct Hin|].
  cbn [fold_left]. destruct (in_dec Nat.eq_dec j idx) as [Hin'|Hnin].
  - apply IH; [exact Hin'|now rewrite set_at_length].
  - destruct Hin as [->|Hin]; [|contradiction].
    clear IH. revert m Hj.
    induction idx as [|i idx IH]; intros m Hj.
    + cbn [fold_left]. rewrite set_at_nth, Nat.eqb_refl.
      apply Nat.ltb_lt in Hj. now rewrite Hj.
    + cbn [fold_left].
      assert (Hne : j <> i) by (intros ->; apply Hnin; now left).
      assert (Hnin' : ~ In j idx) by (intros H; apply Hnin; now right).
      specialize (IH Hnin').
      (* the two assignments commute *)
      assert (C : Debias.set_at i 1 (Debias.set_at j 1 m)
                  = Debias.set_at j 1 (Debias.set_at i 1 m)).
      { clear -Hne. revert i j Hne.
        induction m as [|x m IHm]; intros [|i] [|j] Hne; cbn;
          try reflexivity; try congruence.
        f_equal. apply IHm. congruence. }
      rewrite C. apply IH. now rewrite set_at_length.
Qed.

Lemma assign_nth_out idx v m j :
  ~ In j idx -> nth j (Debias.assign idx v m) 0 = nth j m 0.
Proof.
  unfold Debias.assign. revert m.
  induction idx as [|i idx IH]; intros m Hnin; [reflexivity|].
  cbn [fold_left]. rewrite IH by (intros H; apply Hnin; now right).
  rewrite set_at_nth.
  destruct (Nat.eqb_spec j i) as [->|Hne]; [exfalso; apply Hnin; now left|].
  reflexivity.
Qed.

(** *** Drawing without replacement *)

Lemma NoDup_firstn {A : Type} (n : nat) (l : list A) : NoDup l -> NoDup (firstn n l).
Proof.
  intros H. rewrite <- (firstn_skipn n l) in H.
  exact (NoDup_app_remove_r _ _ H).
Qed.

Lemma In_firstn {A : Type} (n : nat) (l : list A) (x : A) : In x (firstn n l) -> In x l.
Proof.
  intros H. rewrite <- (firstn_skipn n l). apply in_or_app. now left.
Qed.

Section Choice.

Context (R : Debias.RandomState) (law : Debias.permutation_law R).

Lemma permutation_NoDup n g : NoDup (fst (Debias.permutation n g)).
Proof.
  apply Permutation_NoDup with (l := seq 0 n); [|apply seq_NoDup].
  apply Permutation_sym, law.
Qed.

Lemma permutation_range n g i : In i (fst (Debias.permutation n g)) -> (i < n)%nat.
Proof.
  intros H. apply (Permutation_in _ (law n g)) in H. apply in_seq in H. lia.
Qed.

Lemma permutation_length n g : length (fst (Debias.permutation n g)) = n.
Proof. rewrite (Permutation_length (law n g)). apply length_seq. Qed.

(** With [0 <= size <= len(a)] the draw succeeds and gives [size] distinct
    elements of [a]. *)
Lemma choice_ok (a : list nat) (size : Z) (g : Debias.rng) :
  NoDup a -> 0 <= size <= Z.of_nat (length a) ->
  exists idx g',
    Debias.choice a size g = (Ok idx, g')
    /\ NoDup idx /\ incl idx a /\ length idx = Z.to_nat size.
Proof.
  intros Ha Hsize. unfold Debias.choice.
  destruct (Z.ltb_spec (Z.of_nat (length a)) size) as [H1|_]; [lia|].
  destruct (Z.ltb_spec size 0) as [H2|_]; [lia|]. cbn [orb].
  pose proof (permutation_NoDup (length a) g) as Hnd.
  pose proof (permutation_range (length a) g) as Hr.
  pose proof (permutation_length (length a) g) as Hl.
  destruct (Debias.permutation (length a) g) as [p g']. cbn [fst] in *.
  eexists. eexists. split; [reflexivity|]. split; [|split].
  - apply Injective_map_NoDup_in; [|apply NoDup_firstn, Hnd].
    intros x y Hx Hy E. apply In_firstn, Hr in Hx. apply In_firstn, Hr in Hy.
    exact (proj1 (NoDup_nth a O) Ha x y Hx Hy E).
  - intros x Hx. apply in_map_iff in Hx. destruct Hx as [i [<- Hi]].
    apply nth_In, Hr. exact (In_firstn _ _ _ Hi).
  - rewrite length_map, length_firstn, Hl. lia.
Qed.

(** A negative [size] raises. *)
Lemma choice_negative (a : list nat) (size : Z) (g : Debias.rng) :
  size < 0 -> Debias.choice a size g = (Raise ValueError, g).
Proof.
  intros H. unfold Debias.choice.
  apply Z.ltb_lt in H. rewrite H. now rewrite orb_true_r.
Qed.

End Choice.

(** *** Counting the set bits *)

Lemma filter_map_length {A B : Type} (f : B -> bool) (h : A -> B) (l : list A) :
  length (filter f (map h l)) = length (filter (fun a => f (h a)) l).
Proof.
  induction l as [|x l IH]; [reflexivity|].
  cbn [map filter]. destruct (f (h x)); cbn [length]; now rewrite IH.
Qed.

Lemma filter_positions (f : Z -> bool) (m : list Z) :
  length (filter f m)
  = length (filter (fun i => f (nth i m 0)) (seq 0 (length m))).
Proof.
  induction m as [|x m IH]; [reflexivity|].
  cbn [length seq filter nth]. rewrite <- seq_shift.
  destruct (f x); cbn [length]; rewrite filter_map_length; cbn [nth]; now rewrite IH.
Qed.

Lemma popcount_assign (idx : list nat) (L : nat) :
  NoDup idx -> (forall i, In i idx -> (i < L)%nat) ->
  Debias.popcount (Debias.assign idx 1 (repeat 0 L)) = length idx.
Proof.
  intros Hnd Hr. unfold Debias.popcount.
  rewrite filter_positions, assign_length, repeat_length.
  apply Permutation_length, NoDup_Permutation;
    [apply NoDup_filter, seq_NoDup|exact Hnd|].
  intros i. rewrite filter_In, in_seq. split.
  - intros [_ H]. apply Z.eqb_eq in H.
    destruct (in_dec Nat.eq_dec i idx) as [Hin|Hnin]; [exact Hin|].
    rewrite assign_nth_out in H by exact Hnin.
    rewrite nth_repeat in H. discriminate H.
  - intros Hin. split; [specialize (Hr i Hin); lia|].
    apply Z.eqb_eq, assign_nth_in; [exact Hin|].
    rewrite repeat_length. exact (Hr i Hin).
Qed.

(** *** The Mersenne Twister instance *)

Example mt19937_seed_42 :
  fst (MT19937.rk_permutation 10 (MT19937.mt19937_seed 42)) = [8; 1; 5; 0; 7; 2; 9; 4; 3; 6]%nat.
Proof. vm_compute. reflexivity. Qed.

Lemma list_set_length {A : Type} (i : nat) (v : A) (l : list A) :
  length (MT19937.list_set i v l) = length l.
Proof.
  revert i. induction l as [|x l IH]; intros [|i]; cbn; try reflexivity.
  now rewrite IH.
Qed.

Lemma list_set_nth {A : Type} (i : nat) (v : A) (l : list A) (j : nat) (d : A) :
  (i < length l)%nat ->
  nth j (MT19937.list_set i v l) d = if Nat.eqb j i then v else nth j l d.
Proof.
  revert i j. induction l as [|x l IH]; intros [|i] [|j] H; cbn in H;
    try lia; cbn [MT19937.list_set nth]; try reflexivity.
  rewrite IH by lia. reflexivity.
Qed.

Lemma swap_Permutation (i j : nat) (x : list nat) :
  (i < length x)%nat -> (j < length x)%nat -> Permutation x (MT19937.swap i j x).
Proof.
  intros Hi Hj. apply (Permutation_nth x (MT19937.swap i j x) O). cbv zeta.
  unfold MT19937.swap. split; [now rewrite !list_set_length|].
  exists (fun k => if Nat.eqb k i then j else if Nat.eqb k j then i else k).
  split; [|split].
  - intros k Hk. destruct (Nat.eqb k i); [exact Hj|]. destruct (Nat.eqb k j); assumption.
  - intros a b _ _.
    destruct (Nat.eqb_spec a i), (Nat.eqb_spec b i),
             (Nat.eqb_spec a j), (Nat.eqb_spec b j); congruence.
  - intros k Hk. rewrite !list_set_nth by (rewrite ?list_set_length; assumption).
    destruct (Nat.eqb_spec k i) as [->|]; [reflexivity|].
    destruct (Nat.eqb_spec k j) as [->|]; reflexivity.
Qed.

Lemma search_le (tries : nat) (mask max : Z) (st : MT19937.rk_state) :
  0 <= max -> fst (MT19937.search tries mask max st) <= max.
Proof.
  intros Hmax. revert st. induction tries as [|t IH]; intros st; [exact Hmax|].
  cbn [MT19937.search]. destruct (MT19937.rk_random st) as [r st'].
  destruct (Z.ltb_spec max (Z.land r mask)) as [H|H]; [apply IH|exact H].
Qed.

Lemma rk_interval_le (max : Z) (st : MT19937.rk_state) :
  0 <= max -> fst (MT19937.rk_interval max st) <= max.
Proof.
  intros H. unfold MT19937.rk_interval.
  destruct (max =? 0); [exact H|apply search_le, H].
Qed.

Lemma shuffle_Permutation (i : nat) (x : list nat) (st : MT19937.rk_state) :
  (i < length x)%nat -> Permutation (fst (MT19937.shuffle i x st)) x.
Proof.
  revert x st. induction i as [|i IH]; intros x st Hi; [reflexivity|].
  cbn [MT19937.shuffle].
  pose proof (rk_interval_le (Z.of_nat (S i)) st ltac:(lia)) as Hj.
  destruct (MT19937.rk_interval (Z.of_nat (S i)) st) as [j st']. cbn [fst] in Hj.
  assert (Hs : Permutation x (MT19937.swap (S i) (Z.to_nat j) x))
    by (apply swap_Permutation; lia).
  rewrite IH by (rewrite <- (Permutation_length Hs); lia).
  symmetry. exact Hs.
Qed.

(** The shuffle of numpy's generator is a rearrangement of [range(n)]. *)
Lemma mt19937_law : Debias.permutation_law MT19937.mt19937.
Proof.
  intros n g. cbn [Debias.permutation MT19937.mt19937]. unfold MT19937.rk_permutation.
  destruct n as [|n]; [reflexivity|].
  apply shuffle_Permutation. rewrite length_seq. lia.
Qed.


(** *** The number of positions to flip *)

Lemma py_int_floor (x : Q) :
  (0 <= x)%Q -> Z.quot (Qnum x) (Zpos (Qden x)) = Qfloor x.
Proof.
  destruct x as [n d]. unfold Qle. cbn [Qnum Qden Qfloor]. intros H.
  apply Z.quot_div_nonneg; lia.
Qed.

Lemma flip_budget_num (F : Rounding) (m : list Q) (current_hw : Q) :
  Stats.np_mean m = Num current_hw ->
  Debias.flip_budget m
  = Ok (let x := rnd (rnd ((1 # 2) - current_hw) * inject_Z (Z.of_nat (length m))) in
        Z.quot (Qnum x) (Zpos (Qden x)))%Q.
Proof. intros H. unfold Debias.flip_budget. rewrite H. reflexivity. Qed.

Section MaskProperties.

Context (R : Debias.RandomState) (law : Debias.permutation_law R) (F : Rounding).

(** What [create_xor_mask] does once the per-bit means are known: it
    raises when the budget cannot be computed or is negative, and otherwise
    sets to 1 the drawn positions of an all-zero mask. *)
Lemma create_xor_mask_cases (samples : list (list Z)) (m : list Q) (g : Debias.rng) :
  Stats.mean_axis0 samples = Stats.Mean1 m ->
  let eligible := Debias.where_true (Debias.stable_zero_positions m) in
  match Debias.flip_budget m with
  | Raise e => Debias.create_xor_mask samples g = (Raise e, g)
  | Ok budget =>
      let num_to_flip := Z.min budget (Z.of_nat (length eligible)) in
      (num_to_flip < 0
       /\ Debias.create_xor_mask samples g = (Raise ValueError, Debias.seed 42))
      \/ (0 <= num_to_flip
          /\ exists flip_indices g',
               Debias.create_xor_mask samples g
               = (Ok (Debias.assign flip_indices 1 (repeat 0 (length m))), g')
               /\ NoDup flip_indices /\ incl flip_indices eligible
               /\ length flip_indices = Z.to_nat num_to_flip)
  end.
Proof.
  intros Hm eligible. unfold Debias.create_xor_mask. rewrite Hm.
  destruct (Debias.flip_budget m) as [budget|e]; [|reflexivity].
  cbv zeta. fold eligible.
  set (num_to_flip := Z.min budget (Z.of_nat (length eligible))).
  destruct (Z.lt_ge_cases num_to_flip 0) as [Hneg|Hpos].
  - left. split; [exact Hneg|].
    now rewrite (choice_negative R).
  - right. split; [exact Hpos|].
    destruct (choice_ok R law eligible num_to_flip (Debias.seed 42))
      as (idx & g' & Hc & Hnd & Hincl & Hlen).
    { apply where_true_NoDup. }
    { unfold num_to_flip in *. lia. }
    exists idx, g'. rewrite Hc.
    split; [reflexivity|]. split; [exact Hnd|]. split; [exact Hincl|exact Hlen].
Qed.

End MaskProperties.

Lemma assign_ones_is_bit (idx : list nat) (L : nat) :
  Forall is_bit (Debias.assign idx 1 (repeat 0 L)).
Proof.
  apply Forall_forall. intros b Hb.
  destruct (In_nth _ _ 0 Hb) as [i [Hi <-]].
  rewrite assign_length in Hi.
  destruct (in_dec Nat.eq_dec i idx) as [Hin|Hnin].
  - right. now apply assign_nth_in.
  - left. rewrite assign_nth_out by exact Hnin. apply nth_repeat.
Qed.

(** C1: on a non-empty cohort of sequences of one length [L], the
    eligible positions are those whose 1-rate is below 0.05; a mask that
    [create_xor_mask] returns has length [L], holds bits, holds 0 wherever
    the 1-rate is 0.05 or more (the rate as computed, and also the exact
    share of ones), and has no more set bits than there are eligible
    positions; and when the global 1-rate is below 0.5 a mask is returned,
    with exactly min(floor((0.5 - global rate) * L), number of eligible
    positions) set bits, the product being the one computed in double
    precision. *)
Theorem create_xor_mask_eligible (R : Debias.RandomState)
    (law : Debias.permutation_law R) (F : Rounding) (rlaw : rounding_law F)
    (samples : list (list Z)) (L : nat) (g : Debias.rng) :
  samples <> [] -> Forall (fun s => length s = L) samples ->
  exists mean_per_bit,
    Stats.mean_axis0 samples = Stats.Mean1 mean_per_bit
    /\ length mean_per_bit = L
    /\ let eligible := Debias.where_true (Debias.stable_zero_positions mean_per_bit) in
       NoDup eligible
       /\ (forall i, In i eligible
                     <-> (i < L)%nat /\ (nth i mean_per_bit 0 < rnd (5 # 100))%Q)
       /\ (forall mask,
             fst (Debias.create_xor_mask samples g) = Ok mask ->
             length mask = L
             /\ Forall is_bit mask
             /\ (forall i, (rnd (5 # 100) <= nth i mean_per_bit 0)%Q ->
                           nth i mask 0 = 0)
             /\ (forall i, (i < L)%nat ->
                   (5 # 100 <= inject_Z (Stats.np_sum (Stats.column samples i))
                               / inject_Z (Z.of_nat (length samples)))%Q ->
                   nth i mask 0 = 0)
             /\ (Debias.popcount mask <= length eligible)%nat)
       /\ (forall current_hw,
             Stats.np_mean mean_per_bit = Num current_hw ->
             (current_hw < 1 # 2)%Q ->
             exists mask,
               fst (Debias.create_xor_mask samples g) = Ok mask
               /\ Z.of_nat (Debias.popcount mask)
                  = Z.min (Qfloor (rnd (rnd ((1 # 2) - current_hw)
                                        * inject_Z (Z.of_nat L))))
                          (Z.of_nat (length eligible))).
Proof.
  intros Hne Hall.
  pose proof (mean_axis0_rect F samples L Hne Hall) as Hm.
  eexists. split; [exact Hm|].
  match type of Hm with _ = Stats.Mean1 ?r => set (m := r) in * end.
  assert (HL : length m = L) by (subst m; now rewrite length_map, length_seq).
  split; [exact HL|]. intros eligible.
  split; [apply where_true_NoDup|].
  assert (Hel : forall i, In i eligible
                          <-> (i < L)%nat /\ (nth i m 0 < rnd (5 # 100))%Q).
  { intros i. unfold eligible. rewrite stable_zero_In, HL. reflexivity. }
  split; [exact Hel|].
  pose proof (create_xor_mask_cases R law F samples m g Hm) as Hc.
  cbv zeta in Hc. fold eligible in Hc.
  split.
  - intros mask Hmask.
    destruct (Debias.flip_budget m) as [budget|e];
      [|rewrite Hc in Hmask; discriminate Hmask].
    destruct Hc as [[_ Hr]|[Hpos (idx & g' & Hr & Hnd & Hincl & Hlen)]];
      rewrite Hr in Hmask; [discriminate Hmask|].
    cbn [fst] in Hmask. injection Hmask as <-.
    assert (Hrange : forall i, In i idx -> (i < L)%nat)
      by (intros i Hi; apply Hincl, Hel in Hi; tauto).
    assert (Hzero : forall i, (rnd (5 # 100) <= nth i m 0)%Q ->
                              nth i (Debias.assign idx 1 (repeat 0 (length m))) 0 = 0).
    { intros i Hge. destruct (in_dec Nat.eq_dec i idx) as [Hin|Hnin].
      - apply Hincl, Hel in Hin. destruct Hin as [_ Hlt].
        exfalso. exact (Qlt_not_le _ _ Hlt Hge).
      - rewrite assign_nth_out by exact Hnin. apply nth_repeat. }
    split; [now rewrite assign_length, repeat_length|].
    split; [rewrite HL; apply assign_ones_is_bit|].
    split; [exact Hzero|].
    split.
    + intros i Hi Hge. apply Hzero. unfold m. rewrite nth_map_seq by exact Hi.
      apply (rnd_monotone F rlaw), Hge.
    + rewrite HL, popcount_assign by assumption. lia.
  - intros current_hw Hhw Hlt.
    assert (H0 : (0 <= rnd (rnd ((1 # 2) - current_hw) * inject_Z (Z.of_nat L)))%Q).
    { apply (rnd_nonneg F rlaw), Qmult_le_0_compat.
      - apply (rnd_nonneg F rlaw). unfold Qminus.
        apply (proj1 (Qle_minus_iff current_hw (1 # 2))), Qlt_le_weak, Hlt.
      - unfold Qle, inject_Z. cbn [Qnum Qden]. lia. }
    rewrite (flip_budget_num F m current_hw Hhw) in Hc. cbv zeta in Hc.
    rewrite HL in Hc. rewrite (py_int_floor _ H0) in Hc.
    assert (H0' : 0 <= Qfloor (rnd (rnd ((1 # 2) - current_hw)
                                    * inject_Z (Z.of_nat L)))).
    { change 0 with (Qfloor 0). apply Qfloor_resp_le, H0. }
    destruct Hc as [[Hneg _]|[Hpos (idx & g' & Hr & Hnd & Hincl & Hlen)]]; [lia|].
    eexists. rewrite Hr. split; [reflexivity|].
    rewrite popcount_assign.
    + rewrite Hlen. apply Z2Nat.id, Hpos.
    + exact Hnd.
    + intros i Hi. apply Hincl, Hel in Hi. tauto.
Qed.

(** Two members of eight bits, in double precision and under numpy's
    generator: six eligible positions, a budget of floor(0.3125 * 8) = 2,
    and the two positions that seed 42 draws. *)
Lemma create_xor_mask_eligible_witness :
  exists mean_per_bit,
    Stats.mean_axis0 (F := Binary64.binary64)
      [[0;0;0;0;0;0;1;1]; [0;0;0;0;0;0;0;1]] = Stats.Mean1 mean_per_bit
    /\ length mean_per_bit = 8%nat
    /\ let eligible :=
         Debias.where_true
           (Debias.stable_zero_positions (F := Binary64.binary64) mean_per_bit) in
       NoDup eligible
       /\ (forall i, In i eligible
                     <-> (i < 8)%nat
                         /\ (nth i mean_per_bit 0 < Binary64.round64 (5 # 100))%Q)
       /\ (forall mask,
             fst (Debias.create_xor_mask (F := Binary64.binary64)
                    [[0;0;0;0;0;0;1;1]; [0;0;0;0;0;0;0;1]]
                    (MT19937.mt19937_seed 0)) = Ok mask ->
             length mask = 8%nat
             /\ Forall is_bit mask
             /\ (forall i, (Binary64.round64 (5 # 100) <= nth i mean_per_bit 0)%Q ->
                           nth i mask 0 = 0)
             /\ (forall i, (i < 8)%nat ->
                   (5 # 100
                    <= inject_Z (Stats.np_sum
                                   (Stats.column
                                      [[0;0;0;0;0;0;1;1]; [0;0;0;0;0;0;0;1]]%Z i))
                       / inject_Z (Z.of_nat 2%nat))%Q ->
                   nth i mask 0 = 0)
             /\ (Debias.popcount mask <= length eligible)%nat)
       /\ (forall current_hw,
             Stats.np_mean (F := Binary64.binary64) mean_per_bit = Num current_hw ->
             (current_hw < 1 # 2)%Q ->
             exists mask,
               fst (Debias.create_xor_mask (F := Binary64.binary64)
                      [[0;0;0;0;0;0;1;1]; [0;0;0;0;0;0;0;1]]
                      (MT19937.mt19937_seed 0)) = Ok mask
               /\ Z.of_nat (Debias.popcount mask)
                  = Z.min (Qfloor (Binary64.round64
                                     (Binary64.round64 ((1 # 2) - current_hw)
                                      * inject_Z (Z.of_nat 8%nat))))
                          (Z.of_nat (length eligible))).
Proof.
  apply (create_xor_mask_eligible MT19937.mt19937 mt19937_law
           Binary64.binary64 binary64_law
           [[0;0;0;0;0;0;1;1]; [0;0;0;0;0;0;0;1]] 8 (MT19937.mt19937_seed 0)).
  - discriminate.
  - repeat constructor.
Defined.

Example create_xor_mask_run (g : MT19937.rk_state) :
  fst (Debias.create_xor_mask (F := Binary64.binary64)
         [[0;0;0;0;0;0;1;1]; [0;0;0;0;0;0;0;1]] g)
  = Ok [1; 1; 0; 0; 0; 0; 0; 0].
Proof. vm_compute. reflexivity. Qed.

(** A cohort whose global 1-rate is above 0.5 by 1/L or more has a
    negative budget, and the draw raises. *)
Example create_xor_mask_above_half (g : MT19937.rk_state) :
  fst (Debias.create_xor_mask (F := Binary64.binary64)
         [[1; 1; 1; 0]; [1; 1; 1; 1]] g) = Raise ValueError.
Proof. vm_compute. reflexivity. Qed.

(** Rounding matters: two members of seventeen bits with five ones have
    the exact budget (1/2 - 5/34) * 17 = 6, but in double precision the
    product falls just below 6 and [int] gives 5. *)
Example flip_budget_rounding :
  let mean_per_bit (F : Rounding) :=
    map (fun k => rnd (k / 2))
        [0; 0; 0; 1; 0; 1; 0; 0; 1; 1; 0; 1; 0; 0; 0; 0; 0]%Q in
  Debias.flip_budget (F := Binary64.binary64) (mean_per_bit Binary64.binary64) = Ok 5
  /\ Debias.flip_budget (F := Exact.exact) (mean_per_bit Exact.exact) = Ok 6.
Proof. split; vm_compute; reflexivity. Qed.

(** * Further properties *)

(** ** The mask, applied twice and under the distance *)

Lemma combine_firstn_r {A B : Type} (a : list A) (b : list B) :
  combine a (firstn (length a) b) = combine a b.
Proof.
  revert b. induction a as [|x a IH]; intros [|y b]; cbn; try reflexivity.
  now rewrite IH.
Qed.

Lemma bitwise_xor_row (s mask : list Z) :
  (length s <= length mask)%nat ->
  Debias.bitwise_xor s (firstn (length s) mask)
  = Ok (map (fun p => Z.lxor (fst p) (snd p)) (combine s mask)).
Proof. intros H. rewrite bitwise_xor_slice by exact H. now rewrite combine_firstn_r. Qed.

Lemma apply_xor_mask_rows (samples : list (list Z)) (mask : list Z) :
  Forall (fun s => (length s <= length mask)%nat) samples ->
  Debias.apply_xor_mask samples mask
  = Ok (map (fun s => map (fun p => Z.lxor (fst p) (snd p)) (combine s mask)) samples).
Proof.
  intros H. unfold Debias.apply_xor_mask. apply mapM_total.
  apply Forall_forall. intros s Hs. rewrite Forall_forall in H.
  apply bitwise_xor_row, H, Hs.
Qed.

Lemma xor_combine_length (s mask : list Z) :
  (length s <= length mask)%nat ->
  length (map (fun p => Z.lxor (fst p) (snd p)) (combine s mask)) = length s.
Proof. intros H. rewrite length_map, length_combine. lia. Qed.

Lemma xor_combine_twice (s mask : list Z) :
  (length s <= length mask)%nat ->
  map (fun p => Z.lxor (fst p) (snd p))
      (combine (map (fun p => Z.lxor (fst p) (snd p)) (combine s mask)) mask) = s.
Proof.
  revert mask. induction s as [|x s IH]; intros [|m mask] H; cbn in H; try lia;
    [reflexivity|reflexivity|].
  cbn [combine map fst snd]. rewrite IH by lia. f_equal.
  rewrite Z.lxor_assoc, Z.lxor_nilpotent. apply Z.lxor_0_r.
Qed.

(** X1: a mask at least as long as every sample undoes itself: applying
    it to the debiased samples returns the samples. *)
Theorem apply_xor_mask_involutive (samples : list (list Z)) (mask : list Z) :
  Forall (fun s => (length s <= length mask)%nat) samples ->
  exists debiased,
    Debias.apply_xor_mask samples mask = Ok debiased
    /\ Debias.apply_xor_mask debiased mask = Ok samples.
Proof.
  intros H. eexists. split; [apply apply_xor_mask_rows, H|].
  rewrite apply_xor_mask_rows.
  - f_equal. rewrite map_map. rewrite <- (map_id samples) at 2.
    apply map_ext_in. intros s Hs. rewrite Forall_forall in H.
    apply xor_combine_twice, H, Hs.
  - apply Forall_forall. intros r Hr. apply in_map_iff in Hr.
    destruct Hr as [s [<- Hs]]. rewrite Forall_forall in H.
    rewrite xor_combine_length; apply H, Hs.
Qed.

Lemma apply_xor_mask_involutive_witness :
  exists debiased,
    Debias.apply_xor_mask [[1; 0; 1]; [0; 0]] [0; 1; 1; 0] = Ok debiased
    /\ Debias.apply_xor_mask debiased [0; 1; 1; 0] = Ok [[1; 0; 1]; [0; 0]].
Proof.
  apply (apply_xor_mask_involutive [[1; 0; 1]; [0; 0]] [0; 1; 1; 0]).
  repeat constructor.
Defined.

Lemma neq_xor (x y m : Z) :
  Distance.neq (Z.lxor x m, Z.lxor y m) = Distance.neq (x, y).
Proof.
  unfold Distance.neq. cbn [fst snd].
  destruct (Z.eqb_spec x y) as [->|Hne]; [now rewrite Z.eqb_refl|].
  destruct (Z.eqb_spec (Z.lxor x m) (Z.lxor y m)) as [E|_]; [|reflexivity].
  exfalso. apply Hne.
  rewrite <- (Z.lxor_0_r x), <- (Z.lxor_0_r y), <- (Z.lxor_nilpotent m).
  rewrite <- !Z.lxor_assoc. now rewrite E.
Qed.

Lemma count_neq_xor (a b mask : list Z) :
  (length a <= length mask)%nat -> (length b <= length mask)%nat ->
  Distance.count_neq (map (fun p => Z.lxor (fst p) (snd p)) (combine a mask))
                     (map (fun p => Z.lxor (fst p) (snd p)) (combine b mask))
  = Distance.count_neq a b.
Proof.
  unfold Distance.count_neq. revert b mask.
  induction a as [|x a IH]; intros [|y b] [|m mask] Ha Hb; cbn in Ha, Hb; try lia;
    try reflexivity.
  cbn [combine map fst snd Stats.np_sum fold_right].
  fold (Stats.np_sum (map Distance.neq
          (combine (map (fun p => Z.lxor (fst p) (snd p)) (combine a mask))
                   (map (fun p => Z.lxor (fst p) (snd p)) (combine b mask))))).
  fold (Stats.np_sum (map Distance.neq (combine a b))).
  rewrite neq_xor, IH by lia. reflexivity.
Qed.

Lemma firstn_xor_combine (k : nat) (s mask : list Z) :
  firstn k (map (fun p => Z.lxor (fst p) (snd p)) (combine s mask))
  = map (fun p => Z.lxor (fst p) (snd p)) (combine (firstn k s) mask).
Proof.
  revert s mask. induction k as [|k IH]; intros [|x s] [|m mask];
    cbn [firstn combine map]; try reflexivity.
  now rewrite IH.
Qed.

Lemma hamming_distance_xor (F : Rounding) (a b mask : list Z) :
  (length a <= length mask)%nat -> (length b <= length mask)%nat ->
  Distance.hamming_distance
    (map (fun p => Z.lxor (fst p) (snd p)) (combine a mask))
    (map (fun p => Z.lxor (fst p) (snd p)) (combine b mask))
  = Distance.hamming_distance a b.
Proof.
  intros Ha Hb. unfold Distance.hamming_distance.
  rewrite !xor_combine_length by assumption.
  rewrite !firstn_xor_combine, count_neq_xor; [reflexivity| |];
    rewrite length_firstn; lia.
Qed.

(** X2: debiasing leaves every intra-cohort distance as it is: two
    members XORed with one mask differ exactly where they differed, so
    [compute_intra_hd] of the debiased cohort is that of the cohort. *)
Theorem compute_intra_hd_debiased (F : Rounding)
    (samples debiased : list (list Z)) (mask : list Z) :
  Forall (fun s => (length s <= length mask)%nat) samples ->
  Debias.apply_xor_mask samples mask = Ok debiased ->
  Distance.compute_intra_hd debiased = Distance.compute_intra_hd samples.
Proof.
  intros H Happ. rewrite (apply_xor_mask_rows samples mask H) in Happ.
  injection Happ as <-. unfold Distance.compute_intra_hd.
  rewrite length_map. apply map_ext_in. intros [i j] Hij.
  apply combinations2_In in Hij. destruct Hij as [Hi Hj].
  apply in_seq in Hi. apply in_seq in Hj. cbn [fst snd].
  set (row := fun s : list Z => map (fun p => Z.lxor (fst p) (snd p)) (combine s mask)).
  assert (E : forall k, nth k (map row samples) [] = row (nth k samples [])).
  { intros k. exact (map_nth row samples [] k). }
  rewrite !E. unfold row. rewrite Forall_forall in H.
  apply hamming_distance_xor; apply H, nth_In; lia.
Qed.

Lemma compute_intra_hd_debiased_witness :
  Distance.compute_intra_hd (F := Binary64.binary64) [[1; 1; 0]; [0; 1; 1]; [1; 0; 0]]
  = Distance.compute_intra_hd (F := Binary64.binary64) [[1; 0; 1]; [0; 0; 0]; [1; 1; 1]].
Proof.
  apply (compute_intra_hd_debiased Binary64.binary64
           [[1; 0; 1]; [0; 0; 0]; [1; 1; 1]] [[1; 1; 0]; [0; 1; 1]; [1; 0; 0]]
           [0; 1; 1; 0]).
  - repeat constructor.
  - reflexivity.
Defined.

(** ** The distance as a metric *)

Lemma count_neq_cons (x y : Z) (a b : list Z) :
  Distance.count_neq (x :: a) (y :: b) = Distance.neq (x, y) + Distance.count_neq a b.
Proof. reflexivity. Qed.

Lemma neq_cases (x y : Z) :
  (x = y /\ Distance.neq (x, y) = 0) \/ (x <> y /\ Distance.neq (x, y) = 1).
Proof.
  unfold Distance.neq. cbn [fst snd]. destruct (Z.eqb_spec x y); [left|right]; auto.
Qed.

Lemma count_neq_bounds (a b : list Z) :
  0 <= Distance.count_neq a b <= Z.of_nat (Nat.min (length a) (length b)).
Proof.
  revert b. induction a as [|x a IH]; intros [|y b]; try (cbn; lia).
  rewrite count_neq_cons. specialize (IH b). cbn [length].
  destruct (neq_cases x y) as [[_ ->]|[_ ->]]; lia.
Qed.

Lemma count_neq_refl (a : list Z) : Distance.count_neq a a = 0.
Proof.
  induction a as [|x a IH]; [reflexivity|].
  rewrite count_neq_cons, IH. destruct (neq_cases x x) as [[_ ->]|[H _]]; [reflexivity|].
  now elim H.
Qed.

Lemma count_neq_zero (a b : list Z) :
  length a = length b -> (Distance.count_neq a b = 0 <-> a = b).
Proof.
  intros Hlen. split; [|intros ->; apply count_neq_refl].
  revert b Hlen. induction a as [|x a IH]; intros [|y b] Hlen; cbn in Hlen; try lia;
    [reflexivity|].
  rewrite count_neq_cons. pose proof (count_neq_bounds a b) as Hb.
  destruct (neq_cases x y) as [[-> ->]|[_ ->]]; intros H; [|lia].
  f_equal. apply IH; lia.
Qed.

Lemma count_neq_triangle (a b c : list Z) :
  length a = length b -> length b = length c ->
  Distance.count_neq a c <= Distance.count_neq a b + Distance.count_neq b c.
Proof.
  revert b c.
  induction a as [|x a IH]; intros [|y b] [|z c] H1 H2; cbn in H1, H2; try lia;
    [cbn; lia|].
  rewrite !count_neq_cons.
  specialize (IH b c ltac:(lia) ltac:(lia)).
  destruct (neq_cases x z) as [[? ->]|[? ->]], (neq_cases x y) as [[? ->]|[? ->]],
           (neq_cases y z) as [[? ->]|[? ->]]; try lia; congruence.
Qed.

Lemma hamming_distance_equal_length (F : Rounding) (a b : list Z) :
  length a = length b -> a <> [] ->
  Distance.hamming_distance a b
  = Num (rnd (inject_Z (Distance.count_neq a b) / inject_Z (Z.of_nat (length a)))).
Proof.
  intros Hlen Hne. unfold Distance.hamming_distance. rewrite <- Hlen, Nat.min_id.
  rewrite firstn_all. rewrite Hlen at 1. rewrite firstn_all.
  apply np_divide_pos. destruct a; [contradiction|simpl; lia].
Qed.

Lemma Qdiv_nat_bounds (c : Z) (n : nat) :
  (0 < n)%nat -> 0 <= c <= Z.of_nat n ->
  (0 <= inject_Z c / inject_Z (Z.of_nat n) <= 1)%Q.
Proof.
  intros Hn Hc. destruct n as [|n]; [lia|].
  unfold Qle, Qdiv, Qmult, Qinv, inject_Z. cbn [Qnum Qden Z.of_nat].
  rewrite !Z.mul_1_r. cbn [Qnum Qden].
  assert (E : Z.of_nat (S n) = Z.pos (Pos.of_succ_nat n)) by reflexivity.
  rewrite E in Hc. lia.
Qed.

Lemma rnd_unit_interval (F : Rounding) (law : rounding_law F) (x : Q) :
  (rnd 1 == 1)%Q -> (0 <= x <= 1)%Q -> (0 <= rnd x <= 1)%Q.
Proof.
  intros H1 [H0 Hx]. split; [apply (rnd_nonneg F law), H0|].
  rewrite <- H1. apply (rnd_monotone F law), Hx.
Qed.

Lemma hamming_distance_unit (F : Rounding) (law : rounding_law F) (a b : list Z) :
  (rnd 1 == 1)%Q -> a <> [] -> b <> [] ->
  exists d, Distance.hamming_distance a b = Num d /\ (0 <= d <= 1)%Q.
Proof.
  intros H1 Ha Hb. unfold Distance.hamming_distance.
  set (m := Nat.min (length a) (length b)).
  assert (Hm : (0 < m)%nat).
  { destruct a; [contradiction|]. destruct b; [contradiction|]. cbn. lia. }
  rewrite np_divide_pos by exact Hm. eexists. split; [reflexivity|].
  apply (rnd_unit_interval F law _ H1), Qdiv_nat_bounds; [exact Hm|].
  pose proof (count_neq_bounds (firstn m a) (firstn m b)) as B.
  rewrite !length_firstn in B. lia.
Qed.

(** X3: the distance of two non-empty sequences is a number between 0
    and 1, whatever their lengths, and the distance of a non-empty sequence
    to itself is 0. *)
Theorem hamming_distance_range (F : Rounding) (law : rounding_law F)
    (a b : list Z) :
  (rnd 1 == 1)%Q -> a <> [] -> b <> [] ->
  (exists d, Distance.hamming_distance a b = Num d /\ (0 <= d <= 1)%Q)
  /\ (exists d, Distance.hamming_distance a a = Num d /\ (d == 0)%Q).
Proof.
  intros H1 Ha Hb. split; [apply (hamming_distance_unit F law); assumption|].
  rewrite hamming_distance_equal_length by (reflexivity || exact Ha).
  eexists. split; [reflexivity|]. rewrite count_neq_refl.
  assert (E : (inject_Z 0 / inject_Z (Z.of_nat (length a)) == 0)%Q)
    by (unfold Qdiv; apply Qmult_0_l).
  apply Qle_antisym.
  - rewrite <- (rnd_0 F law). apply (rnd_monotone F law). rewrite E. apply Qle_refl.
  - apply (rnd_nonneg F law). rewrite E. apply Qle_refl.
Qed.

Lemma hamming_distance_range_witness :
  (exists d, Distance.hamming_distance (F := Binary64.binary64) [1; 0; 1] [0; 0] = Num d
             /\ (0 <= d <= 1)%Q)
  /\ (exists d, Distance.hamming_distance (F := Binary64.binary64) [1; 0; 1] [1; 0; 1]
                = Num d /\ (d == 0)%Q).
Proof.
  apply (hamming_distance_range Binary64.binary64 binary64_law [1; 0; 1] [0; 0]).
  - vm_compute. reflexivity.
  - discriminate.
  - discriminate.
Defined.

(** X4: on sequences of one length the count of differing positions
    behind the distance is 0 only for equal sequences and obeys the
    triangle inequality; each distance is that count over the length. *)
Theorem hamming_distance_triangle (F : Rounding) (a b c : list Z) :
  length a = length b -> length b = length c -> a <> [] ->
  let n := inject_Z (Z.of_nat (length a)) in
  Distance.hamming_distance a b = Num (rnd (inject_Z (Distance.count_neq a b) / n))
  /\ Distance.hamming_distance b c = Num (rnd (inject_Z (Distance.count_neq b c) / n))
  /\ Distance.hamming_distance a c = Num (rnd (inject_Z (Distance.count_neq a c) / n))
  /\ Distance.count_neq a c <= Distance.count_neq a b + Distance.count_neq b c
  /\ (Distance.count_neq a b = 0 <-> a = b).
Proof.
  intros H1 H2 Ha n. subst n.
  assert (Hb : b <> []) by (destruct a, b; cbn in H1; congruence).
  split; [apply hamming_distance_equal_length; assumption|].
  split; [rewrite H1; apply hamming_distance_equal_length; assumption|].
  split; [apply hamming_distance_equal_length; [congruence|assumption]|].
  split; [apply count_neq_triangle; assumption|].
  apply count_neq_zero, H1.
Qed.

Lemma hamming_distance_triangle_witness :
  let n := inject_Z (Z.of_nat (length [1; 0; 1]%Z)) in
  Distance.hamming_distance (F := Binary64.binary64) [1; 0; 1] [0; 0; 1]
  = Num (Binary64.round64 (inject_Z (Distance.count_neq [1; 0; 1] [0; 0; 1]) / n))
  /\ Distance.hamming_distance (F := Binary64.binary64) [0; 0; 1] [0; 1; 0]
     = Num (Binary64.round64 (inject_Z (Distance.count_neq [0; 0; 1] [0; 1; 0]) / n))
  /\ Distance.hamming_distance (F := Binary64.binary64) [1; 0; 1] [0; 1; 0]
     = Num (Binary64.round64 (inject_Z (Distance.count_neq [1; 0; 1] [0; 1; 0]) / n))
  /\ Distance.count_neq [1; 0; 1] [0; 1; 0]
     <= Distance.count_neq [1; 0; 1] [0; 0; 1] + Distance.count_neq [0; 0; 1] [0; 1; 0]
  /\ (Distance.count_neq [1; 0; 1] [0; 0; 1] = 0 <-> [1; 0; 1] = [0; 0; 1]).
Proof.
  apply (hamming_distance_triangle Binary64.binary64 [1; 0; 1] [0; 0; 1] [0; 1; 0]).
  - reflexivity.
  - reflexivity.
  - discriminate.
Defined.

Lemma firstn_app_le {A : Type} (k : nat) (a t : list A) :
  (k <= length a)%nat -> firstn k (a ++ t) = firstn k a.
Proof.
  intros H. rewrite firstn_app. replace (k - length a)%nat with O by lia.
  cbn [firstn]. apply app_nil_r.
Qed.

(** X5: sequences of different lengths raise nothing: only the first
    [min(len(a), len(b))] positions are compared, and whatever the longer
    sequence holds after them does not change the distance. *)
Theorem hamming_distance_tail (F : Rounding) (a b t : list Z) :
  (length b <= length a)%nat ->
  Distance.hamming_distance (a ++ t) b = Distance.hamming_distance a b
  /\ Distance.hamming_distance b (a ++ t) = Distance.hamming_distance b a
  /\ UnstableBits.hamming_distance (a ++ t) b = UnstableBits.hamming_distance a b.
Proof.
  intros H.
  assert (E : Distance.hamming_distance (a ++ t) b = Distance.hamming_distance a b).
  { unfold Distance.hamming_distance. rewrite length_app.
    replace (Nat.min (length a + length t) (length b)) with (length b) by lia.
    replace (Nat.min (length a) (length b)) with (length b) by lia.
    now rewrite firstn_app_le. }
  split; [exact E|]. split.
  - rewrite (hamming_distance_comm F b (a ++ t)), (hamming_distance_comm F b a). exact E.
  - unfold UnstableBits.hamming_distance. rewrite length_app.
    replace (Nat.min (length a + length t) (length b)) with (length b) by lia.
    replace (Nat.min (length a) (length b)) with (length b) by lia.
    now rewrite firstn_app_le.
Qed.

Lemma hamming_distance_tail_witness :
  Distance.hamming_distance (F := Binary64.binary64) ([1; 0] ++ [1; 1]) [0; 0]
  = Distance.hamming_distance (F := Binary64.binary64) [1; 0] [0; 0]
  /\ Distance.hamming_distance (F := Binary64.binary64) [0; 0] ([1; 0] ++ [1; 1])
     = Distance.hamming_distance (F := Binary64.binary64) [0; 0] [1; 0]
  /\ UnstableBits.hamming_distance (F := Binary64.binary64) ([1; 0] ++ [1; 1]) [0; 0]
     = UnstableBits.hamming_distance (F := Binary64.binary64) [1; 0] [0; 0].
Proof.
  apply (hamming_distance_tail Binary64.binary64 [1; 0] [0; 0] [1; 1]).
  cbn. lia.
Defined.

(** ** Hamming weight *)

Lemma np_sum_bits_bounds (bits : list Z) :
  Forall is_bit bits -> 0 <= Stats.np_sum bits <= Z.of_nat (length bits).
Proof.
  induction 1 as [|b bits Hb _ IH]; [cbn; lia|].
  cbn [Stats.np_sum fold_right length]. fold (Stats.np_sum bits).
  destruct Hb as [-> | ->]; lia.
Qed.

Lemma np_sum_repeat (v : Z) (n : nat) : Stats.np_sum (repeat v n) = v * Z.of_nat n.
Proof.
  induction n as [|n IH]; [cbn; lia|].
  cbn [repeat Stats.np_sum fold_right]. fold (Stats.np_sum (repeat v n)). lia.
Qed.

Lemma rnd_Qeq (F : Rounding) (law : rounding_law F) (x y : Q) :
  (x == y)%Q -> (rnd x == rnd y)%Q.
Proof.
  intros H. apply Qle_antisym; apply (rnd_monotone F law); rewrite H; apply Qle_refl.
Qed.

(** X6: the Hamming weight of a non-empty sequence of bits is a number
    between 0 and 1, 0 for all zeros and 1 for all ones, and the guarded
    variant agrees with the plain one; on the empty sequence the plain one
    is [nan] (0/0) while the guarded one is 0. *)
Theorem hamming_weight_range (F : Rounding) (law : rounding_law F) (bits : list Z) :
  (rnd 1 == 1)%Q -> bits <> [] -> Forall is_bit bits ->
  (exists w,
     Weight.hamming_weight bits = Num w
     /\ Weight.hamming_weight_guarded bits = Num w
     /\ (0 <= w <= 1)%Q
     /\ (bits = repeat 0 (length bits) -> (w == 0)%Q)
     /\ (bits = repeat 1 (length bits) -> (w == 1)%Q))
  /\ Weight.hamming_weight [] = NaN
  /\ Weight.hamming_weight_guarded [] = Num 0.
Proof.
  intros H1 Hne Hbits. split; [|split; reflexivity].
  assert (Hn : (0 < length bits)%nat) by (destruct bits; [contradiction|cbn; lia]).
  unfold Weight.hamming_weight, Weight.hamming_weight_guarded.
  apply Nat.ltb_lt in Hn as Hn'. rewrite Hn'.
  rewrite np_divide_pos by exact Hn. eexists. split; [reflexivity|].
  split; [reflexivity|]. split; [|split].
  - apply (rnd_unit_interval F law _ H1), Qdiv_nat_bounds; [exact Hn|].
    apply np_sum_bits_bounds, Hbits.
  - intros E. rewrite E at 1. rewrite np_sum_repeat, Z.mul_0_l.
    apply Qeq_trans with (y := rnd 0); [|apply (rnd_0 F law)].
    apply (rnd_Qeq F law). unfold Qdiv. apply Qmult_0_l.
  - intros E. rewrite E at 1. rewrite np_sum_repeat, Z.mul_1_l.
    apply Qeq_trans with (y := rnd 1); [|exact H1].
    apply (rnd_Qeq F law).
    apply Qmult_inv_r. unfold Qeq, inject_Z. cbn [Qnum Qden]. lia.
Qed.

Lemma hamming_weight_range_witness :
  (exists w,
     Weight.hamming_weight (F := Binary64.binary64) [1; 0; 1; 1] = Num w
     /\ Weight.hamming_weight_guarded (F := Binary64.binary64) [1; 0; 1; 1] = Num w
     /\ (0 <= w <= 1)%Q
     /\ ([1; 0; 1; 1] = repeat 0 (length [1; 0; 1; 1]) -> (w == 0)%Q)
     /\ ([1; 0; 1; 1] = repeat 1 (length [1; 0; 1; 1]) -> (w == 1)%Q))
  /\ Weight.hamming_weight (F := Binary64.binary64) [] = NaN
  /\ Weight.hamming_weight_guarded (F := Binary64.binary64) [] = Num 0.
Proof.
  apply (hamming_weight_range Binary64.binary64 binary64_law [1; 0; 1; 1]).
  - vm_compute. reflexivity.
  - discriminate.
  - repeat constructor; (now left) || (now right).
Defined.

(** ** The common length of two cohorts *)

Lemma fold_min_le (r : list nat) (x : nat) :
  (fold_left Nat.min r x <= x)%nat
  /\ Forall (fun y => (fold_left Nat.min r x <= y)%nat) r
  /\ In (fold_left Nat.min r x) (x :: r).
Proof.
  revert x. induction r as [|y r IH]; intros x; cbn [fold_left].
  - split; [lia|]. split; [constructor|now left].
  - destruct (IH (Nat.min x y)) as (H1 & H2 & H3). split; [lia|]. split.
    + constructor; [lia|exact H2].
    + destruct H3 as [H3|H3]; [|right; right; exact H3].
      destruct (Nat.min_spec x y) as [[_ E]|[_ E]].
      * left. congruence.
      * right. left. congruence.
Qed.

Lemma py_min_spec (l : list nat) :
  l <> [] ->
  exists m, Cohort.py_min l = Ok m /\ In m l /\ Forall (fun y => (m <= y)%nat) l.
Proof.
  intros H. destruct l as [|x r]; [contradiction|].
  destruct (fold_min_le r x) as (H1 & H2 & H3).
  exists (fold_left Nat.min r x). split; [reflexivity|]. split; [exact H3|].
  constructor; assumption.
Qed.

Lemma normalize_spec (card1 card2 : list (list Z)) :
  card1 <> [] -> card2 <> [] ->
  exists min_len,
    Cohort.normalize card1 card2
    = Ok (map (firstn min_len) card1, map (firstn min_len) card2)
    /\ In min_len (map (@length Z) (card1 ++ card2))
    /\ Forall (fun s => (min_len <= length s)%nat) (card1 ++ card2)
    /\ Forall (fun s => length s = min_len)
              (map (firstn min_len) card1 ++ map (firstn min_len) card2).
Proof.
  intros H1 H2.
  destruct (py_min_spec (map (@length Z) card1)) as (m1 & E1 & I1 & F1);
    [destruct card1; [contradiction|discriminate]|].
  destruct (py_min_spec (map (@length Z) card2)) as (m2 & E2 & I2 & F2);
    [destruct card2; [contradiction|discriminate]|].
  exists (Nat.min m1 m2). unfold Cohort.normalize. rewrite E1, E2. cbn [bind].
  split; [reflexivity|].
  assert (Hall : Forall (fun s => (Nat.min m1 m2 <= length s)%nat) (card1 ++ card2)).
  { apply Forall_app. rewrite Forall_map in F1, F2. split.
    - eapply Forall_impl; [|exact F1]. cbn. intros; lia.
    - eapply Forall_impl; [|exact F2]. cbn. intros; lia. }
  split; [|split; [exact Hall|]].
  - rewrite map_app, in_app_iff.
    destruct (Nat.min_spec m1 m2) as [[_ E]|[_ E]]; rewrite E; [left|right]; assumption.
  - rewrite <- map_app. apply Forall_map.
    eapply Forall_impl; [|exact Hall]. cbn. intros s Hs.
    rewrite length_firstn. lia.
Qed.


(** X7: with two non-empty cohorts the scripts go on with every sample
    of both cut to one length, the least length of any sample: each row is a
    prefix of the sample it comes from and the cohorts keep their sizes. *)
Theorem normalize_rows (card1 card2 : list (list Z)) :
  card1 <> [] -> card2 <> [] ->
  exists min_len,
    Cohort.normalize card1 card2
    = Ok (map (firstn min_len) card1, map (firstn min_len) card2)
    /\ In min_len (map (@length Z) (card1 ++ card2))
    /\ Forall (fun s => (min_len <= length s)%nat) (card1 ++ card2)
    /\ Forall (fun s => length s = min_len)
              (map (firstn min_len) card1 ++ map (firstn min_len) card2).
Proof. exact (normalize_spec card1 card2). Qed.

Lemma normalize_rows_witness :
  exists min_len,
    Cohort.normalize [[1; 0; 1]; [0; 0; 1; 1]] [[1; 1]; [0; 1; 0]]
    = Ok (map (firstn min_len) [[1; 0; 1]; [0; 0; 1; 1]],
          map (firstn min_len) [[1; 1]; [0; 1; 0]])
    /\ In min_len (map (@length Z) ([[1; 0; 1]; [0; 0; 1; 1]] ++ [[1; 1]; [0; 1; 0]]))
    /\ Forall (fun s => (min_len <= length s)%nat)
              ([[1; 0; 1]; [0; 0; 1; 1]] ++ [[1; 1]; [0; 1; 0]])
    /\ Forall (fun s => length s = min_len)
              (map (firstn min_len) [[1; 0; 1]; [0; 0; 1; 1]]
               ++ map (firstn min_len) [[1; 1]; [0; 1; 0]]).
Proof.
  apply (normalize_rows [[1; 0; 1]; [0; 0; 1; 1]] [[1; 1]; [0; 1; 0]]); discriminate.
Defined.

(** X8: a cohort without any sample stops every script: [min] of no
    length raises [ValueError] before any statistic is computed, whichever of
    the two cohorts is the empty one. *)
Theorem normalize_empty (card : list (list Z)) :
  Cohort.normalize [] card = Raise ValueError
  /\ Cohort.normalize card [] = Raise ValueError.
Proof.
  split; [reflexivity|]. unfold Cohort.normalize.
  destruct card as [|s r]; reflexivity.
Qed.

Lemma normalize_ok_nonempty (card1 card2 c1 c2 : list (list Z)) :
  Cohort.normalize card1 card2 = Ok (c1, c2) -> card1 <> [] /\ card2 <> [].
Proof.
  unfold Cohort.normalize. destruct card1 as [|s1 r1]; [discriminate|].
  destruct card2 as [|s2 r2]; [discriminate|]. intros _. split; discriminate.
Qed.

Lemma mean_axis0_length (F : Rounding) (samples : list (list Z)) (L : nat) :
  samples <> [] -> Forall (fun s => length s = L) samples ->
  exists m, Stats.mean_axis0 samples = Stats.Mean1 m /\ length m = L.
Proof.
  intros Hne Hall. eexists. split; [apply (mean_axis0_rect F samples L Hne Hall)|].
  now rewrite length_map, length_seq.
Qed.

(** X9: from samples that are not empty, as [load_all_samples] keeps
    them, the cut cohorts have one positive length: the per-bit means of
    each are defined over that length, and every distance of
    [compute_intra_hd] and of [compute_inter_hd] on them is a number between
    0 and 1, never [nan]. *)
Theorem normalized_distances (F : Rounding) (law : rounding_law F)
    (card1 card2 c1 c2 : list (list Z)) :
  (rnd 1 == 1)%Q ->
  Forall (fun s => s <> []) (card1 ++ card2) ->
  Cohort.normalize card1 card2 = Ok (c1, c2) ->
  (exists min_len m1 m2,
     (0 < min_len)%nat
     /\ Stats.mean_axis0 c1 = Stats.Mean1 m1 /\ length m1 = min_len
     /\ Stats.mean_axis0 c2 = Stats.Mean1 m2 /\ length m2 = min_len)
  /\ Forall (fun d => exists q, d = Num q /\ (0 <= q <= 1)%Q)
            (Distance.compute_intra_hd c1 ++ Distance.compute_intra_hd c2
             ++ Distance.compute_inter_hd c1 c2).
Proof.
  intros H1 Hne Hnorm.
  destruct (normalize_ok_nonempty _ _ _ _ Hnorm) as [N1 N2].
  destruct (normalize_spec card1 card2 N1 N2) as (L & E & Hin & Hle & Hlen).
  rewrite E in Hnorm. injection Hnorm as <- <-.
  assert (HL : (0 < L)%nat).
  { apply in_map_iff in Hin. destruct Hin as [s [<- Hs]].
    rewrite Forall_forall in Hne. specialize (Hne s Hs).
    destruct s; [contradiction|cbn; lia]. }
  apply Forall_app in Hlen. destruct Hlen as [L1 L2].
  assert (R1 : Forall (fun s => s <> []) (map (firstn L) card1)).
  { eapply Forall_impl; [|exact L1]. cbn. intros s Hs ->. cbn in Hs. lia. }
  assert (R2 : Forall (fun s => s <> []) (map (firstn L) card2)).
  { eapply Forall_impl; [|exact L2]. cbn. intros s Hs ->. cbn in Hs. lia. }
  split.
  - destruct (mean_axis0_length F (map (firstn L) card1) L) as (m1 & M1 & K1);
      [destruct card1; [contradiction|discriminate]|exact L1|].
    destruct (mean_axis0_length F (map (firstn L) card2) L) as (m2 & M2 & K2);
      [destruct card2; [contradiction|discriminate]|exact L2|].
    exists L, m1, m2. repeat split; assumption.
  - assert (Intra : forall c, Forall (fun s => s <> []) c ->
              Forall (fun d => exists q, d = Num q /\ (0 <= q <= 1)%Q)
                     (Distance.compute_intra_hd c)).
    { intros c Hc. apply Forall_forall. intros d Hd.
      unfold Distance.compute_intra_hd in Hd. apply in_map_iff in Hd.
      destruct Hd as [[i j] [<- Hij]]. apply combinations2_In in Hij.
      destruct Hij as [Hi Hj]. apply in_seq in Hi. apply in_seq in Hj.
      rewrite Forall_forall in Hc. cbn [fst snd].
      apply (hamming_distance_unit F law); [exact H1| |]; apply Hc, nth_In; lia. }
    apply Forall_app. split; [apply Intra, R1|].
    apply Forall_app. split; [apply Intra, R2|].
    apply Forall_forall. intros d Hd. unfold Distance.compute_inter_hd in Hd.
    apply in_flat_map in Hd. destruct Hd as [s1 [Hs1 Hd]].
    apply in_map_iff in Hd. destruct Hd as [s2 [<- Hs2]].
    rewrite Forall_forall in R1, R2.
    apply (hamming_distance_unit F law); [exact H1|apply R1, Hs1|apply R2, Hs2].
Qed.

Lemma normalized_distances_witness :
  (exists min_len m1 m2,
     (0 < min_len)%nat
     /\ Stats.mean_axis0 (F := Binary64.binary64) [[1; 0]; [0; 0]] = Stats.Mean1 m1
     /\ length m1 = min_len
     /\ Stats.mean_axis0 (F := Binary64.binary64) [[1; 1]; [0; 1]] = Stats.Mean1 m2
     /\ length m2 = min_len)
  /\ Forall (fun d => exists q, d = Num q /\ (0 <= q <= 1)%Q)
            (Distance.compute_intra_hd (F := Binary64.binary64) [[1; 0]; [0; 0]]
             ++ Distance.compute_intra_hd (F := Binary64.binary64) [[1; 1]; [0; 1]]
             ++ Distance.compute_inter_hd (F := Binary64.binary64)
                  [[1; 0]; [0; 0]] [[1; 1]; [0; 1]]).
Proof.
  apply (normalized_distances Binary64.binary64 binary64_law
           [[1; 0; 1]; [0; 0; 1; 1]] [[1; 1]; [0; 1; 0]]
           [[1; 0]; [0; 0]] [[1; 1]; [0; 1]]).
  - vm_compute. reflexivity.
  - repeat constructor; discriminate.
  - reflexivity.
Defined.

(** ** Flip rate *)

Lemma add_flips_length (fc s maj : list Z) (L : nat) :
  length fc = L -> length s = L -> length maj = L ->
  length (FlipRate.add_flips fc s maj) = L.
Proof.
  intros H1 H2 H3. unfold FlipRate.add_flips.
  rewrite length_map, length_combine, length_map, length_combine. lia.
Qed.

Lemma add_flips_nth (fc s maj : list Z) (i : nat) :
  (i < length fc)%nat -> (i < length s)%nat -> (i < length maj)%nat ->
  nth i (FlipRate.add_flips fc s maj) 0
  = nth i fc 0 + Distance.neq (nth i s 0, nth i maj 0).
Proof.
  unfold FlipRate.add_flips. revert fc s maj.
  induction i as [|i IH]; intros [|c fc] [|x s] [|m maj] H1 H2 H3;
    cbn in H1, H2, H3; try lia; cbn [combine map nth fst snd]; [reflexivity|].
  apply IH; lia.
Qed.

Lemma np_sum_cons (x : Z) (l : list Z) : Stats.np_sum (x :: l) = x + Stats.np_sum l.
Proof. reflexivity. Qed.

Lemma flip_count_nth (samples : list (list Z)) (maj init : list Z) (L i : nat) :
  Forall (fun s => length s = L) samples -> length maj = L -> length init = L ->
  (i < L)%nat ->
  length (fold_left (fun fc s => FlipRate.add_flips fc s maj) samples init) = L
  /\ nth i (fold_left (fun fc s => FlipRate.add_flips fc s maj) samples init) 0
     = nth i init 0
       + Stats.np_sum (map (fun s => Distance.neq (nth i s 0, nth i maj 0)) samples).
Proof.
  intros Hall Hmaj. revert init.
  induction Hall as [|s samples Hs _ IH]; intros init Hinit Hi; cbn [fold_left map].
  - split; [exact Hinit|]. cbn. lia.
  - destruct (IH (FlipRate.add_flips init s maj)
                 (add_flips_length _ _ _ L Hinit Hs Hmaj) Hi) as [E1 E2].
    split; [exact E1|]. rewrite E2, add_flips_nth, np_sum_cons by lia. lia.
Qed.

(** The members that differ from a bit [m] at position [i]. *)
Lemma mismatches_bits (samples : list (list Z)) (i : nat) (m : Z) :
  Forall (fun s => is_bit (nth i s 0)) samples -> is_bit m ->
  Stats.np_sum (map (fun s => Distance.neq (nth i s 0, m)) samples)
  = if m =? 1 then Z.of_nat (length samples) - Stats.np_sum (Stats.column samples i)
    else Stats.np_sum (Stats.column samples i).
Proof.
  intros Hall Hm. unfold Stats.column.
  induction Hall as [|s samples Hs _ IH].
  - destruct (m =? 1); reflexivity.
  - cbn [map length]. rewrite !np_sum_cons, IH, Nat2Z.inj_succ.
    destruct (neq_cases (nth i s 0) m) as [[E ->]|[E ->]];
      destruct (Z.eqb_spec m 1); destruct Hm, Hs; lia.
Qed.

Lemma column_sum_bounds (samples : list (list Z)) (i : nat) :
  Forall (fun s => is_bit (nth i s 0)) samples ->
  0 <= Stats.np_sum (Stats.column samples i) <= Z.of_nat (length samples).
Proof.
  intros H. unfold Stats.column.
  assert (Hb : Forall is_bit (map (fun s => nth i s 0) samples)).
  { rewrite Forall_forall in H. apply Forall_forall. intros b Hb.
    apply in_map_iff in Hb. destruct Hb as [s [<- Hs]]. apply H, Hs. }
  pose proof (np_sum_bits_bounds _ Hb) as B. rewrite length_map in B. exact B.
Qed.

Lemma bits_at (samples : list (list Z)) (L i : nat) :
  Forall (fun s => length s = L) samples -> Forall (Forall is_bit) samples ->
  (i < L)%nat -> Forall (fun s => is_bit (nth i s 0)) samples.
Proof.
  intros Hlen Hbits Hi. rewrite Forall_forall in *. intros s Hs.
  specialize (Hlen s Hs). specialize (Hbits s Hs). rewrite Forall_forall in Hbits.
  apply Hbits, nth_In. lia.
Qed.

(** With at most 2^53 members, the majority bit is 1 exactly when at least
    half of the members hold a 1. *)
Lemma ge_half_rate (F : Rounding) (law : rounding_law F) (ones : Z) (n : nat) :
  (0 < n)%nat -> Z.of_nat n <= 2 ^ 53 ->
  Stats.ge_half (rnd (inject_Z ones / inject_Z (Z.of_nat n)))
  = if Z.of_nat n <=? 2 * ones then 1 else 0.
Proof.
  intros Hn Hb. destruct (Z.leb_spec (Z.of_nat n) (2 * ones)) as [H|H].
  - apply ge_half_1, (rnd_ge_half F law), half_le_div; assumption.
  - unfold Stats.ge_half.
    destruct (Qle_bool (1 # 2) (rnd (inject_Z ones / inject_Z (Z.of_nat n)))) eqn:E;
      [|reflexivity].
    apply Qle_bool_iff in E. exfalso.
    exact (Qlt_not_le _ _ (rnd_lt_half F law _ (below_half_div ones n Hn Hb H)) E).
Qed.

Lemma nth_map_default {A B : Type} (f : A -> B) (l : list A) (i : nat) (da : A) (db : B) :
  (i < length l)%nat -> nth i (map f l) db = f (nth i l da).
Proof.
  intros H. rewrite (nth_indep _ db (f da)) by (now rewrite length_map).
  apply map_nth.
Qed.

Lemma flip_rate_spec (F : Rounding) (law : rounding_law F)
    (samples : list (list Z)) (L : nat) :
  samples <> [] -> Forall (fun s => length s = L) samples -> (0 < L)%nat ->
  Forall (Forall is_bit) samples -> Z.of_nat (length samples) <= 2 ^ 53 ->
  exists st,
    FlipRate.analyze_flip_rate samples = Ok st
    /\ length (FlipRate.flip_rate st) = L
    /\ length (FlipRate.majority_value st) = L
    /\ FlipRate.perfectly_stable st
       = FlipRate.count_true (map (fun r => Qeq_bool r 0) (FlipRate.flip_rate st))
    /\ forall i, (i < L)%nat ->
         let ones := Stats.np_sum (Stats.column samples i) in
         let n := Z.of_nat (length samples) in
         0 <= ones <= n
         /\ nth i (FlipRate.majority_value st) 0 = (if n <=? 2 * ones then 1 else 0)
         /\ nth i (FlipRate.flip_rate st) 0%Q
            = rnd (inject_Z (Z.min ones (n - ones)) / inject_Z n).
Proof.
  intros Hne Hlen HL Hbits Hn.
  pose proof (mean_axis0_rect F samples L Hne Hlen) as Hm.
  unfold FlipRate.analyze_flip_rate. rewrite Hm. cbv zeta.
  rewrite !length_map, length_seq.
  destruct (Nat.eqb_spec L 0) as [->|_]; [lia|].
  eexists. split; [reflexivity|]. cbn [FlipRate.flip_rate FlipRate.majority_value
                                       FlipRate.perfectly_stable].
  set (rates := map (fun i => rnd (inject_Z (Stats.np_sum (Stats.column samples i))
                                   / inject_Z (Z.of_nat (length samples)))) (seq 0 L)).
  set (maj := map Stats.ge_half rates).
  assert (Hmaj : length maj = L) by (unfold maj, rates; now rewrite !length_map, length_seq).
  assert (Hn0 : (0 < length samples)%nat)
    by (destruct samples; [contradiction|cbn; lia]).
  split.
  { rewrite length_map.
    apply (flip_count_nth samples maj (repeat 0 L) L 0 Hlen Hmaj (repeat_length 0 L) HL). }
  split; [exact Hmaj|]. split; [reflexivity|].
  intros i Hi. cbv zeta.
  pose proof (bits_at samples L i Hlen Hbits Hi) as Hcol.
  pose proof (column_sum_bounds samples i Hcol) as Hb.
  split; [exact Hb|].
  assert (Emaj : nth i maj 0
                 = if Z.of_nat (length samples)
                      <=? 2 * Stats.np_sum (Stats.column samples i) then 1 else 0).
  { unfold maj. rewrite (nth_map_default _ _ _ 0%Q)
      by (unfold rates; now rewrite length_map, length_seq).
    unfold rates. rewrite nth_map_seq by exact Hi.
    apply (ge_half_rate F law); assumption. }
  split; [exact Emaj|].
  destruct (flip_count_nth samples maj (repeat 0 L) L i Hlen Hmaj (repeat_length 0 L) Hi)
    as [Hfl Hfn].
  rewrite (nth_map_default _ _ _ 0) by (rewrite Hfl; exact Hi).
  rewrite Hfn, nth_repeat, Z.add_0_l.
  rewrite (mismatches_bits samples i (nth i maj 0) Hcol)
    by (rewrite Emaj; destruct (_ <=? _); [now right|now left]).
  rewrite Emaj.
  destruct (Z.leb_spec (Z.of_nat (length samples))
                       (2 * Stats.np_sum (Stats.column samples i))) as [H|H].
  - cbn [Z.eqb Pos.eqb]. f_equal. f_equal. f_equal. lia.
  - cbn [Z.eqb]. f_equal. f_equal. f_equal. lia.
Qed.

(** X10: for a cohort of at most 2^53 bit sequences of one positive
    length, the flip rate of a position is the double nearest to
    min(ones, n - ones) / n, the share of the members in the minority there;
    it never exceeds 1/2. *)
Theorem flip_rate_minority (F : Rounding) (law : rounding_law F)
    (samples : list (list Z)) (L : nat) :
  samples <> [] -> Forall (fun s => length s = L) samples -> (0 < L)%nat ->
  Forall (Forall is_bit) samples -> Z.of_nat (length samples) <= 2 ^ 53 ->
  exists st,
    FlipRate.analyze_flip_rate samples = Ok st
    /\ length (FlipRate.flip_rate st) = L
    /\ forall i, (i < L)%nat ->
         let ones := Stats.np_sum (Stats.column samples i) in
         let n := Z.of_nat (length samples) in
         nth i (FlipRate.flip_rate st) 0%Q
         = rnd (inject_Z (Z.min ones (n - ones)) / inject_Z n)
         /\ (0 <= nth i (FlipRate.flip_rate st) 0 <= 1 # 2)%Q.
Proof.
  intros Hne Hlen HL Hbits Hn.
  destruct (flip_rate_spec F law samples L Hne Hlen HL Hbits Hn)
    as (st & E & Hl & _ & _ & Hi).
  exists st. split; [exact E|]. split; [exact Hl|].
  intros i Hlt. cbv zeta. destruct (Hi i Hlt) as (Hb & _ & Hr).
  split; [exact Hr|]. rewrite Hr.
  assert (Hn0 : (0 < length samples)%nat)
    by (destruct samples; [contradiction|cbn; lia]).
  set (ones := Stats.np_sum (Stats.column samples i)) in *.
  set (n := length samples) in *.
  split.
  - apply (rnd_nonneg F law).
    apply (Qdiv_nat_bounds (Z.min ones (Z.of_nat n - ones)) n Hn0). lia.
  - rewrite <- (rnd_half F law). apply (rnd_monotone F law).
    destruct n as [|n']; [lia|].
    unfold Qle, Qdiv, Qmult, Qinv, inject_Z. cbn [Qnum Qden Z.of_nat].
    rewrite !Z.mul_1_r. cbn [Qnum Qden].
    assert (E' : Z.of_nat (S n') = Z.pos (Pos.of_succ_nat n')) by reflexivity.
    rewrite E' in *. lia.
Qed.

Lemma flip_rate_minority_witness :
  exists st,
    FlipRate.analyze_flip_rate (F := Binary64.binary64)
      [[1; 0; 1]; [1; 0; 0]; [0; 0; 1]] = Ok st
    /\ length (FlipRate.flip_rate st) = 3%nat
    /\ forall i, (i < 3)%nat ->
         let ones := Stats.np_sum (Stats.column [[1; 0; 1]; [1; 0; 0]; [0; 0; 1]] i) in
         let n := Z.of_nat (length [[1; 0; 1]; [1; 0; 0]; [0; 0; 1]]) in
         nth i (FlipRate.flip_rate st) 0%Q
         = Binary64.round64 (inject_Z (Z.min ones (n - ones)) / inject_Z n)
         /\ (0 <= nth i (FlipRate.flip_rate st) 0 <= 1 # 2)%Q.
Proof.
  apply (flip_rate_minority Binary64.binary64 binary64_law
           [[1; 0; 1]; [1; 0; 0]; [0; 0; 1]] 3).
  - discriminate.
  - repeat constructor.
  - lia.
  - repeat constructor; (now left) || (now right).
  - cbn. lia.
Defined.

Lemma count_true_le {A : Type} (p q : A -> bool) (l : list A) :
  (forall x, In x l -> p x = true -> q x = true) ->
  (FlipRate.count_true (map p l) <= FlipRate.count_true (map q l))%nat.
Proof.
  unfold FlipRate.count_true. induction l as [|x l IH]; intros H; [cbn; lia|].
  cbn [map filter].
  assert (IH' := IH (fun y Hy => H y (or_intror Hy))).
  pose proof (H x (or_introl eq_refl)) as Hx.
  destruct (p x), (q x); cbn [length]; try lia.
Qed.

Lemma count_true_compl {A : Type} (p q : A -> bool) (l : list A) :
  (forall x, q x = negb (p x)) ->
  (FlipRate.count_true (map p l) + FlipRate.count_true (map q l) = length l)%nat.
Proof.
  intros H. unfold FlipRate.count_true.
  induction l as [|x l IH]; [reflexivity|].
  cbn [map filter]. rewrite (H x). destruct (p x); cbn [negb length]; lia.
Qed.

Lemma count_true_all {A : Type} (p : A -> bool) (l : list A) :
  (forall x, In x l -> p x = true) -> FlipRate.count_true (map p l) = length l.
Proof.
  intros H. unfold FlipRate.count_true.
  induction l as [|x l IH]; [reflexivity|].
  cbn [map filter]. rewrite (H x (or_introl eq_refl)). cbn [length].
  rewrite IH; [reflexivity|]. intros y Hy. apply H. now right.
Qed.

Lemma mean_axis0_inv (F : Rounding) (samples : list (list Z)) (m : list Q) :
  Stats.mean_axis0 samples = Stats.Mean1 m ->
  samples <> [] /\ Forall (fun s => length s = length m) samples.
Proof.
  unfold Stats.mean_axis0. destruct samples as [|s rest]; [discriminate|].
  destruct (forallb _ rest) eqn:E; [|discriminate].
  intros H. injection H as <-. split; [discriminate|].
  rewrite length_map, length_seq. constructor; [reflexivity|].
  rewrite forallb_forall in E. apply Forall_forall. intros r Hr.
  apply Nat.eqb_eq, E, Hr.
Qed.

Lemma flip_count_length (samples : list (list Z)) (maj : list Z) (L : nat) :
  Forall (fun s => length s = L) samples -> length maj = L ->
  length (fold_left (fun fc s => FlipRate.add_flips fc s maj) samples (repeat 0 L)) = L.
Proof.
  intros Hall Hmaj.
  assert (G : forall init, length init = L ->
            length (fold_left (fun fc s => FlipRate.add_flips fc s maj) samples init) = L).
  { induction Hall as [|s l Hs _ IH]; intros init Hinit; cbn [fold_left]; [exact Hinit|].
    apply IH, add_flips_length; assumption. }
  apply G, repeat_length.
Qed.

(** What a successful [analyze_flip_rate] returns. *)
Lemma analyze_flip_rate_inv (F : Rounding) (samples : list (list Z))
    (st : FlipRate.flip_stats) :
  FlipRate.analyze_flip_rate samples = Ok st ->
  exists m,
    Stats.mean_axis0 samples = Stats.Mean1 m
    /\ (0 < length
              (map (fun c => rnd (inject_Z c / inject_Z (Z.of_nat (length samples))))
                   (fold_left (fun fc s => FlipRate.add_flips fc s (map Stats.ge_half m))
                              samples (repeat 0%Z (length m)))))%nat
    /\ st =
       (let rate :=
          map (fun c => rnd (inject_Z c / inject_Z (Z.of_nat (length samples))))
              (fold_left (fun fc s => FlipRate.add_flips fc s (map Stats.ge_half m))
                         samples (repeat 0 (length m))) in
        {| FlipRate.flip_rate := rate;
           FlipRate.stable_mask := map (fun r => Stats.Qltb r (rnd (1 # 10))) rate;
           FlipRate.majority_value := map Stats.ge_half m;
           FlipRate.perfectly_stable :=
             FlipRate.count_true (map (fun r => Qeq_bool r 0) rate);
           FlipRate.very_stable :=
             FlipRate.count_true (map (fun r => Stats.Qltb r (rnd (5 # 100))) rate);
           FlipRate.stable :=
             FlipRate.count_true (map (fun r => Stats.Qltb r (rnd (1 # 10))) rate);
           FlipRate.unstable :=
             FlipRate.count_true (map (fun r => Qle_bool (rnd (1 # 10)) r) rate) |}).
Proof.
  unfold FlipRate.analyze_flip_rate.
  destruct (Stats.mean_axis0 samples) as [| |m] eqn:Hm; try discriminate.
  cbv zeta. destruct (Nat.eqb_spec (length m) 0) as [|Hn]; [discriminate|].
  intros E. injection E as <-. exists m. split; [reflexivity|].
  split; [|reflexivity].
  destruct (mean_axis0_inv F samples m Hm) as [_ Hall].
  rewrite length_map, flip_count_length; [lia|exact Hall|apply length_map].
Qed.

(** X11: whatever the cohort, the classes that [analyze_flip_rate]
    counts fit together: every position is stable or unstable and not both
    ([stable + unstable = num_bits]), the perfectly stable positions are among
    the very stable ones and these among the stable ones, and the saved mask
    marks exactly the positions whose flip rate is below 0.1. *)
Theorem flip_classes (F : Rounding) (law : rounding_law F)
    (samples : list (list Z)) (st : FlipRate.flip_stats) :
  (0 < rnd (5 # 100))%Q ->
  FlipRate.analyze_flip_rate samples = Ok st ->
  let num_bits := length (FlipRate.flip_rate st) in
  (0 < num_bits)%nat
  /\ (FlipRate.stable st + FlipRate.unstable st = num_bits)%nat
  /\ (FlipRate.perfectly_stable st <= FlipRate.very_stable st)%nat
  /\ (FlipRate.very_stable st <= FlipRate.stable st)%nat
  /\ length (FlipRate.stable_mask st) = num_bits
  /\ FlipRate.stable st = FlipRate.count_true (FlipRate.stable_mask st)
  /\ (forall i, (i < num_bits)%nat ->
        nth i (FlipRate.stable_mask st) false = true
        <-> (nth i (FlipRate.flip_rate st) 0 < rnd (1 # 10))%Q).
Proof.
  intros Hpos E. cbv zeta.
  destruct (analyze_flip_rate_inv F samples st E) as (m & Hm & Hlen & ->).
  cbv zeta.
  cbn [FlipRate.flip_rate FlipRate.stable FlipRate.unstable FlipRate.perfectly_stable
       FlipRate.very_stable FlipRate.stable_mask].
  remember (map (fun c => rnd (inject_Z c / inject_Z (Z.of_nat (length samples))))
                (fold_left (fun fc s => FlipRate.add_flips fc s (map Stats.ge_half m))
                           samples (repeat 0 (length m)))) as rate eqn:Er.
  clear Er. split; [exact Hlen|].
  split.
  { apply count_true_compl. intros r. unfold Stats.Qltb.
    now rewrite negb_involutive. }
  split.
  { apply count_true_le. intros r _ H. apply Qeq_bool_iff in H.
    apply Qltb_lt. rewrite H. exact Hpos. }
  split.
  { apply count_true_le. intros r _ H. apply Qltb_lt in H. apply Qltb_lt.
    apply Qlt_le_trans with (y := rnd (5 # 100)); [exact H|].
    apply (rnd_monotone F law). unfold Qle. cbn. lia. }
  split; [apply length_map|]. split; [reflexivity|].
  intros i Hi.
  rewrite (nth_map_default _ _ _ 0%Q) by exact Hi.
  apply Qltb_lt.
Qed.

Lemma flip_classes_witness :
  exists st,
    FlipRate.analyze_flip_rate (F := Binary64.binary64)
      [[1; 0; 1]; [1; 0; 0]; [0; 0; 1]] = Ok st
    /\ (0 < length (FlipRate.flip_rate st))%nat
    /\ (FlipRate.stable st + FlipRate.unstable st
        = length (FlipRate.flip_rate st))%nat
    /\ (FlipRate.perfectly_stable st <= FlipRate.very_stable st)%nat
    /\ (FlipRate.very_stable st <= FlipRate.stable st)%nat
    /\ length (FlipRate.stable_mask st) = length (FlipRate.flip_rate st)
    /\ FlipRate.stable st = FlipRate.count_true (FlipRate.stable_mask st)
    /\ (forall i, (i < length (FlipRate.flip_rate st))%nat ->
          nth i (FlipRate.stable_mask st) false = true
          <-> (nth i (FlipRate.flip_rate st) 0 < Binary64.round64 (1 # 10))%Q).
Proof.
  eexists. split.
  - vm_compute. reflexivity.
  - apply (flip_classes Binary64.binary64 binary64_law
             [[1; 0; 1]; [1; 0; 0]; [0; 0; 1]]).
    + vm_compute. reflexivity.
    + vm_compute. reflexivity.
Defined.

(** ** Bit balance *)

Lemma count_true_filter {A : Type} (p : A -> bool) (l : list A) :
  FlipRate.count_true (map p l) = length (filter p l).
Proof.
  unfold FlipRate.count_true. induction l as [|x l IH]; [reflexivity|].
  cbn [map filter]. destruct (p x); cbn [length]; now rewrite IH.
Qed.

Lemma filter_map_comp {A B : Type} (p : B -> bool) (f : A -> B) (l : list A) :
  length (filter p (map f l)) = length (filter (fun x => p (f x)) l).
Proof.
  induction l as [|x l IH]; [reflexivity|].
  cbn [map filter]. destruct (p (f x)); cbn [length]; now rewrite IH.
Qed.

Lemma filter_length_ext_In {A : Type} (p q : A -> bool) (l : list A) :
  (forall x, In x l -> p x = q x) -> length (filter p l) = length (filter q l).
Proof.
  intros H. induction l as [|x l IH]; [reflexivity|].
  cbn [filter]. rewrite (H x (or_introl eq_refl)).
  pose proof (IH (fun y Hy => H y (or_intror Hy))) as IH'.
  destruct (q x); cbn [length]; now rewrite IH'.
Qed.

(** Three classes that exclude one another hold no more than the list. *)
Lemma count_true_disjoint3 {A : Type} (p q r : A -> bool) (l : list A) :
  (forall x, In x l -> p x = true -> q x = false /\ r x = false) ->
  (forall x, In x l -> q x = true -> r x = false) ->
  (FlipRate.count_true (map p l) + FlipRate.count_true (map q l)
   + FlipRate.count_true (map r l) <= length l)%nat.
Proof.
  unfold FlipRate.count_true. induction l as [|x l IH]; intros H1 H2; [cbn; lia|].
  assert (IH' := IH (fun y Hy => H1 y (or_intror Hy)) (fun y Hy => H2 y (or_intror Hy))).
  pose proof (H1 x (or_introl eq_refl)) as Hp.
  pose proof (H2 x (or_introl eq_refl)) as Hq.
  cbn [map filter].
  destruct (p x), (q x), (r x); cbn [length]; try lia.
  all: try (destruct (Hp eq_refl); discriminate).
  all: try (specialize (Hq eq_refl); discriminate).
Qed.

Lemma bits_sum_zero (c : list Z) :
  Forall is_bit c -> Stats.np_sum c = 0 <-> forallb (Z.eqb 0) c = true.
Proof.
  induction 1 as [|b c Hb Hc IH]; [cbn; tauto|].
  rewrite np_sum_cons. cbn [forallb]. rewrite andb_true_iff, <- IH, Z.eqb_eq.
  pose proof (np_sum_bits_bounds c Hc). destruct Hb; subst; lia.
Qed.

Lemma bits_sum_full (c : list Z) :
  Forall is_bit c ->
  Stats.np_sum c = Z.of_nat (length c) <-> forallb (Z.eqb 1) c = true.
Proof.
  induction 1 as [|b c Hb Hc IH]; [cbn; tauto|].
  rewrite np_sum_cons. cbn [forallb length].
  rewrite andb_true_iff, <- IH, Z.eqb_eq.
  pose proof (np_sum_bits_bounds c Hc). destruct Hb; subst; lia.
Qed.

Lemma Qdiv_nat_le (a b : Z) (n : nat) :
  (0 < n)%nat -> a <= b ->
  (inject_Z a / inject_Z (Z.of_nat n) <= inject_Z b / inject_Z (Z.of_nat n))%Q.
Proof.
  intros Hn Hab. destruct n as [|n']; [lia|].
  unfold Qle, Qdiv, Qmult, Qinv, inject_Z. cbn [Qnum Qden Z.of_nat].
  rewrite !Z.mul_1_r. cbn [Qnum Qden]. nia.
Qed.

Lemma Qdiv_nat_zero (n : nat) : (inject_Z 0 / inject_Z (Z.of_nat n) == 0)%Q.
Proof. unfold Qdiv. apply Qmult_0_l. Qed.

Lemma Qdiv_nat_one (n : nat) :
  (0 < n)%nat -> (inject_Z (Z.of_nat n) / inject_Z (Z.of_nat n) == 1)%Q.
Proof.
  intros Hn. apply Qmult_inv_r. unfold Qeq, inject_Z. cbn [Qnum Qden]. lia.
Qed.

(** When is the mean of a column of bits exactly 0, and when exactly 1. *)
Lemma rate_zero_iff (F : Rounding) (law : rounding_law F) (c : list Z) (n : nat) :
  Forall is_bit c -> length c = n -> (0 < n)%nat ->
  (0 < rnd (inject_Z 1 / inject_Z (Z.of_nat n)))%Q ->
  Qeq_bool (rnd (inject_Z (Stats.np_sum c) / inject_Z (Z.of_nat n))) 0
  = forallb (Z.eqb 0) c.
Proof.
  intros Hb Hl Hn Hpos. subst n. pose proof (np_sum_bits_bounds c Hb) as Hs.
  apply eq_true_iff_eq. rewrite Qeq_bool_iff, <- (bits_sum_zero c Hb). split.
  - intros E. destruct (Z.eq_dec (Stats.np_sum c) 0) as [|Hnz]; [assumption|].
    exfalso.
    assert (H : (0 < rnd (inject_Z (Stats.np_sum c) / inject_Z (Z.of_nat (length c))))%Q).
    { apply Qlt_le_trans with (1 := Hpos). apply (rnd_monotone F law).
      apply Qdiv_nat_le; [exact Hn|lia]. }
    rewrite E in H. exact (Qlt_irrefl 0 H).
  - intros ->. apply Qeq_trans with (y := rnd 0); [|apply (rnd_0 F law)].
    apply (rnd_Qeq F law), Qdiv_nat_zero.
Qed.

Lemma rate_one_iff (F : Rounding) (law : rounding_law F) (c : list Z) (n : nat) :
  Forall is_bit c -> length c = n -> (0 < n)%nat ->
  (rnd 1 == 1)%Q ->
  (rnd (inject_Z (Z.of_nat n - 1) / inject_Z (Z.of_nat n)) < 1)%Q ->
  Qeq_bool (rnd (inject_Z (Stats.np_sum c) / inject_Z (Z.of_nat n))) 1
  = forallb (Z.eqb 1) c.
Proof.
  intros Hb Hl Hn H1 Hlt. subst n. pose proof (np_sum_bits_bounds c Hb) as Hs.
  apply eq_true_iff_eq. rewrite Qeq_bool_iff, <- (bits_sum_full c Hb). split.
  - intros E.
    destruct (Z.eq_dec (Stats.np_sum c) (Z.of_nat (length c))) as [|Hnz]; [assumption|].
    exfalso.
    assert (H : (rnd (inject_Z (Stats.np_sum c) / inject_Z (Z.of_nat (length c))) < 1)%Q).
    { apply Qle_lt_trans with (2 := Hlt). apply (rnd_monotone F law).
      apply Qdiv_nat_le; [exact Hn|lia]. }
    rewrite E in H. exact (Qlt_irrefl 1 H).
  - intros ->. apply Qeq_trans with (y := rnd 1); [|exact H1].
    apply (rnd_Qeq F law), Qdiv_nat_one, Hn.
Qed.

(** X12: for a cohort of n bit sequences of one positive length, on a
    float grid that holds 1, does not round 1/n down to 0 and does not round
    (n-1)/n up to 1, [analyze_bit_balance] returns a rate between 0 and 1
    for every position; [bits_always_0] is the number of positions where
    every member holds 0, [bits_always_1] the number where every member
    holds 1, and no position is counted in two of the three classes. *)
Theorem bit_balance_classes (F : Rounding) (law : rounding_law F)
    (samples : list (list Z)) (L : nat) :
  samples <> [] -> Forall (fun s => length s = L) samples -> (0 < L)%nat ->
  Forall (Forall is_bit) samples ->
  (rnd 1 == 1)%Q ->
  (0 < rnd (inject_Z 1 / inject_Z (Z.of_nat (length samples))))%Q ->
  (rnd (inject_Z (Z.of_nat (length samples) - 1)
        / inject_Z (Z.of_nat (length samples))) < 1)%Q ->
  exists b,
    BitBalance.analyze_bit_balance samples = Ok b
    /\ length (BitBalance.per_bit_1_rate b) = L
    /\ (forall i, (i < L)%nat ->
          (0 <= nth i (BitBalance.per_bit_1_rate b) 0 <= 1)%Q)
    /\ BitBalance.bits_always_0 b
       = length (filter (fun i => forallb (Z.eqb 0) (Stats.column samples i)) (seq 0 L))
    /\ BitBalance.bits_always_1 b
       = length (filter (fun i => forallb (Z.eqb 1) (Stats.column samples i)) (seq 0 L))
    /\ (BitBalance.bits_always_0 b + BitBalance.bits_always_1 b
        + BitBalance.bits_balanced b <= L)%nat.
Proof.
  intros Hne Hlen HL Hbits H1 Hpos Hlt.
  pose proof (mean_axis0_rect F samples L Hne Hlen) as Hm.
  unfold BitBalance.analyze_bit_balance. rewrite Hm. cbv zeta.
  rewrite !length_map, length_seq.
  destruct (Nat.eqb_spec L 0) as [->|_]; [lia|].
  eexists. split; [reflexivity|].
  cbn [BitBalance.per_bit_1_rate BitBalance.bits_always_0 BitBalance.bits_always_1
       BitBalance.bits_balanced].
  assert (Hn0 : (0 < length samples)%nat)
    by (destruct samples; [contradiction|cbn; lia]).
  assert (Hcol : forall i, (i < L)%nat ->
            Forall is_bit (Stats.column samples i)
            /\ length (Stats.column samples i) = length samples).
  { intros i Hi. split; [|apply length_map].
    unfold Stats.column. apply Forall_map. exact (bits_at samples L i Hlen Hbits Hi). }
  set (rate := fun i => rnd (inject_Z (Stats.np_sum (Stats.column samples i))
                             / inject_Z (Z.of_nat (length samples)))).
  assert (Hrange : forall i, (i < L)%nat -> (0 <= rate i <= 1)%Q).
  { intros i Hi. apply (rnd_unit_interval F law _ H1).
    apply Qdiv_nat_bounds; [exact Hn0|].
    apply column_sum_bounds, (bits_at samples L i Hlen Hbits Hi). }
  split; [now rewrite length_map, length_seq|].
  split.
  { intros i Hi. rewrite nth_map_seq by exact Hi. exact (Hrange i Hi). }
  split.
  { rewrite count_true_filter, filter_map_comp. apply filter_length_ext_In.
    intros i Hi. apply in_seq in Hi. destruct (Hcol i ltac:(lia)) as [Hb Hl].
    apply (rate_zero_iff F law); [exact Hb|exact Hl|exact Hn0|exact Hpos]. }
  split.
  { rewrite count_true_filter, filter_map_comp. apply filter_length_ext_In.
    intros i Hi. apply in_seq in Hi. destruct (Hcol i ltac:(lia)) as [Hb Hl].
    apply (rate_one_iff F law); [exact Hb|exact Hl|exact Hn0|exact H1|exact Hlt]. }
  apply Nat.le_trans with (m := length (map rate (seq 0 L)));
    [|rewrite length_map, length_seq; lia].
  apply count_true_disjoint3.
  - intros r _ E. apply Qeq_bool_iff in E. split.
    + apply not_true_is_false. intros E1. apply Qeq_bool_iff in E1.
      rewrite E in E1. discriminate E1.
    + apply andb_false_iff. left. apply not_true_is_false. intros E1.
      apply Qltb_lt in E1. rewrite E in E1.
      apply (Qlt_not_le _ _ E1). apply (rnd_nonneg F law). discriminate.
  - intros r _ E. apply Qeq_bool_iff in E.
    apply andb_false_iff. right. apply not_true_is_false. intros E1.
    apply Qltb_lt in E1. rewrite E in E1.
    apply (Qlt_not_le _ _ E1). rewrite <- H1.
    apply (rnd_monotone F law). discriminate.
Qed.

Lemma bit_balance_classes_witness :
  exists b,
    BitBalance.analyze_bit_balance (F := Binary64.binary64)
      [[1; 0; 1; 0]; [1; 0; 0; 0]; [1; 0; 1; 1]] = Ok b
    /\ length (BitBalance.per_bit_1_rate b) = 4%nat
    /\ (forall i, (i < 4)%nat ->
          (0 <= nth i (BitBalance.per_bit_1_rate b) 0 <= 1)%Q)
    /\ BitBalance.bits_always_0 b
       = length (filter (fun i => forallb (Z.eqb 0)
                                    (Stats.column
                                       [[1; 0; 1; 0]; [1; 0; 0; 0]; [1; 0; 1; 1]] i))
                        (seq 0 4))
    /\ BitBalance.bits_always_1 b
       = length (filter (fun i => forallb (Z.eqb 1)
                                    (Stats.column
                                       [[1; 0; 1; 0]; [1; 0; 0; 0]; [1; 0; 1; 1]] i))
                        (seq 0 4))
    /\ (BitBalance.bits_always_0 b + BitBalance.bits_always_1 b
        + BitBalance.bits_balanced b <= 4)%nat.
Proof.
  apply (bit_balance_classes Binary64.binary64 binary64_law
           [[1; 0; 1; 0]; [1; 0; 0; 0]; [1; 0; 1; 1]] 4).
  - discriminate.
  - repeat constructor.
  - lia.
  - repeat constructor; (now left) || (now right).
  - vm_compute. reflexivity.
  - vm_compute. reflexivity.
  - vm_compute. reflexivity.
Defined.

(** ** Unstable bits *)

Lemma map_option_total {A B : Type} (f : A -> option B) (g : A -> B) (l : list A) :
  (forall x, In x l -> f x = Some (g x)) ->
  Unstable.map_option f l = Some (map g l).
Proof.
  induction l as [|x l IH]; intros H; [reflexivity|].
  cbn [Unstable.map_option map]. rewrite (H x (or_introl eq_refl)).
  rewrite IH; [reflexivity|]. intros y Hy. apply H. now right.
Qed.

Lemma take_in_range (s : list Z) (idx : list nat) :
  Forall (fun i => (i < length s)%nat) idx ->
  Unstable.take s idx = Some (map (fun i => nth i s 0) idx).
Proof.
  intros H. unfold Unstable.take.
  replace (forallb _ idx) with true; [reflexivity|].
  symmetry. apply forallb_forall. intros i Hi. apply Nat.ltb_lt.
  rewrite Forall_forall in H. exact (H i Hi).
Qed.

(** What a successful [find_unstable_bits] returns. *)
Lemma find_unstable_bits_inv (F : Rounding) (samples : list (list Z)) (threshold : Q)
    (idx : list nat) (means : list Q) :
  Unstable.find_unstable_bits samples threshold = Ok (idx, means) ->
  Stats.mean_axis0 samples = Stats.Mean1 means
  /\ samples <> []
  /\ Forall (fun s => length s = length means) samples
  /\ NoDup idx
  /\ forall i, In i idx
               <-> (i < length means)%nat
                   /\ (threshold < nth i means 0)%Q
                   /\ (nth i means 0 < rnd (1 - threshold))%Q.
Proof.
  unfold Unstable.find_unstable_bits.
  destruct (Stats.mean_axis0 samples) as [| |m] eqn:Hm; try discriminate.
  cbv zeta. intros E. injection E as <- <-.
  destruct (mean_axis0_inv F samples m Hm) as [Hne Hall].
  split; [reflexivity|]. split; [exact Hne|]. split; [exact Hall|].
  split; [apply where_true_NoDup|].
  intros i. rewrite where_true_In, length_map. split.
  - intros [Hi H]. split; [exact Hi|].
    rewrite (nth_map_default _ _ _ 0%Q) in H by exact Hi.
    apply andb_true_iff in H. destruct H as [Ha Hb].
    split; now apply Qltb_lt.
  - intros (Hi & Ha & Hb). split; [exact Hi|].
    rewrite (nth_map_default _ _ _ 0%Q) by exact Hi.
    apply andb_true_iff. split; now apply Qltb_lt.
Qed.

(** X13: whenever [find_unstable_bits] returns, every index it lists is
    a position of every sample, no index is listed twice, the listed
    positions are exactly those whose mean lies strictly between the
    threshold and 1 - threshold, and [extract_unstable_bits] with these
    indices raises no [IndexError]: it keeps, for every sample, the bits at
    the listed positions in the listed order. *)
Theorem extract_unstable_bits_total (F : Rounding) (samples : list (list Z))
    (threshold : Q) (idx : list nat) (means : list Q) :
  Unstable.find_unstable_bits samples threshold = Ok (idx, means) ->
  NoDup idx
  /\ (forall i, In i idx
                <-> (i < length means)%nat
                    /\ (threshold < nth i means 0)%Q
                    /\ (nth i means 0 < rnd (1 - threshold))%Q)
  /\ Forall (fun s => length s = length means) samples
  /\ Unstable.extract_unstable_bits samples idx
     = Some (map (fun s => map (fun i => nth i s 0) idx) samples).
Proof.
  intros E.
  destruct (find_unstable_bits_inv F samples threshold idx means E)
    as (_ & _ & Hall & Hnd & Hin).
  split; [exact Hnd|]. split; [exact Hin|]. split; [exact Hall|].
  unfold Unstable.extract_unstable_bits. apply map_option_total.
  intros s Hs. apply take_in_range. apply Forall_forall. intros i Hi.
  rewrite Forall_forall in Hall. rewrite (Hall s Hs).
  apply Hin in Hi. tauto.
Qed.

Lemma extract_unstable_bits_total_witness :
  exists idx means,
    Unstable.find_unstable_bits (F := Binary64.binary64)
      [[1; 0; 1; 0]; [1; 0; 0; 0]; [1; 0; 1; 1]] (Binary64.round64 (1 # 10))
    = Ok (idx, means)
    /\ NoDup idx
    /\ (forall i, In i idx
                  <-> (i < length means)%nat
                      /\ (Binary64.round64 (1 # 10) < nth i means 0)%Q
                      /\ (nth i means 0
                          < Binary64.round64 (1 - Binary64.round64 (1 # 10)))%Q)
    /\ Forall (fun s => length s = length means)
              [[1; 0; 1; 0]; [1; 0; 0; 0]; [1; 0; 1; 1]]%Z
    /\ Unstable.extract_unstable_bits
         [[1; 0; 1; 0]; [1; 0; 0; 0]; [1; 0; 1; 1]] idx
       = Some (map (fun s => map (fun i => nth i s 0) idx)
                   [[1; 0; 1; 0]; [1; 0; 0; 0]; [1; 0; 1; 1]]).
Proof.
  eexists. eexists. split.
  - vm_compute. reflexivity.
  - apply (extract_unstable_bits_total Binary64.binary64
             [[1; 0; 1; 0]; [1; 0; 0; 0]; [1; 0; 1; 1]] (Binary64.round64 (1 # 10))).
    vm_compute. reflexivity.
Defined.

Lemma bits_sum_pos_In (c : list Z) :
  Forall is_bit c -> Stats.np_sum c <> 0 -> In 1 c.
Proof.
  induction 1 as [|b c Hb Hc IH]; [cbn; congruence|].
  rewrite np_sum_cons. intros H. destruct Hb as [->| ->]; [|now left].
  right. apply IH. lia.
Qed.

Lemma bits_sum_short_In (c : list Z) :
  Forall is_bit c -> Stats.np_sum c <> Z.of_nat (length c) -> In 0 c.
Proof.
  induction 1 as [|b c Hb Hc IH]; [cbn; congruence|].
  rewrite np_sum_cons. cbn [length]. intros H.
  destruct Hb as [->| ->]; [now left|]. right. apply IH. lia.
Qed.

(** X14: on a float grid that holds 1, with a threshold that is not
    negative, a position that [find_unstable_bits] lists for a cohort of bit
    sequences is one where the members disagree: some member holds 0 there
    and some member holds 1. *)
Theorem unstable_bits_disagree (F : Rounding) (law : rounding_law F)
    (samples : list (list Z)) (threshold : Q) (idx : list nat) (means : list Q) :
  Forall (Forall is_bit) samples ->
  (rnd 1 == 1)%Q -> (0 <= threshold)%Q ->
  Unstable.find_unstable_bits samples threshold = Ok (idx, means) ->
  forall i, In i idx ->
    exists s0 s1, In s0 samples /\ In s1 samples
                  /\ nth i s0 0 = 0 /\ nth i s1 0 = 1.
Proof.
  intros Hbits H1 Hth E i Hi.
  destruct (find_unstable_bits_inv F samples threshold idx means E)
    as (Hm & Hne & Hall & _ & Hin).
  apply Hin in Hi. destruct Hi as (Hlt & Hlo & Hhi).
  rewrite (mean_axis0_rect F samples (length means) Hne Hall) in Hm.
  injection Hm as Hm.
  assert (Hn0 : (0 < length samples)%nat)
    by (destruct samples; [contradiction|cbn; lia]).
  assert (Hr : nth i means 0%Q
               = rnd (inject_Z (Stats.np_sum (Stats.column samples i))
                      / inject_Z (Z.of_nat (length samples)))).
  { rewrite <- Hm at 1.
    exact (nth_map_seq
             (fun i => rnd (inject_Z (Stats.np_sum (Stats.column samples i))
                            / inject_Z (Z.of_nat (length samples))))
             (length means) i 0%Q Hlt). }
  rewrite Hr in Hlo, Hhi.
  pose proof (bits_at samples (length means) i Hall Hbits Hlt) as Hcol.
  assert (Hcb : Forall is_bit (Stats.column samples i))
    by (unfold Stats.column; apply Forall_map; exact Hcol).
  assert (Hcl : length (Stats.column samples i) = length samples) by apply length_map.
  assert (Hex : forall v, In v (Stats.column samples i) ->
                  exists s, In s samples /\ nth i s 0 = v).
  { intros v Hv. unfold Stats.column in Hv. apply in_map_iff in Hv.
    destruct Hv as (s & Hs & Hin'). exists s. tauto. }
  destruct (Hex 0) as (s0 & Hs0 & Hv0).
  { apply bits_sum_short_In; [exact Hcb|]. rewrite Hcl. intros Hsum.
    rewrite Hsum in Hhi. apply (Qlt_not_le _ _ Hhi).
    apply (rnd_monotone F law).
    rewrite (Qdiv_nat_one _ Hn0).
    unfold Qle, Qminus, Qplus, Qopp in *. cbn [Qnum Qden] in *. nia. }
  destruct (Hex 1) as (s1 & Hs1 & Hv1).
  { apply bits_sum_pos_In; [exact Hcb|]. intros Hsum.
    rewrite Hsum in Hlo. apply (Qlt_not_le _ _ Hlo).
    apply Qle_trans with (y := 0%Q); [|exact Hth].
    rewrite <- (rnd_0 F law). apply (rnd_monotone F law).
    rewrite Qdiv_nat_zero. apply Qle_refl. }
  exists s0, s1. tauto.
Qed.

Lemma unstable_bits_disagree_witness :
  exists s0 s1,
    In s0 [[1; 0; 1; 0]; [1; 0; 0; 0]; [1; 0; 1; 1]]
    /\ In s1 [[1; 0; 1; 0]; [1; 0; 0; 0]; [1; 0; 1; 1]]
    /\ nth 2 s0 0 = 0 /\ nth 2 s1 0 = 1.
Proof.
  apply (unstable_bits_disagree Binary64.binary64 binary64_law
           [[1; 0; 1; 0]; [1; 0; 0; 0]; [1; 0; 1; 1]] (Binary64.round64 (1 # 10))
           [2%nat; 3%nat]
           (snd (match Unstable.find_unstable_bits (F := Binary64.binary64)
                         [[1; 0; 1; 0]; [1; 0; 0; 0]; [1; 0; 1; 1]]
                         (Binary64.round64 (1 # 10))
                 with Ok p => p | Raise _ => ([], []) end))).
  - repeat constructor; (now left) || (now right).
  - vm_compute. reflexivity.
  - vm_compute. discriminate.
  - vm_compute. reflexivity.
  - left. reflexivity.
Defined.

(** ** Inter-cohort distances after debiasing *)

Lemma neq_xor2 (x y m1 m2 : Z) :
  Distance.neq (Z.lxor x m1, Z.lxor y m2)
  = Distance.neq (Z.lxor x (Z.lxor m1 m2), y).
Proof.
  unfold Distance.neq. cbn [fst snd].
  destruct (Z.eqb_spec (Z.lxor x m1) (Z.lxor y m2)) as [E|E];
    destruct (Z.eqb_spec (Z.lxor x (Z.lxor m1 m2)) y) as [E'|E']; try reflexivity.
  - exfalso. apply E'. rewrite <- Z.lxor_assoc, E, Z.lxor_assoc.
    now rewrite Z.lxor_nilpotent, Z.lxor_0_r.
  - exfalso. apply E. rewrite <- E', <- Z.lxor_assoc, Z.lxor_assoc.
    now rewrite Z.lxor_nilpotent, Z.lxor_0_r.
Qed.

Lemma count_neq_xor2 (a b m1 m2 : list Z) :
  length a = length b -> length m1 = length a -> length m2 = length a ->
  Distance.count_neq (map (fun p => Z.lxor (fst p) (snd p)) (combine a m1))
                     (map (fun p => Z.lxor (fst p) (snd p)) (combine b m2))
  = Distance.count_neq
      (map (fun p => Z.lxor (fst p) (snd p))
           (combine a (map (fun p => Z.lxor (fst p) (snd p)) (combine m1 m2))))
      b.
Proof.
  revert b m1 m2.
  induction a as [|x a IH]; intros [|y b] [|u m1] [|v m2] Hb H1 H2;
    cbn [length] in *; try discriminate; [reflexivity|].
  cbn [combine map fst snd]. rewrite !count_neq_cons, neq_xor2.
  rewrite IH by lia. reflexivity.
Qed.

Lemma hamming_distance_xor2 (F : Rounding) (a b m1 m2 : list Z) :
  length a = length b -> length m1 = length a -> length m2 = length a ->
  Distance.hamming_distance
    (map (fun p => Z.lxor (fst p) (snd p)) (combine a m1))
    (map (fun p => Z.lxor (fst p) (snd p)) (combine b m2))
  = Distance.hamming_distance
      (map (fun p => Z.lxor (fst p) (snd p))
           (combine a (map (fun p => Z.lxor (fst p) (snd p)) (combine m1 m2))))
      b.
Proof.
  intros Hb H1 H2. unfold Distance.hamming_distance.
  rewrite !length_map, !length_combine, !length_map, !length_combine.
  replace (Nat.min (Nat.min (length a) (length m1)) (Nat.min (length b) (length m2)))
    with (length a) by lia.
  replace (Nat.min (Nat.min (length a) (Nat.min (length m1) (length m2))) (length b))
    with (length a) by lia.
  rewrite !firstn_all2
    by (rewrite ?length_map, ?length_combine, ?length_map, ?length_combine; lia).
  now rewrite count_neq_xor2.
Qed.

(** X15: when both cohorts are debiased, each with its own mask, every
    inter-cohort distance is the one obtained by XORing the first cohort
    alone with the XOR of the two masks: a position set in both masks
    cancels. With one mask for both cohorts the inter-cohort distances do not
    change at all. *)
Theorem compute_inter_hd_debiased (F : Rounding)
    (card1 card2 : list (list Z)) (mask1 mask2 : list Z) (L : nat) :
  Forall (fun s => length s = L) card1 -> Forall (fun s => length s = L) card2 ->
  length mask1 = L -> length mask2 = L ->
  exists d1 d2 d12,
    Debias.apply_xor_mask card1 mask1 = Ok d1
    /\ Debias.apply_xor_mask card2 mask2 = Ok d2
    /\ Debias.bitwise_xor mask1 mask2
       = Ok (map (fun p => Z.lxor (fst p) (snd p)) (combine mask1 mask2))
    /\ Debias.apply_xor_mask card1
         (map (fun p => Z.lxor (fst p) (snd p)) (combine mask1 mask2)) = Ok d12
    /\ Distance.compute_inter_hd d1 d2 = Distance.compute_inter_hd d12 card2
    /\ (mask1 = mask2 ->
        Distance.compute_inter_hd d1 d2 = Distance.compute_inter_hd card1 card2).
Proof.
  intros H1 H2 Hm1 Hm2.
  set (m12 := map (fun p => Z.lxor (fst p) (snd p)) (combine mask1 mask2)).
  assert (Hm12 : length m12 = L)
    by (unfold m12; rewrite length_map, length_combine; lia).
  assert (Hle : forall (card : list (list Z)) (m : list Z),
            Forall (fun s => length s = L) card -> length m = L ->
            Forall (fun s => (length s <= length m)%nat) card).
  { intros card m Hc Hm. apply Forall_impl with (2 := Hc). intros s Hs. lia. }
  eexists. eexists. eexists.
  split; [apply apply_xor_mask_rows, Hle; assumption|].
  split; [apply apply_xor_mask_rows, Hle; assumption|].
  split; [unfold Debias.bitwise_xor; rewrite Hm1, Hm2, Nat.eqb_refl; reflexivity|].
  split; [apply apply_xor_mask_rows, Hle; assumption|].
  assert (G : forall (ma mb : list Z) (mc : list Z -> list Z),
            (forall a b, length a = L -> length b = L ->
               Distance.hamming_distance
                 (map (fun p => Z.lxor (fst p) (snd p)) (combine a ma))
                 (map (fun p => Z.lxor (fst p) (snd p)) (combine b mb))
               = Distance.hamming_distance (mc a) b) ->
            Distance.compute_inter_hd
              (map (fun s => map (fun p => Z.lxor (fst p) (snd p)) (combine s ma)) card1)
              (map (fun s => map (fun p => Z.lxor (fst p) (snd p)) (combine s mb)) card2)
            = Distance.compute_inter_hd (map mc card1) card2).
  { intros ma mb mc Hd. unfold Distance.compute_inter_hd.
    rewrite !flat_map_concat_map, !map_map. f_equal.
    apply map_ext_in. intros a Ha. rewrite map_map.
    apply map_ext_in. intros b Hb.
    rewrite Forall_forall in H1, H2. apply Hd; [apply H1|apply H2]; assumption. }
  split.
  - apply (G mask1 mask2
             (fun a => map (fun p => Z.lxor (fst p) (snd p)) (combine a m12))).
    intros a b Ha Hb. apply hamming_distance_xor2; lia.
  - intros <-. rewrite (G mask1 mask1 (fun a => a)); [now rewrite map_id|].
    intros a b Ha Hb. apply hamming_distance_xor; lia.
Qed.

Lemma compute_inter_hd_debiased_witness :
  exists d1 d2 d12,
    Debias.apply_xor_mask [[1; 0; 1]; [0; 0; 0]] [0; 1; 1] = Ok d1
    /\ Debias.apply_xor_mask [[1; 1; 1]; [0; 1; 0]] [1; 1; 0] = Ok d2
    /\ Debias.bitwise_xor [0; 1; 1] [1; 1; 0]
       = Ok (map (fun p => Z.lxor (fst p) (snd p)) (combine [0; 1; 1] [1; 1; 0]))
    /\ Debias.apply_xor_mask [[1; 0; 1]; [0; 0; 0]]
         (map (fun p => Z.lxor (fst p) (snd p)) (combine [0; 1; 1] [1; 1; 0])) = Ok d12
    /\ Distance.compute_inter_hd (F := Binary64.binary64) d1 d2
       = Distance.compute_inter_hd (F := Binary64.binary64) d12 [[1; 1; 1]; [0; 1; 0]]
    /\ ([0; 1; 1] = [1; 1; 0] ->
        Distance.compute_inter_hd (F := Binary64.binary64) d1 d2
        = Distance.compute_inter_hd (F := Binary64.binary64)
            [[1; 0; 1]; [0; 0; 0]] [[1; 1; 1]; [0; 1; 0]]).
Proof.
  apply (compute_inter_hd_debiased Binary64.binary64
           [[1; 0; 1]; [0; 0; 0]] [[1; 1; 1]; [0; 1; 0]] [0; 1; 1] [1; 1; 0] 3).
  - repeat constructor.
  - repeat constructor.
  - reflexivity.
  - reflexivity.
Defined.

(** ** A cohort that is too heavy to debias *)

Lemma py_int_negative (x : Q) :
  (x <= -1)%Q -> Z.quot (Qnum x) (Zpos (Qden x)) < 0.
Proof.
  destruct x as [n d]. unfold Qle. cbn [Qnum Qden]. intros H.
  assert (Hn : Z.pos d <= - n) by lia.
  replace n with (- - n) by lia. rewrite Z.quot_opp_l by lia.
  rewrite Z.quot_div_nonneg by lia.
  pose proof (Z.div_le_lower_bound (- n) (Z.pos d) 1 ltac:(lia) ltac:(lia)). lia.
Qed.

(** X16: a cohort whose mean weight exceeds 1/2 by so much that
    [(0.5 - current_hw) * len(mean_per_bit)] is -1 or less cannot be
    debiased: the number of positions to draw is negative, the draw raises
    [ValueError] and no mask is returned. The global generator has been
    seeded with 42 by then. *)
Theorem create_xor_mask_overweight (R : Debias.RandomState)
    (law : Debias.permutation_law R) (F : Rounding)
    (samples : list (list Z)) (m : list Q) (current_hw : Q) (g : Debias.rng) :
  Stats.mean_axis0 samples = Stats.Mean1 m ->
  Stats.np_mean m = Num current_hw ->
  (rnd (rnd ((1 # 2) - current_hw) * inject_Z (Z.of_nat (length m))) <= -1)%Q ->
  Debias.create_xor_mask samples g = (Raise ValueError, Debias.seed 42).
Proof.
  intros Hm Hhw Hneg.
  pose proof (create_xor_mask_cases R law F samples m g Hm) as Hc.
  cbv zeta in Hc. rewrite (flip_budget_num F m current_hw Hhw) in Hc.
  cbv zeta in Hc. pose proof (py_int_negative _ Hneg) as Hq.
  destruct Hc as [[_ Hr]|[Hpos _]]; [exact Hr|lia].
Qed.

Lemma create_xor_mask_overweight_witness :
  Debias.create_xor_mask (R := MT19937.mt19937) (F := Binary64.binary64)
    [[1; 1; 1; 1]; [1; 1; 0; 1]] (MT19937.mt19937_seed 0)
  = (Raise ValueError, Debias.seed (RandomState := MT19937.mt19937) 42).
Proof.
  eapply (create_xor_mask_overweight MT19937.mt19937 mt19937_law Binary64.binary64
            [[1; 1; 1; 1]; [1; 1; 0; 1]]).
  - vm_compute. reflexivity.
  - vm_compute. reflexivity.
  - vm_compute. discriminate.
Defined.

(** ** A device that always powers up the same *)

Lemma column_identical (samples : list (list Z)) (s : list Z) (i : nat) :
  Forall (fun s' => s' = s) samples ->
  Stats.np_sum (Stats.column samples i) = Z.of_nat (length samples) * nth i s 0.
Proof.
  unfold Stats.column. induction 1 as [|s' l Hs _ IH]; [reflexivity|].
  subst s'. cbn [map]. rewrite np_sum_cons, IH. cbn [length]. lia.
Qed.

(** X17: for a cohort of at most 2^53 copies of one bit sequence of
    positive length, on a float grid where 0.05 is above 0,
    [analyze_flip_rate] returns that sequence as majority value and a flip
    rate of 0 at every position; every position is counted as perfectly
    stable, very stable and stable, and none as unstable. *)
Theorem flip_rate_identical (F : Rounding) (law : rounding_law F)
    (samples : list (list Z)) (s : list Z) :
  samples <> [] -> Forall (fun s' => s' = s) samples ->
  (0 < length s)%nat -> Forall is_bit s ->
  Z.of_nat (length samples) <= 2 ^ 53 ->
  (0 < rnd (5 # 100))%Q ->
  exists st,
    FlipRate.analyze_flip_rate samples = Ok st
    /\ FlipRate.majority_value st = s
    /\ length (FlipRate.flip_rate st) = length s
    /\ Forall (fun r => (r == 0)%Q) (FlipRate.flip_rate st)
    /\ FlipRate.perfectly_stable st = length s
    /\ FlipRate.very_stable st = length s
    /\ FlipRate.stable st = length s
    /\ FlipRate.unstable st = O.
Proof.
  intros Hne Hsame HL Hbits Hn Hpos.
  assert (Hlen : Forall (fun s' => length s' = length s) samples)
    by (apply Forall_impl with (2 := Hsame); intros s' ->; reflexivity).
  assert (Hb : Forall (Forall is_bit) samples)
    by (apply Forall_impl with (2 := Hsame); intros s' ->; exact Hbits).
  destruct (flip_rate_spec F law samples (length s) Hne Hlen HL Hb Hn)
    as (st & E & Hl & Hlm & _ & Hi).
  assert (Hn0 : (0 < length samples)%nat)
    by (destruct samples; [contradiction|cbn; lia]).
  assert (Hsi : forall i, (i < length s)%nat -> is_bit (nth i s 0)).
  { intros i Hlt. rewrite Forall_forall in Hbits. apply Hbits, nth_In, Hlt. }
  assert (Hzero : Forall (fun r => (r == 0)%Q) (FlipRate.flip_rate st)).
  { apply Forall_forall. intros r Hr.
    destruct (In_nth _ _ 0%Q Hr) as (i & Hlt & <-). rewrite Hl in Hlt.
    destruct (Hi i Hlt) as (_ & _ & ->). cbv zeta.
    rewrite (column_identical samples s i Hsame).
    apply Qeq_trans with (y := rnd 0); [|apply (rnd_0 F law)].
    apply (rnd_Qeq F law).
    replace (Z.min _ _) with 0 by (destruct (Hsi i Hlt) as [-> | ->]; lia).
    apply Qdiv_nat_zero. }
  exists st. split; [exact E|].
  split.
  { apply nth_ext with (d := 0) (d' := 0); [exact Hlm|].
    intros i Hlt. rewrite Hlm in Hlt. destruct (Hi i Hlt) as (_ & -> & _).
    cbv zeta. rewrite (column_identical samples s i Hsame).
    destruct (Hsi i Hlt) as [-> | ->].
    - destruct (Z.leb_spec (Z.of_nat (length samples))
                           (2 * (Z.of_nat (length samples) * 0))); [lia|reflexivity].
    - destruct (Z.leb_spec (Z.of_nat (length samples))
                           (2 * (Z.of_nat (length samples) * 1))); [reflexivity|lia]. }
  split; [exact Hl|]. split; [exact Hzero|].
  destruct (analyze_flip_rate_inv F samples st E) as (m & _ & _ & Est).
  cbv zeta in Est. rewrite Est in Hzero, Hl |- *.
  cbn [FlipRate.flip_rate FlipRate.stable FlipRate.unstable FlipRate.perfectly_stable
       FlipRate.very_stable] in Hzero, Hl |- *.
  remember (map (fun c => rnd (inject_Z c / inject_Z (Z.of_nat (length samples))))
                (fold_left (fun fc s => FlipRate.add_flips fc s (map Stats.ge_half m))
                           samples (repeat 0 (length m)))) as rate eqn:Er.
  clear Er. rewrite Forall_forall in Hzero.
  assert (H10 : (0 < rnd (1 # 10))%Q).
  { apply Qlt_le_trans with (1 := Hpos). apply (rnd_monotone F law).
    unfold Qle. cbn. lia. }
  assert (Hst : FlipRate.count_true (map (fun r => Stats.Qltb r (rnd (1 # 10))) rate)
                = length s).
  { rewrite <- Hl. apply count_true_all. intros r Hr. apply Qltb_lt.
    rewrite (Hzero r Hr). exact H10. }
  split.
  { rewrite <- Hl. apply count_true_all. intros r Hr.
    apply Qeq_bool_iff, Hzero, Hr. }
  split.
  { rewrite <- Hl. apply count_true_all. intros r Hr. apply Qltb_lt.
    rewrite (Hzero r Hr). exact Hpos. }
  split; [exact Hst|].
  pose proof (count_true_compl (fun r => Qle_bool (rnd (1 # 10)) r)
                (fun r => Stats.Qltb r (rnd (1 # 10))) rate
                (fun r => eq_refl)) as Hc.
  lia.
Qed.

Lemma flip_rate_identical_witness :
  exists st,
    FlipRate.analyze_flip_rate (F := Binary64.binary64)
      [[1; 0; 1; 1]; [1; 0; 1; 1]; [1; 0; 1; 1]] = Ok st
    /\ FlipRate.majority_value st = [1; 0; 1; 1]
    /\ length (FlipRate.flip_rate st) = length [1; 0; 1; 1]
    /\ Forall (fun r => (r == 0)%Q) (FlipRate.flip_rate st)
    /\ FlipRate.perfectly_stable st = length [1; 0; 1; 1]
    /\ FlipRate.very_stable st = length [1; 0; 1; 1]
    /\ FlipRate.stable st = length [1; 0; 1; 1]
    /\ FlipRate.unstable st = O.
Proof.
  apply (flip_rate_identical Binary64.binary64 binary64_law
           [[1; 0; 1; 1]; [1; 0; 1; 1]; [1; 0; 1; 1]] [1; 0; 1; 1]).
  - discriminate.
  - repeat constructor.
  - cbn. lia.
  - repeat constructor; (now left) || (now right).
  - cbn. lia.
  - vm_compute. reflexivity.
Defined.

(** ** Cleaning *)

Lemma matches_at_search (t : list ascii) :
  Cleaning.matches_at t = true -> Cleaning.search t = Some O.
Proof. intros H. destruct t; cbn [Cleaning.search]; now rewrite H. Qed.

Lemma matches_at_nil : Cleaning.matches_at [] = false.
Proof. reflexivity. Qed.

Lemma search_spec (t : list ascii) :
  match Cleaning.search t with
  | Some n =>
      (n <= length t)%nat
      /\ Cleaning.matches_at (skipn n t) = true
      /\ forall k, (k < n)%nat -> Cleaning.matches_at (skipn k t) = false
  | None => forall k, Cleaning.matches_at (skipn k t) = false
  end.
Proof.
  induction t as [|c r IH].
  - cbn [Cleaning.search]. rewrite matches_at_nil. intros k.
    rewrite skipn_nil. reflexivity.
  - cbn [Cleaning.search].
    destruct (Cleaning.matches_at (c :: r)) eqn:E.
    + split; [cbn; lia|]. split; [exact E|]. intros k Hk. lia.
    + destruct (Cleaning.search r) as [n|]; cbn [option_map].
      * destruct IH as (Hn & Hm & Hk). split; [cbn [length]; lia|].
        split; [exact Hm|]. intros [|k] Hlt; [exact E|].
        cbn [skipn]. apply Hk. lia.
      * intros [|k]; [exact E|]. cbn [skipn]. apply IH.
Qed.

Lemma clean_file_matches (text : list ascii) :
  match Cleaning.clean_file text with
  | Some cleaned => Cleaning.matches_at cleaned = true
  | None => True
  end.
Proof.
  unfold Cleaning.clean_file. pose proof (search_spec text) as H.
  destruct (Cleaning.search text) as [n|]; cbn [option_map]; [tauto|exact I].
Qed.

(** X18: [clean_file] cuts the text at the start of the leftmost place
    where four two-digit hexadecimal groups separated by single spaces
    begin: what it writes is a suffix of the text that starts with such
    groups, nothing before the cut starts such groups, and cleaning the
    result again changes nothing. When no place matches, the file is left as
    it is. *)
Theorem clean_file_leftmost (text : list ascii) :
  match Cleaning.clean_file text with
  | Some cleaned =>
      exists garbage,
        text = garbage ++ cleaned
        /\ Cleaning.matches_at cleaned = true
        /\ (forall k, (k < length garbage)%nat ->
              Cleaning.matches_at (skipn k text) = false)
        /\ Cleaning.clean_file cleaned = Some cleaned
  | None => forall k, Cleaning.matches_at (skipn k text) = false
  end.
Proof.
  unfold Cleaning.clean_file. pose proof (search_spec text) as H.
  destruct (Cleaning.search text) as [n|]; cbn [option_map]; [|exact H].
  destruct H as (Hn & Hm & Hk). exists (firstn n text).
  split; [symmetry; apply firstn_skipn|]. split; [exact Hm|].
  split; [intros k Hlt; apply Hk; rewrite length_firstn in Hlt; lia|].
  rewrite (matches_at_search _ Hm). reflexivity.
Qed.

Lemma is_hex_digit (c : ascii) :
  Cleaning.is_hex c = true -> exists d, Decoder.digit16 c = Some d.
Proof.
  unfold Cleaning.is_hex. destruct (Decoder.digit16 c) as [d|]; [|discriminate].
  intros _. now exists d.
Qed.

Lemma matches_at_inv (t : list ascii) :
  Cleaning.matches_at t = true ->
  exists a1 a2 b1 b2 c1 c2 d1 d2 rest x1 x2 y1 y2 z1 z2 w1 w2,
    t = [a1; a2; Decoder.SP; b1; b2; Decoder.SP; c1; c2; Decoder.SP; d1; d2] ++ rest
    /\ Decoder.digit16 a1 = Some x1 /\ Decoder.digit16 a2 = Some x2
    /\ Decoder.digit16 b1 = Some y1 /\ Decoder.digit16 b2 = Some y2
    /\ Decoder.digit16 c1 = Some z1 /\ Decoder.digit16 c2 = Some z2
    /\ Decoder.digit16 d1 = Some w1 /\ Decoder.digit16 d2 = Some w2.
Proof.
  destruct t as [|a1 [|a2 [|s1 [|b1 [|b2 [|s2 [|c1 [|c2 [|s3 [|d1 [|d2 rest]]]]]]]]]]];
    cbn [Cleaning.matches_at]; try discriminate.
  rewrite !andb_true_iff. unfold Cleaning.is_sp.
  intros ((((((((((A1 & A2) & S1) & B1) & B2) & S2) & C1) & C2) & S3) & D1) & D2).
  apply Ascii.eqb_eq in S1, S2, S3. subst s1 s2 s3.
  destruct (is_hex_digit _ A1) as [x1 X1]. destruct (is_hex_digit _ A2) as [x2 X2].
  destruct (is_hex_digit _ B1) as [y1 Y1]. destruct (is_hex_digit _ B2) as [y2 Y2].
  destruct (is_hex_digit _ C1) as [z1 Z1]. destruct (is_hex_digit _ C2) as [z2 Z2].
  destruct (is_hex_digit _ D1) as [w1 W1]. destruct (is_hex_digit _ D2) as [w2 W2].
  exists a1, a2, b1, b2, c1, c2, d1, d2, rest, x1, x2, y1, y2, z1, z2, w1, w2.
  repeat (split; [first [reflexivity | assumption]|]). assumption.
Qed.

Lemma hex_capture_pair hi lo x y bs t :
  Decoder.digit16 hi = Some x -> Decoder.digit16 lo = Some y ->
  Decoder.hex_capture bs t ->
  Decoder.hex_capture ((16 * x + y) :: bs) (hi :: lo :: t)
  /\ 0 <= 16 * x + y < 256.
Proof.
  intros Hx Hy Hc.
  destruct (digit16_plain _ _ Hx) as [Rx _]. destruct (digit16_plain _ _ Hy) as [Ry _].
  split; [|lia]. apply Decoder.hc_byte; [lia| | |exact Hc].
  - rewrite Hx. f_equal. apply Z.div_unique with (r := y); lia.
  - rewrite Hy. f_equal. apply Z.mod_unique with (q := x); lia.
Qed.

Lemma bytes_list_digits hi lo x y r :
  Decoder.digit16 hi = Some x -> Decoder.digit16 lo = Some y ->
  Decoder.bytes_list (hi :: lo :: r) = (16 * x + y) :: Decoder.bytes_list r.
Proof.
  intros Hx Hy. rewrite bytes_list_pair, (int16_two_digits _ _ _ _ Hx Hy). reflexivity.
Qed.

Lemma SP_is_sep : Decoder.is_sep Decoder.SP = true.
Proof. reflexivity. Qed.

(** X19: a file that [clean_file] has rewritten decodes to at least 32
    bits: [load_sram_file] of the cleaned text starts with the bits of the
    four bytes that the matched groups spell, followed by what the rest of
    the text decodes to on its own. *)
Theorem clean_file_decodes (text cleaned : list ascii) :
  Cleaning.clean_file text = Some cleaned ->
  exists bs,
    length bs = 4%nat
    /\ Forall (fun b => 0 <= b < 256) bs
    /\ Decoder.hex_capture bs (firstn 11 cleaned)
    /\ Decoder.load_sram_file (string_of_list_ascii cleaned)
       = flat_map Decoder.byte_bits bs
         ++ Decoder.load_sram_file (string_of_list_ascii (skipn 11 cleaned))
    /\ (32 <= length (Decoder.load_sram_file (string_of_list_ascii cleaned)))%nat.
Proof.
  intros E. pose proof (clean_file_matches text) as H.
  rewrite E in H.
  destruct (matches_at_inv cleaned H)
    as (a1 & a2 & b1 & b2 & c1 & c2 & d1 & d2 & rest
        & x1 & x2 & y1 & y2 & z1 & z2 & w1 & w2
        & -> & X1 & X2 & Y1 & Y2 & Z1 & Z2 & W1 & W2).
  exists [16 * x1 + x2; 16 * y1 + y2; 16 * z1 + z2; 16 * w1 + w2].
  split; [reflexivity|].
  destruct (hex_capture_pair d1 d2 w1 w2 [] [] W1 W2 Decoder.hc_end) as [Cd Rd].
  destruct (hex_capture_pair c1 c2 z1 z2 _ _ Z1 Z2
              (Decoder.hc_sep _ _ _ SP_is_sep Cd)) as [Cc Rc].
  destruct (hex_capture_pair b1 b2 y1 y2 _ _ Y1 Y2
              (Decoder.hc_sep _ _ _ SP_is_sep Cc)) as [Cb Rb].
  destruct (hex_capture_pair a1 a2 x1 x2 _ _ X1 X2
              (Decoder.hc_sep _ _ _ SP_is_sep Cb)) as [Ca Ra].
  split; [repeat constructor; lia|].
  split; [exact Ca|].
  assert (Hload : Decoder.load_sram_file
                    (string_of_list_ascii
                       ([a1; a2; Decoder.SP; b1; b2; Decoder.SP; c1; c2; Decoder.SP; d1; d2]
                        ++ rest))
                  = flat_map Decoder.byte_bits
                      [16 * x1 + x2; 16 * y1 + y2; 16 * z1 + z2; 16 * w1 + w2]
                    ++ Decoder.load_sram_file (string_of_list_ascii rest)).
  { unfold Decoder.load_sram_file. rewrite !list_ascii_of_string_of_list_ascii.
    cbn [app].
    destruct (digit16_plain _ _ X1) as (_ & _ & _ & _ & _ & _ & _ & Sa1).
    destruct (digit16_plain _ _ X2) as (_ & _ & _ & _ & _ & _ & _ & Sa2).
    destruct (digit16_plain _ _ Y1) as (_ & _ & _ & _ & _ & _ & _ & Sb1).
    destruct (digit16_plain _ _ Y2) as (_ & _ & _ & _ & _ & _ & _ & Sb2).
    destruct (digit16_plain _ _ Z1) as (_ & _ & _ & _ & _ & _ & _ & Sc1).
    destruct (digit16_plain _ _ Z2) as (_ & _ & _ & _ & _ & _ & _ & Sc2).
    destruct (digit16_plain _ _ W1) as (_ & _ & _ & _ & _ & _ & _ & Sd1).
    destruct (digit16_plain _ _ W2) as (_ & _ & _ & _ & _ & _ & _ & Sd2).
    rewrite (hex_str_keep a1) by exact Sa1. rewrite (hex_str_keep a2) by exact Sa2.
    rewrite hex_str_sep by exact SP_is_sep.
    rewrite (hex_str_keep b1) by exact Sb1. rewrite (hex_str_keep b2) by exact Sb2.
    rewrite hex_str_sep by exact SP_is_sep.
    rewrite (hex_str_keep c1) by exact Sc1. rewrite (hex_str_keep c2) by exact Sc2.
    rewrite hex_str_sep by exact SP_is_sep.
    rewrite (hex_str_keep d1) by exact Sd1. rewrite (hex_str_keep d2) by exact Sd2.
    rewrite (bytes_list_digits _ _ _ _ _ X1 X2), (bytes_list_digits _ _ _ _ _ Y1 Y2),
      (bytes_list_digits _ _ _ _ _ Z1 Z2), (bytes_list_digits _ _ _ _ _ W1 W2).
    cbn [flat_map]. rewrite <- !app_assoc. reflexivity. }
  split; [exact Hload|].
  rewrite Hload, length_app. cbn [flat_map]. rewrite !length_app, !byte_bits_length.
  cbn [length]. lia.
Qed.

Lemma clean_file_decodes_witness :
  exists bs,
    length bs = 4%nat
    /\ Forall (fun b => 0 <= b < 256) bs
    /\ Decoder.hex_capture bs
         (firstn 11 (list_ascii_of_string "DE AD be ef 01 2"))
    /\ Decoder.load_sram_file
         (string_of_list_ascii (list_ascii_of_string "DE AD be ef 01 2"))
       = flat_map Decoder.byte_bits bs
         ++ Decoder.load_sram_file
              (string_of_list_ascii
                 (skipn 11 (list_ascii_of_string "DE AD be ef 01 2")))
    /\ (32 <= length (Decoder.load_sram_file
                        (string_of_list_ascii
                           (list_ascii_of_string "DE AD be ef 01 2"))))%nat.
Proof.
  apply (clean_file_decodes (list_ascii_of_string "boot: ok> DE AD be ef 01 2")).
  vm_compute. reflexivity.
Defined.

(** ** What a slice can decode to *)

Lemma all_ascii_In (c : ascii) : In c (map ascii_of_nat (seq 0 256)).
Proof.
  rewrite <- (ascii_nat_embedding c). apply in_map, in_seq.
  pose proof (nat_ascii_bounded c). lia.
Qed.

(** Every pair of characters, tried. *)
Lemma int16_pair_check :
  forallb (fun c1 =>
     forallb (fun c2 =>
        match Decoder.int16 [c1; c2] with
        | Some b => (-15 <=? b) && (b <=? 255)
        | None => true
        end) (map ascii_of_nat (seq 0 256)))
    (map ascii_of_nat (seq 0 256)) = true.
Proof. vm_compute. reflexivity. Qed.

Lemma int16_pair_range (c1 c2 : ascii) (b : Z) :
  Decoder.int16 [c1; c2] = Some b -> -15 <= b <= 255.
Proof.
  intros H. pose proof int16_pair_check as Hc.
  rewrite forallb_forall in Hc. specialize (Hc c1 (all_ascii_In c1)).
  rewrite forallb_forall in Hc. specialize (Hc c2 (all_ascii_In c2)).
  rewrite H in Hc. lia.
Qed.

Lemma pack8_byte_bits_check :
  forallb (fun k => Fingerprint.pack8 (Decoder.byte_bits (-15 + Z.of_nat k))
                    =? (-15 + Z.of_nat k) mod 256)
          (seq 0 271) = true.
Proof. vm_compute. reflexivity. Qed.

Lemma pack8_byte_bits_mod (b : Z) :
  -15 <= b <= 255 -> Fingerprint.pack8 (Decoder.byte_bits b) = b mod 256.
Proof.
  intros H. pose proof pack8_byte_bits_check as Hc.
  rewrite forallb_forall in Hc.
  specialize (Hc (Z.to_nat (b + 15)) ltac:(apply in_seq; lia)).
  replace (-15 + Z.of_nat (Z.to_nat (b + 15))) with b in Hc by lia.
  apply Z.eqb_eq, Hc.
Qed.

Lemma bytes_list_range (hs : list ascii) :
  Forall (fun b => -15 <= b <= 255) (Decoder.bytes_list hs).
Proof.
  apply Forall_forall. intros b Hb. unfold Decoder.bytes_list in Hb.
  apply in_flat_map in Hb. destruct Hb as (i & Hi & Hb).
  apply py_range_bound in Hi. destruct Hi as (H0 & H2 & _).
  assert (Hl : length (Decoder.slice hs i (i + 2)) = 2%nat)
    by (rewrite slice_length by lia; lia).
  destruct (Decoder.slice hs i (i + 2)) as [|c1 [|c2 [|c3 r]]]; try discriminate Hl.
  destruct (Decoder.int16 [c1; c2]) as [v|] eqn:E; [|destruct Hb].
  destruct Hb as [<-|[]]. exact (int16_pair_range c1 c2 v E).
Qed.

(** X20: a two-character slice that [int(.., 16)] accepts is not always
    two digits: a sign or a white-space character other than the removed
    ones may stand first, so the parsed values range over -15..255 and -15 is
    reached. The decoder writes the eight low bits of the two's complement
    of a negative value: packing the decoded bits gives every parsed value
    modulo 256. *)
Theorem load_sram_file_signed (content : string) :
  let bs := Decoder.bytes_list (Decoder.hex_str (list_ascii_of_string content)) in
  Forall (fun b => -15 <= b <= 255) bs
  /\ Fingerprint.packbits (Decoder.load_sram_file content)
     = map (fun b => b mod 256) bs
  /\ Decoder.bytes_list (Decoder.hex_str (list_ascii_of_string "-F")) = [-15]
  /\ Decoder.load_sram_file "-F" = [1; 1; 1; 1; 0; 0; 0; 1].
Proof.
  cbv zeta. split; [apply bytes_list_range|].
  split; [|split; vm_compute; reflexivity].
  unfold Decoder.load_sram_file.
  pose proof (bytes_list_range (Decoder.hex_str (list_ascii_of_string content))) as H.
  induction H as [|b bs Hb _ IH]; [reflexivity|].
  cbn [flat_map map]. rewrite packbits_byte_bits, IH, pack8_byte_bits_mod by exact Hb.
  reflexivity.
Qed.

(** ** How much a text can decode to *)

Lemma flat_map_option_length {A B : Type} (f : A -> option B) (l : list A) :
  (length (flat_map (fun x => match f x with Some y => [y] | None => [] end) l)
   <= length l)%nat.
Proof.
  induction l as [|x l IH]; [cbn; lia|].
  cbn [flat_map]. rewrite length_app. destruct (f x); cbn [length]; lia.
Qed.

Lemma filter_length_le' {A : Type} (p : A -> bool) (l : list A) :
  (length (filter p l) <= length l)%nat.
Proof.
  induction l as [|x l IH]; [cbn; lia|].
  cbn [filter]. destruct (p x); cbn [length]; lia.
Qed.

Lemma hex_str_length (content : list ascii) :
  (length (Decoder.hex_str content) <= length content)%nat.
Proof.
  unfold Decoder.hex_str, Decoder.replace.
  repeat (etransitivity; [apply filter_length_le'|]). lia.
Qed.

Lemma bytes_list_length (hs : list ascii) :
  (2 * length (Decoder.bytes_list hs) <= length hs)%nat.
Proof.
  unfold Decoder.bytes_list.
  pose proof (flat_map_option_length
                (fun i => Decoder.int16 (Decoder.slice hs i (i + 2)))
                (Decoder.py_range 0 (Z.of_nat (length hs) - 1) 2)) as H.
  unfold Decoder.py_range in H at 2. rewrite length_map, length_seq in H.
  replace (Z.of_nat (length hs) - 1 - 0 + 2 - 1) with (Z.of_nat (length hs)) in H by lia.
  pose proof (Z.mul_div_le (Z.of_nat (length hs)) 2 ltac:(lia)).
  pose proof (Z.div_pos (Z.of_nat (length hs)) 2 ltac:(lia) ltac:(lia)).
  lia.
Qed.

Lemma list_ascii_length (s : string) :
  length (list_ascii_of_string s) = String.length s.
Proof. induction s as [|c s IH]; [reflexivity|]. cbn. now rewrite IH. Qed.

(** X21: the decoder never produces more than four bits per character
    of the text: eight bits for every two characters that are left once the
    separators are removed, at most. In particular a text of fewer than two
    such characters decodes to the empty array. *)
Theorem load_sram_file_bound (content : string) :
  let hs := Decoder.hex_str (list_ascii_of_string content) in
  (length (Decoder.load_sram_file content) <= 4 * length hs)%nat
  /\ (length (Decoder.load_sram_file content) <= 4 * String.length content)%nat
  /\ ((length hs < 2)%nat -> Decoder.load_sram_file content = []).
Proof.
  cbv zeta. rewrite load_sram_file_length.
  pose proof (bytes_list_length (Decoder.hex_str (list_ascii_of_string content))) as H.
  pose proof (hex_str_length (list_ascii_of_string content)) as H'.
  rewrite list_ascii_length in H'.
  split; [lia|]. split; [lia|].
  intros Hlt. unfold Decoder.load_sram_file.
  destruct (Decoder.bytes_list (Decoder.hex_str (list_ascii_of_string content)));
    [reflexivity|cbn [length] in H; lia].
Qed.

(** ** The preview read back *)

Lemma hex_str_app (a b : list ascii) :
  Decoder.hex_str (a ++ b) = Decoder.hex_str a ++ Decoder.hex_str b.
Proof. unfold Decoder.hex_str, Decoder.replace. now rewrite !filter_app. Qed.

Lemma hex_str_rev (t : list ascii) :
  Decoder.hex_str (rev t) = rev (Decoder.hex_str t).
Proof.
  induction t as [|c t IH]; [reflexivity|].
  cbn [rev]. rewrite hex_str_app, IH.
  change (c :: t) with ([c] ++ t). rewrite hex_str_app, rev_app_distr.
  f_equal. unfold Decoder.hex_str, Decoder.replace. cbn [filter].
  repeat (match goal with |- context [if ?b then _ else _] => destruct b end;
          cbn [filter rev app]); reflexivity.
Qed.

Lemma py_lstrip_plain (t : list ascii) :
  Forall (fun c => Preview.is_py_space c = true -> Decoder.is_sep c = true) t ->
  Forall (fun c => Preview.is_py_space c = true -> Decoder.is_sep c = true)
         (Preview.py_lstrip t)
  /\ Decoder.hex_str (Preview.py_lstrip t) = Decoder.hex_str t.
Proof.
  induction 1 as [|c t Hc Ht IH]; [split; [constructor|reflexivity]|].
  cbn [Preview.py_lstrip]. destruct (Preview.is_py_space c) eqn:E.
  - destruct IH as [IH1 IH2]. split; [exact IH1|].
    rewrite IH2. symmetry. apply hex_str_sep, Hc, eq_refl.
  - split; [constructor; [intros E'; congruence|exact Ht]|reflexivity].
Qed.

Lemma py_strip_plain (t : list ascii) :
  Forall (fun c => Preview.is_py_space c = true -> Decoder.is_sep c = true) t ->
  Decoder.hex_str (Preview.py_strip t) = Decoder.hex_str t.
Proof.
  intros H. unfold Preview.py_strip.
  destruct (py_lstrip_plain t H) as [H1 E1].
  assert (H2 : Forall (fun c => Preview.is_py_space c = true -> Decoder.is_sep c = true)
                     (rev (Preview.py_lstrip t))) by (apply Forall_rev, H1).
  destruct (py_lstrip_plain _ H2) as [_ E2].
  rewrite hex_str_rev, E2, hex_str_rev, rev_involutive. exact E1.
Qed.

Lemma digit16_not_space (c : ascii) (d : Z) :
  Decoder.digit16 c = Some d -> Preview.is_py_space c = false.
Proof.
  destruct c as [[] [] [] [] [] [] [] []]; vm_compute; intros H;
    try discriminate H; reflexivity.
Qed.

Lemma hex_capture_plain (bs : list Z) (t : list ascii) :
  Decoder.hex_capture bs t -> Forall (fun c => Preview.is_py_space c = true -> Decoder.is_sep c = true) t.
Proof.
  induction 1 as [|c bs t Hc _ IH|hi lo b bs t _ Hh Hl _ IH]; [constructor| |].
  - constructor; [intros _; exact Hc|exact IH].
  - constructor; [|constructor; [|exact IH]]; intros E.
    + rewrite (digit16_not_space _ _ Hh) in E. discriminate E.
    + rewrite (digit16_not_space _ _ Hl) in E. discriminate E.
Qed.

Lemma hex_capture_seps (seps : list ascii) (bs : list Z) (t : list ascii) :
  Forall (fun c => Decoder.is_sep c = true) seps ->
  Decoder.hex_capture bs t -> Decoder.hex_capture bs (seps ++ t).
Proof.
  induction 1 as [|c seps Hc _ IH]; intros H; [exact H|].
  cbn [app]. apply Decoder.hc_sep; [exact Hc|exact (IH H)].
Qed.

Lemma preview_capture {A : Type} (g : A -> Z) (nl : A -> list ascii) (ks : list A) :
  (forall k, In k ks -> 0 <= g k < 256) ->
  (forall k, Forall (fun c => Decoder.is_sep c = true) (nl k)) ->
  Decoder.hex_capture (map g ks)
    (flat_map (fun k => Fingerprint.format_02X (g k) ++ [Decoder.SP] ++ nl k) ks).
Proof.
  intros Hg Hnl. induction ks as [|k ks IH]; [constructor|].
  cbn [map flat_map]. unfold Fingerprint.format_02X at 1. cbn [app].
  pose proof (Hg k (or_introl eq_refl)) as Hk.
  apply Decoder.hc_byte; [exact Hk| | |].
  - apply digit16_hex_char.
    split; [apply Z.div_pos; lia|apply Z.div_lt_upper_bound; lia].
  - apply digit16_hex_char. apply Z.mod_pos_bound. lia.
  - apply Decoder.hc_sep; [reflexivity|].
    apply hex_capture_seps; [apply Hnl|].
    apply IH. intros k' Hk'. apply Hg. now right.
Qed.

(** The byte of a group of at most eight bits, and what it decodes to. *)
Lemma group_decodes (g : list Z) :
  Forall is_bit g -> (length g <= 8)%nat ->
  0 <= fold_left Preview.shift_or g 0 < 256
  /\ Decoder.byte_bits (fold_left Preview.shift_or g 0)
     = repeat 0 (8 - length g) ++ g.
Proof.
  intros Hb Hl.
  do 9 (destruct g as [|? g];
        [clear Hl;
         repeat match goal with
                | H : Forall _ (_ :: _) |- _ =>
                    apply Forall_cons_iff in H; destruct H as [[-> | ->] H]
                end;
         vm_compute; repeat split; (reflexivity || discriminate)
        |]).
  cbn [length] in Hl. lia.
Qed.

Lemma nth_skipn_add {A : Type} (i j : nat) (l : list A) (d : A) :
  nth (i + j) l d = nth j (skipn i l) d.
Proof.
  revert l. induction i as [|i IH]; intros l; [reflexivity|].
  destruct l as [|x l]; [cbn; destruct j; reflexivity|].
  cbn [Nat.add nth skipn]. apply IH.
Qed.

Lemma group_byte_skipn (fp : list Z) (i : nat) :
  Preview.group_byte fp i = fold_left Preview.shift_or (firstn 8 (skipn i fp)) 0.
Proof.
  unfold Preview.group_byte. cbn [seq fold_left].
  assert (H1 : forall j, Nat.ltb (i + j) (length fp) = Nat.ltb j (length (skipn i fp))).
  { intros j. rewrite length_skipn.
    destruct (Nat.ltb_spec (i + j) (length fp)), (Nat.ltb_spec j (length fp - i));
      try reflexivity; lia. }
  rewrite !H1, !nth_skipn_add.
  destruct (skipn i fp) as [|b0 [|b1 [|b2 [|b3 [|b4 [|b5 [|b6 [|b7 r]]]]]]]];
    reflexivity.
Qed.

(** Groups of eight bits, the last one possibly short, read back. *)
Lemma groups_decode (q r : nat) (l : list Z) :
  length l = (8 * q + r)%nat -> (r < 8)%nat -> Forall is_bit l ->
  flat_map (fun k => Decoder.byte_bits
                       (fold_left Preview.shift_or (firstn 8 (skipn (k * 8) l)) 0))
           (seq 0 (q + (if Nat.eqb r 0 then 0 else 1)))
  = firstn (8 * q) l
    ++ (if Nat.eqb r 0 then [] else repeat 0 (8 - r) ++ skipn (8 * q) l).
Proof.
  revert l. induction q as [|q IH]; intros l Hl Hr Hb.
  - cbn [Nat.mul Nat.add] in *. rewrite firstn_0, skipn_0. cbn [app].
    destruct (Nat.eqb_spec r 0) as [E|E]; [reflexivity|].
    cbn [seq flat_map Nat.mul]. rewrite skipn_0, app_nil_r.
    rewrite firstn_all2 by lia.
    destruct (group_decodes l Hb ltac:(lia)) as [_ ->]. now rewrite Hl.
  - replace (8 * S q + r)%nat with (8 + (8 * q + r))%nat in Hl by lia.
    destruct l as [|b0 [|b1 [|b2 [|b3 [|b4 [|b5 [|b6 [|b7 l']]]]]]]];
      cbn [length] in Hl; try lia.
    assert (Hl' : length l' = (8 * q + r)%nat) by lia.
    assert (Hg : Forall is_bit [b0; b1; b2; b3; b4; b5; b6; b7] /\ Forall is_bit l').
    { change (b0 :: b1 :: b2 :: b3 :: b4 :: b5 :: b6 :: b7 :: l')
        with ([b0; b1; b2; b3; b4; b5; b6; b7] ++ l') in Hb.
      apply Forall_app in Hb. exact Hb. }
    destruct Hg as [Hg Hb'].
    cbn [Nat.add seq]. rewrite <- seq_shift. cbn [flat_map]. rewrite flat_map_map.
    rewrite (flat_map_ext
               (fun k => Decoder.byte_bits
                           (fold_left Preview.shift_or
                              (firstn 8 (skipn (S k * 8)
                                 (b0 :: b1 :: b2 :: b3 :: b4 :: b5 :: b6 :: b7 :: l'))) 0))
               (fun k => Decoder.byte_bits
                           (fold_left Preview.shift_or (firstn 8 (skipn (k * 8) l')) 0)))
      by (intros k; reflexivity).
    rewrite (IH l' Hl' Hr Hb').
    change (firstn 8 (skipn (0 * 8) (b0 :: b1 :: b2 :: b3 :: b4 :: b5 :: b6 :: b7 :: l')))
      with [b0; b1; b2; b3; b4; b5; b6; b7].
    destruct (group_decodes _ Hg ltac:(cbn; lia)) as [_ ->].
    replace (8 * S q)%nat with (8 + 8 * q)%nat by lia.
    change (firstn (8 + 8 * q) (b0 :: b1 :: b2 :: b3 :: b4 :: b5 :: b6 :: b7 :: l'))
      with (b0 :: b1 :: b2 :: b3 :: b4 :: b5 :: b6 :: b7 :: firstn (8 * q) l').
    change (skipn (8 + 8 * q) (b0 :: b1 :: b2 :: b3 :: b4 :: b5 :: b6 :: b7 :: l'))
      with (skipn (8 * q) l').
    reflexivity.
Qed.

Lemma Forall_firstn_skipn {A : Type} (P : A -> Prop) (n : nat) (l : list A) :
  Forall P l -> Forall P (firstn n l) /\ Forall P (skipn n l).
Proof.
  intros H. rewrite <- (firstn_skipn n l) in H. apply Forall_app in H. exact H.
Qed.

Lemma group_byte_range (fp : list Z) (i : nat) :
  Forall is_bit fp -> 0 <= Preview.group_byte fp i < 256.
Proof.
  intros H. rewrite group_byte_skipn. apply group_decodes.
  - apply Forall_firstn_skipn, Forall_firstn_skipn, H.
  - rewrite length_firstn. lia.
Qed.

(** The text of the preview decodes to the bytes of its groups. *)
Lemma fingerprint_to_hex_bytes (fp : list Z) (num_bytes : Z) :
  Forall is_bit fp ->
  Decoder.bytes_list (Decoder.hex_str (Preview.fingerprint_to_hex fp num_bytes))
  = map (fun k => Preview.group_byte fp (k * 8))
        (seq 0 (Z.to_nat ((Z.min (Z.of_nat (length fp)) (num_bytes * 8) + 7) / 8))).
Proof.
  intros Hb. unfold Preview.fingerprint_to_hex, Decoder.py_range.
  rewrite flat_map_map.
  replace (Z.min (Z.of_nat (length fp)) (num_bytes * 8) - 0 + 8 - 1)
    with (Z.min (Z.of_nat (length fp)) (num_bytes * 8) + 7) by lia.
  set (ks := seq 0 _).
  pose proof (preview_capture
                (fun k : nat => Preview.group_byte fp (Z.to_nat (0 + Z.of_nat k * 8)))
                (fun k : nat => if ((0 + Z.of_nat k * 8) / 8 + 1) mod 16 =? 0
                                then [Decoder.LF] else [])
                ks
                (fun k _ => group_byte_range fp _ Hb)) as Hc.
  cbv beta in Hc.
  assert (Hnl : forall k : nat,
            Forall (fun c => Decoder.is_sep c = true)
                   (if ((0 + Z.of_nat k * 8) / 8 + 1) mod 16 =? 0
                    then [Decoder.LF] else [])).
  { intros k. destruct (_ =? 0); repeat constructor. }
  specialize (Hc Hnl).
  rewrite (py_strip_plain _ (hex_capture_plain _ _ Hc)).
  rewrite (hex_capture_bits _ _ Hc). apply map_ext. intros k.
  f_equal. lia.
Qed.

(** X22: the preview that [fingerprint_to_hex] writes for a
    fingerprint of bits can be read back with [load_sram_file]: it gives
    the first [8 * num_bytes] bits of the fingerprint, where a last group of
    fewer than eight bits comes back with zeros in front of it (the preview
    writes such a group as a small number, where [np.packbits] would pad it
    behind). When the number of bits shown is a multiple of 8 the bits come
    back exactly. *)
Theorem fingerprint_to_hex_read_back (fp : list Z) (num_bytes : Z) :
  Forall is_bit fp ->
  let shown := firstn (Z.to_nat (num_bytes * 8)) fp in
  let q := (length shown / 8)%nat in
  let r := (length shown mod 8)%nat in
  Decoder.load_sram_file (string_of_list_ascii (Preview.fingerprint_to_hex fp num_bytes))
  = firstn (8 * q) shown
    ++ (if Nat.eqb r 0 then [] else repeat 0 (8 - r) ++ skipn (8 * q) shown)
  /\ (r = 0%nat ->
      Decoder.load_sram_file
        (string_of_list_ascii (Preview.fingerprint_to_hex fp num_bytes)) = shown).
Proof.
  intros Hb shown q r.
  assert (Hqr : length shown = (8 * q + r)%nat) by apply Nat.div_mod_eq.
  assert (Hr : (r < 8)%nat) by (apply Nat.mod_upper_bound; lia).
  assert (Hs : length shown = Nat.min (Z.to_nat (num_bytes * 8)) (length fp))
    by apply length_firstn.
  assert (Hbs : Forall is_bit shown) by (apply Forall_firstn_skipn, Hb).
  assert (Hmain : Decoder.load_sram_file
                    (string_of_list_ascii (Preview.fingerprint_to_hex fp num_bytes))
                  = firstn (8 * q) shown
                    ++ (if Nat.eqb r 0 then []
                        else repeat 0 (8 - r) ++ skipn (8 * q) shown)).
  { unfold Decoder.load_sram_file. rewrite list_ascii_of_string_of_list_ascii.
    rewrite (fingerprint_to_hex_bytes fp num_bytes Hb), flat_map_map.
    set (m := Z.to_nat ((Z.min (Z.of_nat (length fp)) (num_bytes * 8) + 7) / 8)).
    assert (Hm : m = (q + (if Nat.eqb r 0 then 0 else 1))%nat).
    { unfold m.
      destruct (Z.leb_spec (Z.min (Z.of_nat (length fp)) (num_bytes * 8)) 0) as [Hle|Hgt].
      - assert (length shown = 0%nat) by lia.
        assert (q = 0%nat /\ r = 0%nat) as [-> ->] by lia. cbn [Nat.eqb Nat.add].
        pose proof (Z.div_lt_upper_bound
                      (Z.min (Z.of_nat (length fp)) (num_bytes * 8) + 7) 8 1
                      ltac:(lia) ltac:(lia)). lia.
      - assert (Hst : Z.min (Z.of_nat (length fp)) (num_bytes * 8)
                      = 8 * Z.of_nat q + Z.of_nat r) by lia.
        rewrite Hst. destruct (Nat.eqb_spec r 0) as [->|Hr0].
        + rewrite <- (Z.div_unique (8 * Z.of_nat q + Z.of_nat 0 + 7) 8 (Z.of_nat q) 7)
            by lia. lia.
        + rewrite <- (Z.div_unique (8 * Z.of_nat q + Z.of_nat r + 7) 8
                        (Z.of_nat q + 1) (Z.of_nat r - 1)) by lia. lia. }
    rewrite <- (groups_decode q r shown Hqr Hr Hbs), <- Hm.
    apply flat_map_ext_In. intros k Hk. apply in_seq in Hk.
    rewrite group_byte_skipn. do 2 f_equal.
    destruct (Nat.le_gt_cases (length fp) (Z.to_nat (num_bytes * 8))) as [Hall|Hcut].
    - unfold shown. now rewrite (firstn_all2 fp) by exact Hall.
    - unfold shown. rewrite skipn_firstn_comm, firstn_firstn. f_equal.
      assert (Hq : Z.to_nat (num_bytes * 8) = (8 * q + r)%nat) by lia.
      assert (Hr0 : r = 0%nat).
      { destruct (Z.leb_spec (num_bytes * 8) 0) as [Hneg|Hpos]; [lia|].
        assert (Z.of_nat r = (num_bytes * 8 - 8 * Z.of_nat q)) by lia.
        assert (Hd : (Z.of_nat r) mod 8 = 0).
        { replace (Z.of_nat r) with ((num_bytes - Z.of_nat q) * 8) by lia.
          apply Z.mod_mul. lia. }
        rewrite Z.mod_small in Hd by lia. lia. }
      subst r. rewrite Hr0 in Hm. cbn [Nat.eqb] in Hm. lia. }
  split; [exact Hmain|].
  intros Hr0. rewrite Hmain, Hr0. cbn [Nat.eqb]. rewrite app_nil_r.
  apply firstn_all2. lia.
Qed.

Lemma fingerprint_to_hex_read_back_witness :
  Decoder.load_sram_file
    (string_of_list_ascii (Preview.fingerprint_to_hex [1; 0; 1; 0; 1; 0; 1; 1; 1; 1] 64))
  = [1; 0; 1; 0; 1; 0; 1; 1; 0; 0; 0; 0; 0; 0; 1; 1].
Proof.
  apply (fingerprint_to_hex_read_back [1; 0; 1; 0; 1; 0; 1; 1; 1; 1] 64).
  repeat constructor; (now left) || (now right).
Defined.

(** ** What debiasing does to a small cohort *)

Lemma xor_sum (s m : list Z) :
  length s = length m -> Forall is_bit s -> Forall is_bit m ->
  (forall i, nth i m 0 = 1 -> nth i s 0 = 0) ->
  Forall is_bit (map (fun p => Z.lxor (fst p) (snd p)) (combine s m))
  /\ Stats.np_sum (map (fun p => Z.lxor (fst p) (snd p)) (combine s m))
     = Stats.np_sum s + Stats.np_sum m.
Proof.
  revert m. induction s as [|x s IH]; intros [|y m] Hl Hs Hm Hz;
    try discriminate Hl; [split; [constructor|reflexivity]|].
  apply Forall_cons_iff in Hs. destruct Hs as [Hx Hs].
  apply Forall_cons_iff in Hm. destruct Hm as [Hy Hm].
  destruct (IH m ltac:(cbn in Hl; lia) Hs Hm (fun i => Hz (S i))) as [IH1 IH2].
  cbn [combine map fst snd]. rewrite !np_sum_cons, IH2.
  pose proof (Hz O) as H0. cbn [nth] in H0.
  destruct Hx as [-> | ->], Hy as [-> | ->]; cbn [Z.lxor];
    try (specialize (H0 eq_refl); discriminate H0);
    (split; [constructor; [(now left) || (now right)|exact IH1]|lia]).
Qed.

Lemma popcount_sum (mask : list Z) :
  Forall is_bit mask -> Stats.np_sum mask = Z.of_nat (Debias.popcount mask).
Proof.
  unfold Debias.popcount. induction 1 as [|b mask Hb _ IH]; [reflexivity|].
  rewrite np_sum_cons, IH. cbn [filter].
  destruct Hb as [-> | ->]; cbn [Z.eqb Pos.eqb length]; lia.
Qed.

(** X23: in a cohort of at most 20 bit sequences of one length, a
    position whose mean is below 0.05 is one where every member holds 0.
    The mask that [create_xor_mask] returns is therefore set only where the
    whole cohort holds 0, and [apply_xor_mask] turns exactly these zeros into
    ones: every debiased member is a bit sequence with [popcount mask] more
    ones than before. *)
Theorem debias_small_cohort (R : Debias.RandomState) (law : Debias.permutation_law R)
    (F : Rounding) (flaw : rounding_law F)
    (samples debiased : list (list Z)) (L : nat) (g : Debias.rng) (mask : list Z) :
  samples <> [] -> Forall (fun s => length s = L) samples ->
  Forall (Forall is_bit) samples -> (length samples <= 20)%nat ->
  fst (Debias.create_xor_mask samples g) = Ok mask ->
  Debias.apply_xor_mask samples mask = Ok debiased ->
  (forall i, nth i mask 0 = 1 -> Forall (fun s => nth i s 0 = 0) samples)
  /\ length debiased = length samples
  /\ forall k, (k < length samples)%nat ->
       Forall is_bit (nth k debiased [])
       /\ Stats.np_sum (nth k debiased [])
          = Stats.np_sum (nth k samples []) + Z.of_nat (Debias.popcount mask).
Proof.
  intros Hne Hall Hbits Hn Hmask Happ.
  pose proof (mean_axis0_rect F samples L Hne Hall) as Hm.
  match type of Hm with _ = Stats.Mean1 ?r => set (m := r) in * end.
  assert (HL : length m = L) by (subst m; now rewrite length_map, length_seq).
  assert (Hn0 : (0 < length samples)%nat)
    by (destruct samples; [contradiction|cbn; lia]).
  pose proof (create_xor_mask_cases R law F samples m g Hm) as Hc.
  cbv zeta in Hc.
  destruct (Debias.flip_budget m) as [budget|e];
    [|rewrite Hc in Hmask; discriminate Hmask].
  destruct Hc as [[_ Hr]|[_ (idx & g' & Hr & Hnd & Hincl & _)]];
    rewrite Hr in Hmask; [discriminate Hmask|].
  cbn [fst] in Hmask. injection Hmask as <-. rewrite HL in *.
  assert (Hidx : forall i, In i idx ->
            (i < L)%nat /\ Forall (fun s => nth i s 0 = 0) samples).
  { intros i Hi. apply Hincl, stable_zero_In in Hi. rewrite HL in Hi.
    destruct Hi as [Hlt Hi]. split; [exact Hlt|].
    unfold m in Hi. rewrite nth_map_seq in Hi by exact Hlt.
    pose proof (bits_at samples L i Hall Hbits Hlt) as Hcol.
    pose proof (column_sum_bounds samples i Hcol) as Hb.
    assert (Hs : Stats.np_sum (Stats.column samples i) = 0).
    { destruct (Z.eq_dec (Stats.np_sum (Stats.column samples i)) 0) as [|Hnz];
        [assumption|exfalso].
      apply (Qlt_not_le _ _ Hi). apply (rnd_monotone F flaw).
      destruct (length samples) as [|n']; [lia|].
      unfold Qle, Qdiv, Qmult, Qinv, inject_Z. cbn [Qnum Qden Z.of_nat].
      rewrite !Z.mul_1_r. cbn [Qnum Qden].
      assert (E' : Z.of_nat (S n') = Z.pos (Pos.of_succ_nat n')) by reflexivity.
      rewrite E' in *. nia. }
    assert (Hcb : Forall is_bit (Stats.column samples i))
      by (unfold Stats.column; apply Forall_map; exact Hcol).
    apply (bits_sum_zero _ Hcb) in Hs. rewrite forallb_forall in Hs.
    apply Forall_forall. intros s Hs'. symmetry. apply Z.eqb_eq, Hs.
    unfold Stats.column. apply in_map_iff. exists s. split; [reflexivity|exact Hs']. }
  assert (Hzero : forall i, nth i (Debias.assign idx 1 (repeat 0 L)) 0 = 1 ->
                            Forall (fun s => nth i s 0 = 0) samples).
  { intros i Hi. destruct (in_dec Nat.eq_dec i idx) as [Hin|Hnin].
    - apply Hidx, Hin.
    - rewrite assign_nth_out, nth_repeat in Hi by exact Hnin. discriminate Hi. }
  split; [exact Hzero|].
  assert (Hle : Forall (fun s : list Z =>
                          (length s <= length (Debias.assign idx 1 (repeat 0%Z L)))%nat)
                       samples).
  { rewrite assign_length, repeat_length.
    apply Forall_impl with (2 := Hall). intros s Hs. lia. }
  rewrite (apply_xor_mask_rows samples _ Hle) in Happ. injection Happ as <-.
  split; [apply length_map|].
  intros k Hk.
  set (row := fun s : list Z =>
                map (fun p => Z.lxor (fst p) (snd p))
                    (combine s (Debias.assign idx 1 (repeat 0 L)))).
  assert (E : nth k (map row samples) [] = row (nth k samples []))
    by exact (map_nth row samples [] k).
  fold row. rewrite E. unfold row.
  assert (Hin : In (nth k samples []) samples) by (apply nth_In, Hk).
  rewrite Forall_forall in Hall, Hbits.
  destruct (xor_sum (nth k samples []) (Debias.assign idx 1 (repeat 0 L))) as [X1 X2].
  - rewrite assign_length, repeat_length. apply Hall, Hin.
  - apply Hbits, Hin.
  - apply assign_ones_is_bit.
  - intros i Hi. specialize (Hzero i Hi). rewrite Forall_forall in Hzero.
    apply Hzero, Hin.
  - split; [exact X1|]. rewrite X2. f_equal. apply popcount_sum, assign_ones_is_bit.
Qed.

Lemma debias_small_cohort_witness :
  (forall i, nth i [1; 1; 0; 0; 0; 0; 0; 0] 0 = 1 ->
     Forall (fun s => nth i s 0 = 0) [[0;0;0;0;0;0;1;1]; [0;0;0;0;0;0;0;1]])
  /\ length [[1;1;0;0;0;0;1;1]; [1;1;0;0;0;0;0;1]] = 2%nat
  /\ forall k, (k < 2)%nat ->
       Forall is_bit (nth k [[1;1;0;0;0;0;1;1]; [1;1;0;0;0;0;0;1]] [])
       /\ Stats.np_sum (nth k [[1;1;0;0;0;0;1;1]; [1;1;0;0;0;0;0;1]] [])
          = Stats.np_sum (nth k [[0;0;0;0;0;0;1;1]; [0;0;0;0;0;0;0;1]] [])
            + Z.of_nat (Debias.popcount [1; 1; 0; 0; 0; 0; 0; 0]).
Proof.
  apply (debias_small_cohort MT19937.mt19937 mt19937_law
           Binary64.binary64 binary64_law
           [[0;0;0;0;0;0;1;1]; [0;0;0;0;0;0;0;1]]
           [[1;1;0;0;0;0;1;1]; [1;1;0;0;0;0;0;1]] 8 (MT19937.mt19937_seed 0)).
  - discriminate.
  - repeat constructor.
  - repeat constructor; (now left) || (now right).
  - cbn. lia.
  - vm_compute. reflexivity.
  - vm_compute. reflexivity.
Defined.

(** ** A cohort without unstable bits *)

Lemma nth_empty_rows {A : Type} (l : list A) (k : nat) :
  nth k (map (fun _ => @nil Z) l) [] = [].
Proof.
  revert k. induction l as [|x l IH]; intros [|k]; cbn [map nth]; auto.
Qed.

(** X24: a cohort of copies of one bit sequence has no unstable bit,
    whatever the threshold from 0 up: [find_unstable_bits] lists no index,
    [extract_unstable_bits] leaves every member empty, and the guards of
    [puf_unstable_bits.py] then give 0 for every distance and every
    weight. *)
Theorem unstable_bits_stable_cohort (F : Rounding) (law : rounding_law F)
    (samples : list (list Z)) (s : list Z) (threshold : Q) :
  samples <> [] -> Forall (fun s' => s' = s) samples -> Forall is_bit s ->
  (rnd 1 == 1)%Q -> (0 <= threshold)%Q ->
  exists means,
    Unstable.find_unstable_bits samples threshold = Ok ([], means)
    /\ Unstable.extract_unstable_bits samples [] = Some (map (fun _ => []) samples)
    /\ Forall (fun d => d = Num 0)
              (Unstable.compute_intra_hd (map (fun _ => []) samples))
    /\ Forall (fun r => Weight.hamming_weight_guarded r = Num 0)
              (map (fun _ => []) samples).
Proof.
  intros Hne Hsame Hbits H1 Hth.
  assert (Hlen : Forall (fun s' => length s' = length s) samples)
    by (apply Forall_impl with (2 := Hsame); intros s' ->; reflexivity).
  assert (Hn0 : (0 < length samples)%nat)
    by (destruct samples; [contradiction|cbn; lia]).
  pose proof (mean_axis0_rect F samples (length s) Hne Hlen) as Hm.
  destruct (Unstable.find_unstable_bits samples threshold) as [[idx means]|e] eqn:E;
    [|unfold Unstable.find_unstable_bits in E; rewrite Hm in E; discriminate E].
  destruct (find_unstable_bits_inv F samples threshold idx means E)
    as (Hm' & _ & _ & _ & Hin).
  assert (Hidx : idx = []).
  { destruct idx as [|i idx]; [reflexivity|exfalso].
    destruct (proj1 (Hin i) (or_introl eq_refl)) as (Hlt & Hlo & Hhi).
    rewrite Hm in Hm'. injection Hm' as Hm'.
    assert (Hls : length means = length s)
      by (rewrite <- Hm'; now rewrite length_map, length_seq).
    rewrite Hls in Hlt.
    assert (Hr : nth i means 0%Q
                 = rnd (inject_Z (Stats.np_sum (Stats.column samples i))
                        / inject_Z (Z.of_nat (length samples)))).
    { rewrite <- Hm' at 1.
      exact (nth_map_seq
               (fun i => rnd (inject_Z (Stats.np_sum (Stats.column samples i))
                              / inject_Z (Z.of_nat (length samples))))
               (length s) i 0%Q Hlt). }
    rewrite Hr, (column_identical samples s i Hsame) in Hlo, Hhi.
    assert (Hsi : is_bit (nth i s 0))
      by (rewrite Forall_forall in Hbits; apply Hbits, nth_In, Hlt).
    destruct Hsi as [E0|E1].
    - rewrite E0, Z.mul_0_r in Hlo. apply (Qlt_not_le _ _ Hlo).
      apply Qle_trans with (y := 0%Q); [|exact Hth].
      rewrite <- (rnd_0 F law). apply (rnd_monotone F law).
      rewrite Qdiv_nat_zero. apply Qle_refl.
    - rewrite E1, Z.mul_1_r in Hhi. apply (Qlt_not_le _ _ Hhi).
      apply (rnd_monotone F law). rewrite (Qdiv_nat_one _ Hn0).
      unfold Qle, Qminus, Qplus, Qopp in *. cbn [Qnum Qden] in *. nia. }
  subst idx. exists means. split; [reflexivity|].
  split.
  { unfold Unstable.extract_unstable_bits. apply map_option_total.
    intros x _. reflexivity. }
  split.
  { unfold Unstable.compute_intra_hd. apply Forall_forall. intros d Hd.
    apply in_map_iff in Hd. destruct Hd as (ij & <- & _).
    rewrite !nth_empty_rows. reflexivity. }
  apply Forall_forall. intros r Hr. apply in_map_iff in Hr.
  destruct Hr as (x & <- & _). reflexivity.
Qed.

Lemma unstable_bits_stable_cohort_witness :
  exists means,
    Unstable.find_unstable_bits (F := Binary64.binary64)
      [[1; 0; 1; 1]; [1; 0; 1; 1]; [1; 0; 1; 1]] (Binary64.round64 (1 # 10))
    = Ok ([], means)
    /\ Unstable.extract_unstable_bits [[1; 0; 1; 1]; [1; 0; 1; 1]; [1; 0; 1; 1]] []
       = Some (map (fun _ => []) [[1; 0; 1; 1]; [1; 0; 1; 1]; [1; 0; 1; 1]]%Z)
    /\ Forall (fun d => d = Num 0)
              (Unstable.compute_intra_hd (F := Binary64.binary64)
                 (map (fun _ => []) [[1; 0; 1; 1]; [1; 0; 1; 1]; [1; 0; 1; 1]]%Z))
    /\ Forall (fun r => Weight.hamming_weight_guarded (F := Binary64.binary64) r = Num 0)
              (map (fun _ => []) [[1; 0; 1; 1]; [1; 0; 1; 1]; [1; 0; 1; 1]]%Z).
Proof.
  apply (unstable_bits_stable_cohort Binary64.binary64 binary64_law
           [[1; 0; 1; 1]; [1; 0; 1; 1]; [1; 0; 1; 1]] [1; 0; 1; 1]
           (Binary64.round64 (1 # 10))).
  - discriminate.
  - repeat constructor.
  - repeat constructor; (now left) || (now right).
  - vm_compute. reflexivity.
  - vm_compute. discriminate.
Defined.
